(** * FetchBrain SDK: batcher, circuit breaker, client and handler wrapper

    A shallow embedding of the concurrency-coordination core of the SDK:
    - [CircuitBreaker]  (circuit-breaker.ts)
    - [RequestBatcher]  (batch.ts)
    - [FetchBrainClient] ([query], [learn], [queryBulk], [stats],
                         [executeBatchQuery] and [sendTelemetry] of client.ts)
    - [Enhance]         ([shouldRunHandler], the wrapped request handler and
                         the standalone [pushData] of enhance.ts)
    and of what stands around it:
    - [Logger]          (logger.ts)
    - [TelemetryBuffer] (the buffer class of telemetry.ts)
    - [MockServer]      (mock/server.ts)
    - [MockFetchBrain]  (the mock client of mock/index.ts)

    JavaScript numbers that the code uses as counters, sizes and millisecond
    timestamps are integers of [Z]; [Date.now()] is an explicit argument.
    Asynchronous methods are split at their [await]: the part that runs
    synchronously and the continuation that runs when the awaited promise
    settles. *)

From Stdlib Require Import ZArith QArith String List Bool Lia.
From stdpp Require Import base option list gmap strings.

Local Open Scope Z_scope.

(* ===================================================================== *)
(** ** Circuit breaker *)
(* ===================================================================== *)

Module CircuitBreaker.

(** [type CircuitState = 'closed' | 'open' | 'half-open'] *)
Inductive CircuitState : Type := closed | open | half_open.

#[global] Instance CircuitState_eq_dec : EqDecision CircuitState.
Proof. solve_decision. Defined.

Record CircuitBreakerConfig : Type := {
  failureThreshold : Z;
  resetTimeout : Z;
  successThreshold : Z
}.

Definition DEFAULT_CONFIG : CircuitBreakerConfig :=
  {| failureThreshold := 3; resetTimeout := 30000; successThreshold := 1 |}.

(** The private fields of the class. *)
Record t : Type := {
  state : CircuitState;
  failures : Z;
  successes : Z;
  lastFailureTime : Z
}.

Definition set_state (s : CircuitState) (b : t) : t :=
  {| state := s; failures := failures b; successes := successes b;
     lastFailureTime := lastFailureTime b |}.
Definition set_failures (n : Z) (b : t) : t :=
  {| state := state b; failures := n; successes := successes b;
     lastFailureTime := lastFailureTime b |}.
Definition set_successes (n : Z) (b : t) : t :=
  {| state := state b; failures := failures b; successes := n;
     lastFailureTime := lastFailureTime b |}.
Definition set_lastFailureTime (n : Z) (b : t) : t :=
  {| state := state b; failures := failures b; successes := successes b;
     lastFailureTime := n |}.

(** Field initialisers: [state = 'closed'], counters and stamp [0]. *)
Definition init : t :=
  {| state := closed; failures := 0; successes := 0; lastFailureTime := 0 |}.

Section Methods.
Variable config : CircuitBreakerConfig.

(** [reset()] *)
Definition reset (b : t) : t :=
  set_lastFailureTime 0 (set_successes 0 (set_failures 0 (set_state closed b))).

(** [isOpen()], with [now] the value of [Date.now()]; returns the answer
    and the breaker after the call. *)
Definition isOpen (now : Z) (b : t) : bool * t :=
  match state b with
  | closed => (false, b)
  | open =>
      if resetTimeout config <=? now - lastFailureTime b
      then (false, set_successes 0 (set_state half_open b))
      else (true, b)
  | half_open => (false, b)
  end.

(** [recordSuccess()] *)
Definition recordSuccess (b : t) : t :=
  match state b with
  | half_open =>
      let b1 := set_successes (successes b + 1) b in
      if successThreshold config <=? successes b1 then reset b1 else b1
  | closed => set_failures 0 b
  | open => b
  end.

(** [recordFailure()], with [now] the value of [Date.now()]. *)
Definition recordFailure (now : Z) (b : t) : t :=
  let b1 := set_lastFailureTime now (set_failures (failures b + 1) b) in
  match state b1 with
  | half_open => set_state open b1
  | _ =>
      if failureThreshold config <=? failures b1
      then set_state open b1
      else b1
  end.

(** A call of one of the public mutating methods. *)
Inductive Call : Type :=
| IsOpen (now : Z)
| RecordSuccess
| RecordFailure (now : Z)
| Reset.

Definition step (c : Call) (b : t) : t :=
  match c with
  | IsOpen now => snd (isOpen now b)
  | RecordSuccess => recordSuccess b
  | RecordFailure now => recordFailure now b
  | Reset => reset b
  end.

Fixpoint run (cs : list Call) (b : t) : t :=
  match cs with
  | [] => b
  | c :: cs' => run cs' (step c b)
  end.

(** The states a breaker can be in: those some sequence of calls produces
    from a freshly constructed one. *)
Definition reachable (b : t) : Prop := exists cs, b = run cs init.

(** Two breakers agree on what the code will still read: the state, the
    stamp, the failure counter while closed and the success counter while
    half-open. *)
Definition same_relevant (b1 b2 : t) : Prop :=
  state b1 = state b2 /\
  lastFailureTime b1 = lastFailureTime b2 /\
  (state b1 = closed -> failures b1 = failures b2) /\
  (state b1 = half_open -> successes b1 = successes b2).

End Methods.

(** What the counters can be in each state. *)
Definition in_range (config : CircuitBreakerConfig) (b : t) : Prop :=
  0 <= failures b /\
  0 <= successes b /\
  (state b = closed -> failures b < failureThreshold config /\ successes b = 0) /\
  (state b = half_open -> successes b < successThreshold config) /\
  (state b <> closed -> 1 <= failures b).

(** [getState()] *)
Definition getState (b : t) : CircuitState := state b.

(** The object [getStats()] returns. *)
Record Stats : Type := {
  stats_state : CircuitState;
  stats_failures : Z;
  stats_successes : Z
}.

(** [getStats()] *)
Definition getStats (b : t) : Stats :=
  {| stats_state := state b; stats_failures := failures b;
     stats_successes := successes b |}.

(** What [recordFailure()] hands to [logger.warn]: 'API still failing,
    circuit reopened', or the message that prints the failure count,
    [`Circuit opened after ${this.failures} failures. ...`]. *)
Inductive Warning : Type :=
| still_failing
| opened_after (n : Z).

(** The warning that [recordFailure()] logs, if any; the count it prints
    is the one just incremented. *)
Definition recordFailure_warning (config : CircuitBreakerConfig) (b : t)
  : option Warning :=
  match state b with
  | half_open => Some still_failing
  | _ =>
      if failureThreshold config <=? failures b + 1
      then Some (opened_after (failures b + 1))
      else None
  end.

(** *** Sample breakers, at the default configuration *)

(** A fresh breaker after failures at times 1, 2 and 3. *)
Definition three_failures : t :=
  run DEFAULT_CONFIG (map RecordFailure ([1; 2] ++ [3])) init.

(** Open since time 3, and the half-open breaker it turns into. *)
Definition opened_at_3 : t :=
  {| state := open; failures := 3; successes := 0; lastFailureTime := 3 |}.
Definition trial_at_3 : t :=
  {| state := half_open; failures := 3; successes := 0; lastFailureTime := 3 |}.

(** Two half-open breakers that differ only in the failure count. *)
Definition trial_at_3' : t :=
  {| state := half_open; failures := 7; successes := 0; lastFailureTime := 3 |}.

End CircuitBreaker.

(* ===================================================================== *)
(** ** Shared types (types.ts) *)
(* ===================================================================== *)

Module Types.

(** [Record<string, unknown>] payloads and optional numeric annotations are
    only carried around by the code below, never inspected beyond being
    present or absent: they are kept as their JSON text. *)
Definition Json : Type := string.

(** Thrown values and promise rejection reasons. *)
Definition Error : Type := string.

(** [interface AIResult]; an optional field is an [option]. *)
Record AIResult : Type := {
  known : bool;
  data : option Json;
  confidence : option Json;
  fallback : option bool
}.

(** [{ known: false }] *)
Definition unknown_result : AIResult :=
  {| known := false; data := None; confidence := None; fallback := None |}.

(** [{ known: false, fallback: true }] *)
Definition fallback_result : AIResult :=
  {| known := false; data := None; confidence := None; fallback := Some true |}.

Inductive LearnStatus : Type := accepted | rejected | flagged.

(** [interface LearnResponse] *)
Record LearnResponse : Type := {
  status : LearnStatus;
  learned : Z;
  verification : option Json
}.

(** [{ status: 'rejected', learned: 0 }] *)
Definition rejected_response : LearnResponse :=
  {| status := rejected; learned := 0; verification := None |}.

(** How a promise settles, and how an [async] function or a [try] block
    completes. *)
Inductive Completion (A : Type) : Type :=
| Returns (a : A)
| Throws (e : Error).
Arguments Returns {A} a.
Arguments Throws {A} e.

End Types.

(* ===================================================================== *)
(** ** Request batcher (batch.ts) *)
(* ===================================================================== *)

Module RequestBatcher.
Import Types.

Record BatchConfig : Type := {
  maxSize : Z;
  maxWait : Z
}.

Definition DEFAULT_CONFIG : BatchConfig := {| maxSize := 50; maxWait := 50 |}.

(** [interface PendingRequest]: the [resolve] and [reject] closures of one
    promise, named by the number of that promise. *)
Record PendingRequest : Type := {
  url : string;
  promise : nat
}.

(** The batcher object ([queue], [flushTimeout]) together with the part of
    the runtime its methods act on: the timers that [setTimeout] has armed
    and that have neither fired nor been cleared (all of them call
    [flush]), the executor calls made so far, the [flush] activations
    suspended at [await this.executor(urls)], and the [resolve]/[reject]
    calls made so far. *)
Record t : Type := {
  queue : list PendingRequest;
  flushTimeout : option nat;
  timers : list (nat * Z);
  nextTimer : nat;
  nextPromise : nat;
  calls : list (list string);
  suspended : list (nat * list PendingRequest);
  settled : list (nat * Completion AIResult)
}.

(** [new RequestBatcher(executor, config, logger)] in a fresh runtime. *)
Definition init : t :=
  {| queue := []; flushTimeout := None; timers := []; nextTimer := 0;
     nextPromise := 0; calls := []; suspended := []; settled := [] |}.

Definition set_queue (q : list PendingRequest) (w : t) : t :=
  {| queue := q; flushTimeout := flushTimeout w; timers := timers w;
     nextTimer := nextTimer w; nextPromise := nextPromise w;
     calls := calls w; suspended := suspended w; settled := settled w |}.
Definition set_flushTimeout (h : option nat) (w : t) : t :=
  {| queue := queue w; flushTimeout := h; timers := timers w;
     nextTimer := nextTimer w; nextPromise := nextPromise w;
     calls := calls w; suspended := suspended w; settled := settled w |}.
Definition set_timers (ts : list (nat * Z)) (w : t) : t :=
  {| queue := queue w; flushTimeout := flushTimeout w; timers := ts;
     nextTimer := nextTimer w; nextPromise := nextPromise w;
     calls := calls w; suspended := suspended w; settled := settled w |}.
Definition set_nextTimer (n : nat) (w : t) : t :=
  {| queue := queue w; flushTimeout := flushTimeout w; timers := timers w;
     nextTimer := n; nextPromise := nextPromise w;
     calls := calls w; suspended := suspended w; settled := settled w |}.
Definition set_nextPromise (n : nat) (w : t) : t :=
  {| queue := queue w; flushTimeout := flushTimeout w; timers := timers w;
     nextTimer := nextTimer w; nextPromise := n;
     calls := calls w; suspended := suspended w; settled := settled w |}.
Definition set_calls (cs : list (list string)) (w : t) : t :=
  {| queue := queue w; flushTimeout := flushTimeout w; timers := timers w;
     nextTimer := nextTimer w; nextPromise := nextPromise w;
     calls := cs; suspended := suspended w; settled := settled w |}.
Definition set_suspended (s : list (nat * list PendingRequest)) (w : t) : t :=
  {| queue := queue w; flushTimeout := flushTimeout w; timers := timers w;
     nextTimer := nextTimer w; nextPromise := nextPromise w;
     calls := calls w; suspended := s; settled := settled w |}.
Definition set_settled (s : list (nat * Completion AIResult)) (w : t) : t :=
  {| queue := queue w; flushTimeout := flushTimeout w; timers := timers w;
     nextTimer := nextTimer w; nextPromise := nextPromise w;
     calls := calls w; suspended := suspended w; settled := s |}.

(** [setTimeout(() => this.flush(), delay)]: a new handle, armed. *)
Definition setTimeout (delay : Z) (w : t) : nat * t :=
  let h := nextTimer w in
  (h, set_nextTimer (S h) (set_timers (timers w ++ [(h, delay)]) w)).

(** [clearTimeout(h)] *)
Definition clearTimeout (h : nat) (w : t) : t :=
  set_timers (filter (fun p => fst p <> h) (timers w)) w.

Section Methods.
Variable config : BatchConfig.

(** [if (this.flushTimeout) { clearTimeout(this.flushTimeout);
    this.flushTimeout = null; }] *)
Definition cancel_flushTimeout (w : t) : t :=
  match flushTimeout w with
  | Some h => set_flushTimeout None (clearTimeout h w)
  | None => w
  end.

(** [this.flushTimeout = setTimeout(() => this.flush(), maxWait)] *)
Definition schedule_flush (w : t) : t :=
  let '(h, w1) := setTimeout (maxWait config) w in
  set_flushTimeout (Some h) w1.

(** [flush()] up to [await this.executor(urls)]: the batch is spliced off
    the front of the queue and the executor is called with its URLs; the
    activation then waits for the executor's promise under the index of
    that call. With an empty queue it returns before any of this. *)
Definition flush (w : t) : t :=
  let w1 := cancel_flushTimeout w in
  match queue w1 with
  | [] => w1
  | _ :: _ =>
      let n := Z.to_nat (maxSize config) in
      let batch := take n (queue w1) in
      let w2 := set_queue (drop n (queue w1)) w1 in
      let urls := map url batch in
      let k := length (calls w2) in
      set_suspended (suspended w2 ++ [(k, batch)])
        (set_calls (calls w2 ++ [urls]) w2)
  end.

(** The loop of the [try] block: each request is resolved with the entry
    of the result map for its URL, or with [{ known: false }]. *)
Definition resolve_all (results : gmap string AIResult)
    (batch : list PendingRequest) : list (nat * Completion AIResult) :=
  map (fun r =>
         (promise r,
          Returns (match results !! url r with
                   | Some result => result
                   | None => unknown_result
                   end))) batch.

(** The loop of the [catch] block. *)
Definition reject_all (error : Error)
    (batch : list PendingRequest) : list (nat * Completion AIResult) :=
  map (fun r => (promise r, Throws error)) batch.

(** [flush()] from the [await] on, for the activation that waits for
    executor call [k], once that call has settled with [outcome]. *)
Definition flush_resume (k : nat)
    (outcome : Completion (gmap string AIResult)) (w : t) : t :=
  match list_find (fun p => fst p = k) (suspended w) with
  | None => w
  | Some (_, (_, batch)) =>
      let w1 := set_suspended
                  (filter (fun p => fst p <> k) (suspended w)) w in
      let w2 :=
        match outcome with
        | Returns results =>
            set_settled (settled w1 ++ resolve_all results batch) w1
        | Throws error =>
            set_settled (settled w1 ++ reject_all error batch) w1
        end in
      match queue w2 with
      | [] => w2
      | _ :: _ => schedule_flush w2
      end
  end.

(** [query(url)]: the promise executor runs at once; the result is the
    number of the promise returned. *)
Definition query (u : string) (w : t) : nat * t :=
  let p := nextPromise w in
  let w1 := set_nextPromise (S p)
              (set_queue (queue w ++ [{| url := u; promise := p |}]) w) in
  if maxSize config <=? Z.of_nat (length (queue w1)) then (p, flush w1)
  else
    match flushTimeout w1 with
    | None => (p, schedule_flush w1)
    | Some _ => (p, w1)
    end.

(** [getQueueSize()] *)
Definition getQueueSize (w : t) : Z := Z.of_nat (length (queue w)).

(** [clear()] *)
Definition clear (w : t) : t :=
  let w1 := cancel_flushTimeout w in
  let w2 := set_settled
              (settled w1 ++
               map (fun r => (promise r, Returns fallback_result)) (queue w1))
              w1 in
  set_queue [] w2.

(** An armed timer fires: the runtime drops it and runs its callback,
    [() => this.flush()]. A handle that is not armed does nothing. *)
Definition timer_fires (h : nat) (w : t) : t :=
  if bool_decide (h ∈ map fst (timers w))
  then flush (clearTimeout h w)
  else w.

(** What can happen to a batcher. *)
Inductive Event : Type :=
| Query (u : string)
| TimerFires (h : nat)
| ExecutorSettles (k : nat) (outcome : Completion (gmap string AIResult))
| Clear.

Definition step (e : Event) (w : t) : t :=
  match e with
  | Query u => snd (query u w)
  | TimerFires h => timer_fires h w
  | ExecutorSettles k outcome => flush_resume k outcome w
  | Clear => clear w
  end.

Fixpoint run (es : list Event) (w : t) : t :=
  match es with
  | [] => w
  | e :: es' => run es' (step e w)
  end.

(** The URLs queried by a sequence of events, in order. *)
Fixpoint queried (es : list Event) : list string :=
  match es with
  | [] => []
  | Query u :: es' => u :: queried es'
  | _ :: es' => queried es'
  end.

(** Events during which no timer fires and the batcher is not cleared:
    queries arrive and executor calls settle. *)
Definition arrival (e : Event) : bool :=
  match e with
  | Query _ | ExecutorSettles _ _ => true
  | TimerFires _ | Clear => false
  end.

(** The batchers that events produce from a new one. *)
Definition reachable (w : t) : Prop := exists es, w = run es init.

(** A promise settles the first time [resolve] or [reject] is called on
    it; later calls do nothing. *)
Fixpoint first_settlement (p : nat) (l : list (nat * Completion AIResult))
  : option (Completion AIResult) :=
  match l with
  | [] => None
  | (q, c) :: l' => if decide (q = p) then Some c else first_settlement p l'
  end.

(** How promise [p] has settled, if it has. *)
Definition outcome_of (p : nat) (w : t) : option (Completion AIResult) :=
  first_settlement p (settled w).

(** The promises of the batches that wait for their executor call. *)
Definition batch_promises (l : list (nat * list PendingRequest)) : list nat :=
  concat (map (fun e => map promise (snd e)) l).

(** The promises the batcher still has to settle: those in the queue and
    those of the suspended flushes. *)
Definition pending (w : t) : list nat :=
  map promise (queue w) ++ batch_promises (suspended w).

(** Every promise handed out is held once: no promise is pending twice, a
    settled promise is no longer pending, promise numbers and executor call
    indices are below the next ones to be given, and no two suspended
    flushes wait for the same call. *)
Record consistent (w : t) : Prop := {
  pending_NoDup : NoDup (pending w);
  pending_bound : forall p, p ∈ pending w -> (p < nextPromise w)%nat;
  settled_done : forall p, p ∈ map fst (settled w) -> p ∉ pending w;
  settled_bound :
    forall p, p ∈ map fst (settled w) -> (p < nextPromise w)%nat;
  keys_NoDup : NoDup (map fst (suspended w));
  keys_bound :
    forall k, k ∈ map fst (suspended w) -> (k < length (calls w))%nat
}.

(** Between flushes the queue is shorter than [maxSize], the handle in
    [flushTimeout] is armed with [maxWait], and a non-empty queue has such
    a handle. *)
Definition waiting (w : t) : Prop :=
  Z.of_nat (length (queue w)) < maxSize config /\
  (forall h, flushTimeout w = Some h -> (h, maxWait config) ∈ timers w) /\
  (queue w <> [] -> is_Some (flushTimeout w)).

End Methods.

(** The queue is shorter than [maxSize] and the executor has only been
    called with between one and [maxSize] URLs. *)
Definition bounded (config : BatchConfig) (w : t) : Prop :=
  Z.of_nat (length (queue w)) < maxSize config /\
  Forall (fun c => 1 <= Z.of_nat (length c) <= maxSize config) (calls w).

(** An event other than [clear()]. *)
Definition no_clear (e : Event) : bool :=
  match e with Clear => false | _ => true end.

(** No promise has been settled twice, and every promise handed out is
    either still pending or settled. *)
Definition accounted (w : t) : Prop :=
  NoDup (map fst (settled w)) /\
  (forall p, (p < nextPromise w)%nat ->
             p ∈ pending w \/ p ∈ map fst (settled w)).

(** *** Sample batchers: batches of two *)

Definition pairs : BatchConfig := {| maxSize := 2; maxWait := 50 |}.

Definition three_queries : list Event := [Query "a"; Query "b"; Query "c"].

(** After three queries the first two are with the executor and the third
    waits in the queue under a timer. *)
Definition two_in_flight : t := run pairs three_queries init.

Definition first_batch : list PendingRequest :=
  [{| url := "a"; promise := 0 |}; {| url := "b"; promise := 1 |}].

Definition answer_a : AIResult :=
  {| known := true; data := Some "{}"; confidence := None; fallback := None |}.

(** A result map that knows "a" and says nothing of "b". *)
Definition knows_a : gmap string AIResult := {[ "a" := answer_a ]}.

(** The executor call for the first two has failed while the third was
    waiting. *)
Definition first_batch_failed : t :=
  run pairs (three_queries ++ [ExecutorSettles 0 (Throws "down")]) init.

(** Then the batcher is cleared, and a fourth request arrives. *)
Definition cleared_then_queried : t :=
  run pairs
    (three_queries ++ [ExecutorSettles 0 (Throws "down"); Clear; Query "d"])
    init.

End RequestBatcher.

(* ===================================================================== *)
(** ** API client (client.ts) *)
(* ===================================================================== *)

Module FetchBrainClient.
Import Types.

(** The configuration fields that [query] and [learn] read; [learning] is
    already defaulted by the constructor ([config.learning ?? true]). The
    extractor is user code and may throw. *)
Record Config : Type := {
  learning : bool;
  extractForLearning : option (Json -> Completion Json)
}.

(** One [makeRequest] call: the path, the URL taught and the payload, and
    the body they were serialised to. *)
Record Request : Type := {
  path : string;
  entry_url : string;
  entry_data : Json;
  body : string
}.

(** The client object with the requests it has issued. The breaker and the
    batcher are constructed with [{}], that is with their defaults. *)
Record t : Type := {
  config : Config;
  circuitBreaker : CircuitBreaker.t;
  batcher : RequestBatcher.t;
  requests : list Request
}.

Definition breakerConfig : CircuitBreaker.CircuitBreakerConfig :=
  CircuitBreaker.DEFAULT_CONFIG.
Definition batchConfig : RequestBatcher.BatchConfig :=
  RequestBatcher.DEFAULT_CONFIG.

(** [new FetchBrainClient(config)] *)
Definition init (cfg : Config) : t :=
  {| config := cfg; circuitBreaker := CircuitBreaker.init;
     batcher := RequestBatcher.init; requests := [] |}.

Definition set_circuitBreaker (b : CircuitBreaker.t) (c : t) : t :=
  {| config := config c; circuitBreaker := b; batcher := batcher c;
     requests := requests c |}.
Definition set_batcher (b : RequestBatcher.t) (c : t) : t :=
  {| config := config c; circuitBreaker := circuitBreaker c; batcher := b;
     requests := requests c |}.
Definition set_requests (r : list Request) (c : t) : t :=
  {| config := config c; circuitBreaker := circuitBreaker c;
     batcher := batcher c; requests := r |}.

(** Method bodies: computations on the client that return or throw. *)
Definition M (A : Type) : Type := t -> Completion A * t.

Definition ret {A : Type} (a : A) : M A := fun c => (Returns a, c).
Definition throw {A : Type} (e : Error) : M A := fun c => (Throws e, c).
Definition bind {A B : Type} (m : M A) (k : A -> M B) : M B :=
  fun c =>
    match m c with
    | (Returns a, c1) => k a c1
    | (Throws e, c1) => (Throws e, c1)
    end.
(** [try { body } catch (error) { handler }] *)
Definition try_ {A : Type} (body : M A) (handler : Error -> M A) : M A :=
  fun c =>
    match body c with
    | (Returns a, c1) => (Returns a, c1)
    | (Throws e, c1) => handler e c1
    end.
(** [await p] for a promise that settles as [s]. *)
Definition await {A : Type} (s : Completion A) : M A := fun c => (s, c).

Declare Scope client_scope.
Delimit Scope client_scope with client.
Notation "x <- m ;; k" := (bind m (fun x => k))
  (at level 100, m at next level, right associativity) : client_scope.
Notation "m ;;; k" := (bind m (fun _ => k))
  (at level 100, right associativity) : client_scope.
Local Open Scope client_scope.

(** [this.circuitBreaker.isOpen()] *)
Definition isOpen (now : Z) : M bool :=
  fun c =>
    let '(o, b) := CircuitBreaker.isOpen breakerConfig now (circuitBreaker c) in
    (Returns o, set_circuitBreaker b c).
(** [this.circuitBreaker.recordSuccess()] *)
Definition recordSuccess : M unit :=
  fun c =>
    (Returns tt,
     set_circuitBreaker
       (CircuitBreaker.recordSuccess breakerConfig (circuitBreaker c)) c).
(** [this.circuitBreaker.recordFailure()] *)
Definition recordFailure (now : Z) : M unit :=
  fun c =>
    (Returns tt,
     set_circuitBreaker
       (CircuitBreaker.recordFailure breakerConfig now (circuitBreaker c)) c).
(** [this.batcher.query(url)] *)
Definition batcher_query (u : string) : M nat :=
  fun c =>
    let '(p, b) := RequestBatcher.query batchConfig u (batcher c) in
    (Returns p, set_batcher b c).
(** The synchronous part of [this.makeRequest('/v1/learn', ...)]. *)
Definition makeRequest_learn (u : string) (d : Json) (text : string)
  : M unit :=
  fun c =>
    (Returns tt,
     set_requests
       (requests c ++
        [{| path := "/v1/learn"; entry_url := u; entry_data := d;
            body := text |}]) c).
Definition get_config : M Config := fun c => (Returns (config c), c).

(** An [async] method either has returned or is suspended at its [await]. *)
Inductive Step (A W : Type) : Type :=
| Done (a : A)
| Awaits (w : W).
Arguments Done {A W} a.
Arguments Awaits {A W} w.

(** [query(url)] up to [await this.batcher.query(url)]. *)
Definition query (now : Z) (u : string) : M (Step AIResult nat) :=
  o <- isOpen now ;;
  if (o : bool) then ret (Done fallback_result)
  else p <- batcher_query u ;; ret (Awaits p).

(** [query(url)] from the [await] on, inside its [try]: the batcher's
    promise has settled as [s]. *)
Definition query_resume (s : Completion AIResult) : M AIResult :=
  try_ (await s) (fun _ => ret fallback_result).

(** The [catch] block of [learn]. *)
Definition learn_catch (now : Z) (_ : Error) : M LearnResponse :=
  recordFailure now ;;; ret rejected_response.

Section Learn.
(** [JSON.stringify({ entries: [{ url, data }] })], the argument that
    [learn] evaluates before it calls [makeRequest]: the text of the body,
    or the TypeError thrown for data that holds a cycle or a BigInt. It is
    the runtime's function and is taken as given. *)
Variable JSON_stringify : string -> Json -> Completion string.

(** [learn(url, data)] up to [await this.makeRequest(...)]. The extractor
    and the serialiser run inside the [try]. *)
Definition learn (now : Z) (u : string) (d : Json)
  : M (Step LearnResponse unit) :=
  cfg <- get_config ;;
  if negb (learning cfg) then ret (Done rejected_response)
  else
    o <- isOpen now ;;
    if (o : bool) then ret (Done rejected_response)
    else
      try_
        (extractedData <-
           match extractForLearning cfg with
           | Some f => await (f d)
           | None => ret d
           end ;;
         text <- await (JSON_stringify u extractedData) ;;
         makeRequest_learn u extractedData text ;;;
         ret (Awaits tt))
        (fun error => r <- learn_catch now error ;; ret (Done r)).

End Learn.

(** [learn(url, data)] from the [await] on, inside its [try]: the request
    has settled as [s] at time [now]. *)
Definition learn_resume (now : Z) (s : Completion LearnResponse)
  : M LearnResponse :=
  try_
    (response <- await s ;;
     recordSuccess ;;;
     ret response)
    (learn_catch now).

(** *** Bulk queries, statistics and telemetry *)

(** The other configuration fields these methods read, as the constructor
    has defaulted them, and [process.env.APIFY_ACTOR_BUILD_ID]. *)
Record Settings : Type := {
  intelligence : string;
  strictBuildMatch : bool;
  telemetry_enabled : bool;
  APIFY_ACTOR_BUILD_ID : option string
}.

(** [interface QueryRequest], as [executeBatchQuery] fills it. *)
Record QueryRequest : Type := {
  request_urls : list string;
  request_intelligence : string;
  request_build : option string
}.

(** [interface QueryResultItem], the fields the client reads. *)
Record QueryResultItem : Type := {
  item_url : string;
  item_data : option Json;
  item_confidence : option Json
}.

(** [interface QueryResponse] *)
Record QueryResponse : Type := {
  response_known : list QueryResultItem;
  response_unknown : list string
}.

(** [interface StatsResponse] is handed through as it comes. *)
Definition StatsResponse : Type := Json.

Section Bulk.
Variable settings : Settings.

(** The request object of [executeBatchQuery]: the build is included when
    [strictBuildMatch] is set and the environment variable is a non-empty
    string. *)
Definition build_request (urls : list string) : QueryRequest :=
  {| request_urls := urls;
     request_intelligence := intelligence settings;
     request_build :=
       match APIFY_ACTOR_BUILD_ID settings with
       | Some b =>
           if strictBuildMatch settings && negb (String.eqb b EmptyString)
           then Some b else None
       | None => None
       end |}.

(** [{ known: true, data: item.data, confidence: item.confidence }] *)
Definition known_result (item : QueryResultItem) : AIResult :=
  {| known := true; data := item_data item;
     confidence := item_confidence item; fallback := None |}.

(** The two loops of [executeBatchQuery] on a new [Map]: the known items
    are set first, then the unknown URLs. *)
Definition collect_results (response : QueryResponse)
  : gmap string AIResult :=
  fold_left (fun (m : gmap string AIResult) u => <[u := unknown_result]> m)
    (response_unknown response)
    (fold_left
       (fun (m : gmap string AIResult) item =>
          <[item_url item := known_result item]> m)
       (response_known response) ∅).

(** [executeBatchQuery(urls)] from [await this.makeRequest(...)] on: the
    request built by [build_request] has settled as [s] at time [now]. *)
Definition executeBatchQuery_resume (now : Z) (s : Completion QueryResponse)
  : M (gmap string AIResult) :=
  try_
    (response <- await s ;;
     recordSuccess ;;;
     ret (collect_results response))
    (fun error => recordFailure now ;;; throw error).

(** [new Map(urls.map(url => [url, { known: false, fallback: true }]))] *)
Definition fallback_map (urls : list string) : gmap string AIResult :=
  fold_left (fun (m : gmap string AIResult) u => <[u := fallback_result]> m)
    urls ∅.

(** [queryBulk(urls)] up to the [await] inside [executeBatchQuery]. *)
Definition queryBulk (now : Z) (urls : list string)
  : M (Step (gmap string AIResult) QueryRequest) :=
  o <- isOpen now ;;
  if (o : bool) then ret (Done (fallback_map urls))
  else ret (Awaits (build_request urls)).

(** [queryBulk(urls)] from that [await] on. *)
Definition queryBulk_resume (now : Z) (urls : list string)
    (s : Completion QueryResponse) : M (gmap string AIResult) :=
  try_ (executeBatchQuery_resume now s) (fun _ => ret (fallback_map urls)).

(** [stats()] up to [await this.makeRequest('/v1/stats', ...)]. *)
Definition stats (now : Z) : M (Step (option StatsResponse) unit) :=
  o <- isOpen now ;;
  if (o : bool) then ret (Done None) else ret (Awaits tt).

(** [stats()] from the [await] on. *)
Definition stats_resume (now : Z) (s : Completion StatsResponse)
  : M (option StatsResponse) :=
  try_
    (response <- await s ;;
     recordSuccess ;;;
     ret (Some response))
    (fun _ => recordFailure now ;;; ret None).

(** [sendTelemetry(entries)] up to its [await]; when it goes on, the
    entries are what it posts. *)
Definition sendTelemetry (entries : list Json) : M (Step unit (list Json)) :=
  if negb (telemetry_enabled settings) || (length entries =? 0)%nat
  then ret (Done tt)
  else ret (Awaits entries).

(** [sendTelemetry(entries)] from the [await] on. *)
Definition sendTelemetry_resume (s : Completion Json) : M unit :=
  try_ (_ <- await s ;; ret tt) (fun _ => ret tt).

(** [getCircuitState()] *)
Definition getCircuitState (c : t) : CircuitBreaker.Stats :=
  CircuitBreaker.getStats (circuitBreaker c).

(** [resetCircuit()] *)
Definition resetCircuit (c : t) : t :=
  set_circuitBreaker (CircuitBreaker.reset (circuitBreaker c)) c.

(** [clearBatch()] *)
Definition clearBatch (c : t) : t :=
  set_batcher (RequestBatcher.clear (batcher c)) c.

(** The executor the constructor gives the batcher is
    [(urls) => this.executeBatchQuery(urls)]: when the request for the
    batch of executor call [k] settles as [s], [executeBatchQuery] goes on
    and then the flush that waits for it. *)
Definition batch_settles (now : Z) (k : nat) (s : Completion QueryResponse)
    (c : t) : t :=
  let '(outcome, c1) := executeBatchQuery_resume now s c in
  set_batcher (RequestBatcher.flush_resume batchConfig k outcome (batcher c1))
    c1.

(** A request to the backend that one of the methods awaits. *)
Inductive BackendCall : Type :=
| LearnCall
| StatsCall
| BulkCall (urls : list string)
| BatchCall (k : nat).

(** The client after that request has failed with [error] at [now]. *)
Definition failed (now : Z) (call : BackendCall) (error : Error) (c : t) : t :=
  match call with
  | LearnCall => snd (learn_resume now (Throws error) c)
  | StatsCall => snd (stats_resume now (Throws error) c)
  | BulkCall urls => snd (queryBulk_resume now urls (Throws error) c)
  | BatchCall k => batch_settles now k (Throws error) c
  end.

End Bulk.

(** *** Sample client *)

(** A serialiser that refuses the payload written ["<cycle>"], as
    [JSON.stringify] refuses an object that refers to itself. *)
Definition refuses_cycle (u : string) (d : Json) : Completion string :=
  if String.eqb d "<cycle>"
  then Throws "TypeError: Converting circular structure to JSON"
  else Returns d.

(** A client whose breaker has been opened by three failures at time 0. *)
Definition tripped : t :=
  set_circuitBreaker
    (CircuitBreaker.run breakerConfig
       (map CircuitBreaker.RecordFailure [0; 0; 0]) CircuitBreaker.init)
    (init {| learning := true; extractForLearning := None |}).

(** The settings the constructor gives when none is configured, outside
    Apify. *)
Definition defaults : Settings :=
  {| intelligence := "high"; strictBuildMatch := false;
     telemetry_enabled := true; APIFY_ACTOR_BUILD_ID := None |}.

(** A client that has been asked about "a" and whose batch timer has
    fired: the request for ["a"] is with the backend. *)
Definition asked_a : t :=
  set_batcher
    (RequestBatcher.run batchConfig
       [RequestBatcher.Query "a"; RequestBatcher.TimerFires 0]
       RequestBatcher.init)
    (init {| learning := true; extractForLearning := None |}).

(** An answer of the backend that knows "a". *)
Definition a_is_known : QueryResponse :=
  {| response_known :=
       [{| item_url := "a"; item_data := Some "{}"; item_confidence := None |}];
     response_unknown := ["b"] |}.

End FetchBrainClient.

(* ===================================================================== *)
(** ** Handler wrapper and data-sink interception (enhance.ts) *)
(* ===================================================================== *)

Module Enhance.
Import Types.

(** [alwaysRun?: boolean | string | string[]] *)
Inductive AlwaysRun : Type :=
| ar_undefined
| ar_boolean (b : bool)
| ar_string (s : string)
| ar_array (l : list string).

(** [label || "default"]: an absent or empty label is falsy. *)
Definition label_or_default (label : option string) : string :=
  match label with
  | Some s => if String.eqb s EmptyString then "default" else s
  | None => "default"
  end.

(** [labels.includes(requestLabel)] *)
Definition includes (labels : list string) (s : string) : bool :=
  existsb (String.eqb s) labels.

(** [shouldRunHandler(alwaysRun, label)] *)
Definition shouldRunHandler (alwaysRun : AlwaysRun) (label : option string)
  : bool :=
  match alwaysRun with
  | ar_undefined => false
  | ar_boolean false => false
  | ar_boolean true => true
  | ar_string s => includes [s] (label_or_default label)
  | ar_array l => includes l (label_or_default label)
  end.

(** The options of [FetchBrainConfig] that the wrapper branches on. *)
Record FetchBrainConfig : Type := {
  alwaysRun : AlwaysRun;
  learning : option bool
}.

(** [config.learning !== false] *)
Definition learning_not_false (cfg : FetchBrainConfig) : bool :=
  match learning cfg with
  | Some false => false
  | _ => true
  end.

(** What the property [context.pushData] can hold: the function the host
    supplied, or the function that a run of the wrapper has assigned to it.
    That function closes over its run's [url], [aiResult.known] and
    [usedAIData], and over [originalPushData], what the property held when
    its run read it. The wrapper never puts the earlier function back, so
    on a context object that is handed in again these functions nest. *)
Inductive PushDataFn : Type :=
| host_pushData
| intercepting (url : string) (aiKnown : bool) (usedAIData : bool)
    (originalPushData : PushDataFn).

(** [interface RequestHandlerContext], a mutable object: the request, the
    property [pushData], and what the module's [requestContextMap] holds
    for the object. *)
Record RequestHandlerContext : Type := {
  request_url : string;
  request_label : option string;
  context_pushData : option PushDataFn;
  tracked_url : option string
}.

(** The context has a [pushData]. *)
Definition has_pushData (context : RequestHandlerContext) : bool :=
  match context_pushData context with Some _ => true | None => false end.

(** [interface RequestContext], the store of [asyncContext]; the client is
    the one client of the enhanced crawler. *)
Record RequestContext : Type := {
  url : string;
  learning_on : bool;
  aiKnown : bool
}.

(** [Record<string, unknown> | Record<string, unknown>[]] *)
Inductive PushArg : Type :=
| single (d : Json)
| array (ds : list Json).

(** [Array.isArray(data) ? data : [data]] *)
Definition items (data : PushArg) : list Json :=
  match data with
  | single d => [d]
  | array ds => ds
  end.

(** What a run of the wrapper does to the outside, in order. *)
Inductive Effect : Type :=
| OriginalHandler                         (* originalHandler.call(crawler, context) *)
| OriginalPushData (d : Json)             (* the host's own pushData is called with d *)
| DatasetOpen (name : string)             (* dataset.open(name) *)
| DatasetPushData (name : option string) (data : PushArg)
                                          (* [named]dataset.pushData(data) *)
| ClientLearn (u : string) (d : Json).    (* client.learn(u, d) *)

Definition is_learn (e : Effect) : bool :=
  match e with ClientLearn _ _ => true | _ => false end.
Definition is_sink (e : Effect) : bool :=
  match e with OriginalPushData _ => true | _ => false end.
Definition is_handler (e : Effect) : bool :=
  match e with OriginalHandler => true | _ => false end.

(** No effect of the list is a [client.learn] call. *)
Definition no_learn (es : list Effect) : Prop :=
  Forall (fun e => is_learn e = false) es.

(** The [client.learn] calls of a list of effects, and the other effects. *)
Abbreviation learns_of es := (filter (fun e => is_learn e = true) es).
Abbreviation rest_of es := (filter (fun e => is_learn e = false) es).

(** How the host's functions settle: the host's [pushData],
    [dataset.open] and [dataset.pushData]. Each is asked with what the
    host has had of this run before the call (the handler's invocation and
    the calls of these functions) and with the call's arguments; [None] is
    a call that resolves, [Some e] one that rejects with [e].
    [client.learn] is not among them: it never rejects. *)
Record Host : Type := {
  pushData_rejects : list Effect -> Json -> option Error;
  open_rejects : list Effect -> string -> option Error;
  dataset_rejects : list Effect -> option string -> PushArg -> option Error
}.

(** [requestContextMap.get(context) || url] *)
Definition currentUrl (tracked : option string) (url : string) : string :=
  match tracked with
  | Some u => if String.eqb u EmptyString then url else u
  | None => url
  end.

Section Calls.
Variable host : Host.

(** [f.call(context, d)] for a function [f] that [context.pushData] held,
    with [tracked] what [requestContextMap] has for the context at the time
    and [done] what the run has done so far: the effects and how the call
    settles. An intercepting function teaches unless its run's flag or its
    run's [aiResult.known] says not to, then calls the function it
    replaced. *)
Fixpoint call (tracked : option string) (f : PushDataFn) (done : list Effect)
    (d : Json) : list Effect * option Error :=
  match f with
  | host_pushData =>
      ([OriginalPushData d], pushData_rejects host (rest_of done) d)
  | intercepting url aiKnown usedAIData originalPushData =>
      let shouldLearn := negb usedAIData && negb aiKnown in
      let learnt :=
        if shouldLearn then [ClientLearn (currentUrl tracked url) d] else [] in
      let '(es, err) := call tracked originalPushData (done ++ learnt) d in
      (learnt ++ es, err)
  end.

(** The exported [pushData(data, dataset, datasetName)], with [ctx] the
    result of [getCurrentContext()] and [dataset_has_open] telling whether
    the dataset has an [open] method: the learn calls come first, then the
    dataset is opened by name if it can be, then the data is pushed. *)
Definition pushData (ctx : option RequestContext) (data : PushArg)
    (dataset_has_open : bool) (datasetName : option string)
    (done : list Effect) : list Effect * option Error :=
  let learnt :=
    match ctx with
    | Some c =>
        if learning_on c && negb (aiKnown c)
        then map (ClientLearn (url c)) (items data)
        else []
    | None => []
    end in
  let named :=
    match datasetName with
    | Some name =>
        if negb (String.eqb name EmptyString) && dataset_has_open
        then Some name else None
    | None => None
    end in
  match named with
  | Some name =>
      match open_rejects host (rest_of done) name with
      | Some e => (learnt ++ [DatasetOpen name], Some e)
      | None =>
          (learnt ++ [DatasetOpen name; DatasetPushData (Some name) data],
           dataset_rejects host (rest_of done ++ [DatasetOpen name])
             (Some name) data)
      end
  | None =>
      (learnt ++ [DatasetPushData None data],
       dataset_rejects host (rest_of done) None data)
  end.

End Calls.

(** A call that the original handler awaits. *)
Inductive Action : Type :=
| ContextPushData (d : Json)              (* await context.pushData(d) *)
| PushData (data : PushArg) (dataset_has_open : bool)
    (datasetName : option string)         (* await pushData(data, dataset, name) *)
| UseAIData.                              (* await context.ai.useAIData() *)

(** What the original handler does that the wrapper can see: it returns,
    it throws, or it awaits a call and goes on according to how the call
    has settled ([None] resolved, [Some e] rejected with [e]): it may catch
    the error and go on, or let it out. *)
Inductive Script : Type :=
| Return
| Raise (e : Error)
| Await (a : Action) (next : option Error -> Script).

(** The original handler: it reads [context.ai] and acts. *)
Definition Handler : Type := AIResult -> Script.

(** The handler that awaits the calls [acts] one after the other without a
    [try] of its own, so that the error of a rejected call gets out, and
    then goes on as [rest]. *)
Fixpoint straight (acts : list Action) (rest : Script) : Script :=
  match acts with
  | [] => rest
  | a :: acts' =>
      Await a (fun settled =>
                 match settled with
                 | None => straight acts' rest
                 | Some e => Raise e
                 end)
  end.

(** How the handler's run went: the effects, the error it threw if any,
    the value of [usedAIData] at the end, and the calls it made, each with
    how it settled. *)
Record Outcome : Type := {
  effects : list Effect;
  error : option Error;
  usedAIData_after : bool;
  made : list (Action * option Error)
}.

Section Wrapped.
Variable config : FetchBrainConfig.
Variable host : Host.
Variable originalHandler : Handler.
Variable context : RequestHandlerContext.
(** The value of [await client.query(url)]. *)
Variable aiResult : AIResult.

(** [aiResult.data] is an object or absent; an object is truthy. *)
Definition data_truthy : bool :=
  match data aiResult with Some _ => true | None => false end.

(** [const originalPushData = context.pushData] *)
Definition originalPushData : option PushDataFn := context_pushData context.

(** What [requestContextMap] has for the context while the handler runs:
    [requestContextMap.set(context, url)]. *)
Definition during : option string := Some (request_url context).

(** The function the wrapper assigns to [context.pushData], with the value
    that its [usedAIData] has. *)
Definition interceptor (usedAIData : bool) (f : PushDataFn) : PushDataFn :=
  intercepting (request_url context) (known aiResult) usedAIData f.

(** What [context.pushData] holds while the handler runs and after: the
    intercepting function when there was a function and learning is not
    switched off, what it held before otherwise. *)
Definition installed (usedAIData : bool) : option PushDataFn :=
  match originalPushData with
  | Some f =>
      if learning_not_false config then Some (interceptor usedAIData f)
      else Some f
  | None => None
  end.

(** [context.ai.useAIData()], from the value of [usedAIData]: the new
    value, the effects and how the call settles. The flag is set before the
    push is awaited. *)
Definition useAIData (usedAIData : bool) (done : list Effect)
  : bool * (list Effect * option Error) :=
  match data aiResult, originalPushData with
  | Some d, Some f =>
      if known aiResult then (true, call host during f done d)
      else (usedAIData, ([], None))
  | _, _ => (usedAIData, ([], None))
  end.

(** [context.pushData(d)] as the handler finds it; calling an absent one
    throws. *)
Definition call_context_pushData (usedAIData : bool) (done : list Effect)
    (d : Json) : list Effect * option Error :=
  match installed usedAIData with
  | Some f => call host during f done d
  | None => ([], Some "TypeError: context.pushData is not a function")
  end.

(** The store passed to [asyncContext.run]. *)
Definition requestContext : RequestContext :=
  {| url := request_url context;
     learning_on := learning_not_false config;
     aiKnown := known aiResult |}.

(** One call of the handler. *)
Definition perform (a : Action) (usedAIData : bool) (done : list Effect)
  : bool * (list Effect * option Error) :=
  match a with
  | ContextPushData d => (usedAIData, call_context_pushData usedAIData done d)
  | PushData data dataset_has_open name =>
      (usedAIData,
       pushData host (Some requestContext) data dataset_has_open name done)
  | UseAIData => useAIData usedAIData done
  end.

(** The handler's run under the wrapper, from the given value of
    [usedAIData] and after the effects [done]. *)
Fixpoint exec (s : Script) (usedAIData : bool) (done : list Effect)
  : Outcome :=
  match s with
  | Return =>
      {| effects := []; error := None; usedAIData_after := usedAIData;
         made := [] |}
  | Raise e =>
      {| effects := []; error := Some e; usedAIData_after := usedAIData;
         made := [] |}
  | Await a next =>
      let '(used, (es, settled)) := perform a usedAIData done in
      let o := exec (next settled) used (done ++ es) in
      {| effects := es ++ effects o; error := error o;
         usedAIData_after := usedAIData_after o;
         made := (a, settled) :: made o |}
  end.

(** The run of the original handler inside [wrappedHandler]. *)
Definition handler_run : Outcome :=
  exec (originalHandler aiResult) false [OriginalHandler].

(** [wrappedHandler(context)] after [client.query] has answered: the
    effects, and the error rethrown to the host, if any. On the path that
    answers from the AI data the push is awaited inside the [try], whose
    [catch] throws the error again; [requestContextMap] has not been set on
    that path. *)
Definition wrappedHandler : list Effect * option Error :=
  let runHandler :=
    shouldRunHandler (alwaysRun config) (request_label context) in
  if known aiResult && data_truthy && negb runHandler then
    match data aiResult, originalPushData with
    | Some d, Some f => call host (tracked_url context) f [] d
    | _, _ => ([], None)
    end
  else
    (OriginalHandler :: effects handler_run, error handler_run).

(** The context object after [wrappedHandler(context)]: on the path that
    runs the handler the intercepting function stays on [pushData], and the
    entry of [requestContextMap] is deleted only when the handler has not
    thrown. *)
Definition context_after : RequestHandlerContext :=
  let runHandler :=
    shouldRunHandler (alwaysRun config) (request_label context) in
  if known aiResult && data_truthy && negb runHandler then context
  else
    {| request_url := request_url context;
       request_label := request_label context;
       context_pushData := installed (usedAIData_after handler_run);
       tracked_url :=
         match error handler_run with
         | None => None
         | Some _ => during
         end |}.

End Wrapped.

(** The wrapper's test for answering from the AI data without the handler:
    [aiResult.known && aiResult.data && !runHandler]. *)
Definition skips (cfg : FetchBrainConfig) (context : RequestHandlerContext)
    (aiResult : AIResult) : bool :=
  known aiResult && data_truthy aiResult &&
  negb (shouldRunHandler (alwaysRun cfg) (request_label context)).

(** Some function in the nest still calls [client.learn]: its run's
    [usedAIData] and [aiResult.known] are both false. *)
Fixpoint teaches (f : PushDataFn) : bool :=
  match f with
  | host_pushData => false
  | intercepting _ aiKnown usedAIData originalPushData =>
      (negb usedAIData && negb aiKnown) || teaches originalPushData
  end.

(** The context carries a function of an earlier run that still teaches. A
    context as the host makes it, with its own [pushData] or none, does
    not. *)
Definition stale_teaches (context : RequestHandlerContext) : bool :=
  match context_pushData context with
  | Some f => teaches f
  | None => false
  end.



(** The handler's code can throw [e]: on some path it reaches
    [throw e]. *)
Fixpoint throws (s : Script) (e : Error) : Prop :=
  match s with
  | Return => False
  | Raise e' => e' = e
  | Await _ next => exists settled, throws (next settled) e
  end.

(** A host function rejects with [e] on some call. *)
Definition host_rejects (host : Host) (e : Error) : Prop :=
  (exists seen d, pushData_rejects host seen d = Some e) \/
  (exists seen name, open_rejects host seen name = Some e) \/
  (exists seen name data, dataset_rejects host seen name data = Some e).


(** *** Sample requests *)

Definition skipping : FetchBrainConfig :=
  {| alwaysRun := ar_boolean false; learning := None |}.
Definition running : FetchBrainConfig :=
  {| alwaysRun := ar_boolean true; learning := None |}.


(** A host whose functions always resolve, and one whose [pushData]
    always rejects. *)
Definition quiet : Host :=
  {| pushData_rejects := fun _ _ => None;
     open_rejects := fun _ _ => None;
     dataset_rejects := fun _ _ _ => None |}.
Definition sink_down : Host :=
  {| pushData_rejects := fun _ _ => Some "sink down";
     open_rejects := fun _ _ => None;
     dataset_rejects := fun _ _ _ => None |}.

(** A context as the host makes it for a request. *)
Definition product_page : RequestHandlerContext :=
  {| request_url := "https://example.com/known"; request_label := None;
     context_pushData := Some host_pushData; tracked_url := None |}.

Definition known_product : AIResult :=
  {| known := true; data := Some "{title: Known Product}";
     confidence := Some "0.95"; fallback := None |}.

(** Known, but the answer carries no data. *)
Definition known_no_data : AIResult :=
  {| known := true; data := None; confidence := Some "0.95";
     fallback := None |}.

(** A handler that uses the AI data, then pushes twice, once through the
    context and once through the exported wrapper. *)
Definition busy_handler : Handler :=
  fun _ =>
    straight
      [UseAIData; ContextPushData "{title: Updated}";
       PushData (array ["{}"; "{}"]) true (Some "products")]
      Return.

Definition idle_handler : Handler := fun _ => Return.

(** A handler that pushes one item through the context. *)
Definition pushing_handler : Handler :=
  fun _ => straight [ContextPushData "{title: Updated}"] Return.

(** A handler that pushes one item and then throws. *)
Definition failing_handler : Handler :=
  fun _ =>
    straight [ContextPushData "{n: 1}"]
      (Raise "boom").

(** The context object of [product_page] after the wrapper has handled it
    once while the URL was not known (the query fell back): the function of
    that run is on [pushData]. *)
Definition handled_once : RequestHandlerContext :=
  context_after running quiet idle_handler product_page fallback_result.

End Enhance.

(* ===================================================================== *)
(** ** Logger (logger.ts) *)
(* ===================================================================== *)

Module Logger.
Import Types.

(** [type LogLevel = 'debug' | 'info' | 'warn' | 'error'] *)
Inductive LogLevel : Type := debug | info | warn | error.

Definition LOG_PREFIX : string := "[FetchBrain]".

Definition LOG_LEVELS (level : LogLevel) : Z :=
  match level with
  | debug => 0
  | info => 1
  | warn => 2
  | error => 3
  end.

(** One call of [console.debug], [.info], [.warn] or [.error]: the method,
    the text and the further arguments. *)
Record ConsoleCall : Type := {
  console_method : LogLevel;
  console_text : string;
  console_args : list Json
}.

(** [interface Logger]: each method, as the console calls it makes. *)
Record Logger : Type := {
  logger_debug : string -> list Json -> list ConsoleCall;
  logger_info : string -> list Json -> list ConsoleCall;
  logger_warn : string -> list Json -> list ConsoleCall;
  logger_error : string -> list Json -> list ConsoleCall
}.

(** The closure [shouldLog] of [createLogger]. *)
Definition shouldLog (minLevel : LogLevel) (enabled : bool)
    (level : LogLevel) : bool :=
  if negb enabled then false
  else LOG_LEVELS minLevel <=? LOG_LEVELS level.

(** The body shared by the four methods, for the method of [level]. *)
Definition emit (minLevel : LogLevel) (enabled : bool) (level : LogLevel)
    (message : string) (args : list Json) : list ConsoleCall :=
  if shouldLog minLevel enabled level
  then [{| console_method := level;
           console_text := LOG_PREFIX ++ " " ++ message;
           console_args := args |}]
  else [].

(** [createLogger(minLevel = 'info', enabled = true)]; an argument left out
    is [None]. *)
Definition createLogger (minLevel : option LogLevel) (enabled : option bool)
  : Logger :=
  let minLevel := default info minLevel in
  let enabled := default true enabled in
  {| logger_debug := emit minLevel enabled debug;
     logger_info := emit minLevel enabled info;
     logger_warn := emit minLevel enabled warn;
     logger_error := emit minLevel enabled error |}.

(** The method of a logger for a level. *)
Definition method (l : Logger) (level : LogLevel)
  : string -> list Json -> list ConsoleCall :=
  match level with
  | debug => logger_debug l
  | info => logger_info l
  | warn => logger_warn l
  | error => logger_error l
  end.

End Logger.

(* ===================================================================== *)
(** ** Telemetry buffer (telemetry.ts, [TelemetryBuffer]) *)
(* ===================================================================== *)

Module TelemetryBuffer.
Import Types.

(** [TelemetryData] entries are only stored and handed on. *)
Definition TelemetryData : Type := Json.

(** The constructor's [options]; [onFlush] tells whether a callback was
    given. *)
Record Options : Type := {
  options_maxSize : option Z;
  options_flushInterval : option Z;
  onFlush : bool
}.

(** The buffer object, whether its interval timer is armed, and the calls
    of the flush callback made so far, each with the entries it got. *)
Record t : Type := {
  buffer : list TelemetryData;
  maxSize : Z;
  flushInterval : Z;
  flushCallback : bool;
  ticking : bool;
  delivered : list (list TelemetryData)
}.

Definition set_buffer (b : list TelemetryData) (w : t) : t :=
  {| buffer := b; maxSize := maxSize w; flushInterval := flushInterval w;
     flushCallback := flushCallback w; ticking := ticking w;
     delivered := delivered w |}.
Definition set_ticking (x : bool) (w : t) : t :=
  {| buffer := buffer w; maxSize := maxSize w;
     flushInterval := flushInterval w; flushCallback := flushCallback w;
     ticking := x; delivered := delivered w |}.
Definition set_delivered (d : list (list TelemetryData)) (w : t) : t :=
  {| buffer := buffer w; maxSize := maxSize w;
     flushInterval := flushInterval w; flushCallback := flushCallback w;
     ticking := ticking w; delivered := d |}.

(** [new TelemetryBuffer(options)]: defaults of 50 entries and 30 seconds,
    and the interval timer started. *)
Definition new (options : Options) : t :=
  {| buffer := [];
     maxSize := default 50 (options_maxSize options);
     flushInterval := default 30000 (options_flushInterval options);
     flushCallback := onFlush options;
     ticking := true;
     delivered := [] |}.

(** [flush()] up to [await this.flushCallback(entries)]: the entries taken
    out, which are what it returns in the end, and the buffer after. *)
Definition flush (w : t) : list TelemetryData * t :=
  match buffer w with
  | [] => ([], w)
  | _ :: _ =>
      let entries := buffer w in
      let w1 := set_buffer [] w in
      if flushCallback w1
      then (entries, set_delivered (delivered w1 ++ [entries]) w1)
      else (entries, w1)
  end.

(** [flush()] from the [await] on: the callback has settled as [s]; a
    failure is caught and only logged. *)
Definition flush_resume (entries : list TelemetryData) (s : Completion unit)
  : Completion (list TelemetryData) :=
  match s with
  | Returns _ => Returns entries
  | Throws _ => Returns entries
  end.

(** [add(entry)]; [null] is [None]. *)
Definition add (entry : option TelemetryData) (w : t) : t :=
  match entry with
  | None => w
  | Some e =>
      let w1 := set_buffer (buffer w ++ [e]) w in
      if maxSize w1 <=? Z.of_nat (length (buffer w1))
      then snd (flush w1)
      else w1
  end.

(** [get size()] *)
Definition size (w : t) : Z := Z.of_nat (length (buffer w)).

(** The interval timer fires, if it is still armed. *)
Definition tick (w : t) : t := if ticking w then snd (flush w) else w.

(** [stop()]: the interval is cleared and what is left is flushed. *)
Definition stop (w : t) : t := snd (flush (set_ticking false w)).

Inductive Event : Type :=
| Add (entry : option TelemetryData)
| Flush
| Tick
| Stop.

Definition step (e : Event) (w : t) : t :=
  match e with
  | Add entry => add entry w
  | Flush => snd (flush w)
  | Tick => tick w
  | Stop => stop w
  end.

Fixpoint run (es : list Event) (w : t) : t :=
  match es with
  | [] => w
  | e :: es' => run es' (step e w)
  end.

(** The entries added by a sequence of events, in order. *)
Fixpoint added (es : list Event) : list TelemetryData :=
  match es with
  | [] => []
  | Add (Some e) :: es' => e :: added es'
  | _ :: es' => added es'
  end.

(** What has been delivered, followed by what is buffered. *)
Definition contents (w : t) : list TelemetryData :=
  concat (delivered w) ++ buffer w.

(** The buffer is below its size limit and every delivery had between one
    entry and the limit. *)
Definition within (w : t) : Prop :=
  Z.of_nat (length (buffer w)) < maxSize w /\
  Forall (fun b => 1 <= Z.of_nat (length b) <= maxSize w) (delivered w).

(** *** Sample buffer *)

Definition reporting : Options :=
  {| options_maxSize := Some 2; options_flushInterval := None;
     onFlush := true |}.

Definition some_events : list Event :=
  [Add (Some "a"); Add None; Tick; Add (Some "b"); Add (Some "c"); Stop;
   Add (Some "d")].

End TelemetryBuffer.

(* ===================================================================== *)
(** ** Mock API server (mock/server.ts) *)
(* ===================================================================== *)

Module MockServer.
Import Types.

(** A value of the [knowledge] map. *)
Record Knowledge : Type := {
  knowledge_data : Json;
  learnedAt : string
}.

(** The [stats] object. *)
Record Stats : Type := {
  queries : Z;
  recognized : Z;
  learned : Z
}.

(** The module's state: the knowledge base and the counters. *)
Record t : Type := {
  knowledge : gmap string Knowledge;
  stats : Stats
}.

Definition init : t :=
  {| knowledge := ∅;
     stats := {| queries := 0; recognized := 0; learned := 0 |} |}.

(** A number of a response: an integer, or the quotient [a / b] of two
    integers, kept as the division whose rounding the code returns. *)
Inductive Number : Type :=
| integer (z : Z)
| quotient (a b : Z).

(** An element of [known] in the answer to a query; [item_confidence] is
    the value of [0.95 + Math.random() * 0.04] drawn for it. *)
Record KnownItem : Type := {
  item_url : string;
  item_data : Json;
  item_confidence : Json;
  item_learnedAt : string
}.

(** An element of [entries] in a learn request; an absent field is
    [None]. *)
Record Entry : Type := {
  entry_url : option string;
  entry_data : option Json
}.

(** What [res.json] is given. *)
Inductive Body : Type :=
| ErrorBody (error : string)
| QueryBody (known : list KnownItem) (unknown : list string)
| LearnBody (learned : Z)
| StatsBody (queries recognized : Z) (recognitionRate : Number) (learned : Z)
    (period : string)
| HealthBody (knowledgeSize : Z) (stats : Stats)
| ResetBody.

Record Response : Type := {
  status : Z;
  body : Body
}.

Definition json (b : Body) : Response := {| status := 200; body := b |}.
Definition fail (code : Z) (error : string) : Response :=
  {| status := code; body := ErrorBody error |}.

(** [s.startsWith(p)] and [s.slice(n)] *)
Definition startsWith (p s : string) : bool := String.prefix p s.
Definition slice (n : nat) (s : string) : string :=
  String.substring n (String.length s - n) s.

(** The authentication middleware on the [authorization] header: the
    response it sends, or [None] when it calls [next()]. *)
Definition authenticate (authHeader : option string) : option Response :=
  match authHeader with
  | Some h =>
      if negb (startsWith "Bearer " h)
      then Some (fail 401 "Missing or invalid API key")
      else
        let apiKey := slice 7 h in
        if negb (startsWith "test_" apiKey) && negb (startsWith "fb_" apiKey)
        then Some (fail 401 "Invalid API key format")
        else None
  | None => Some (fail 401 "Missing or invalid API key")
  end.

(** One turn of the loop of [POST /v1/query], on the pair of [stats] and
    the two arrays; [confidence i] is the confidence drawn for the [i]-th
    recognized URL of the request. *)
Definition query_step (k : gmap string Knowledge) (confidence : nat -> Json)
    (acc : Stats * list KnownItem * list string) (url : string)
  : Stats * list KnownItem * list string :=
  let '(st, known, unknown) := acc in
  match k !! url with
  | Some aiKnowledge =>
      ({| queries := queries st; recognized := recognized st + 1;
          learned := learned st |},
       known ++ [{| item_url := url;
                    item_data := knowledge_data aiKnowledge;
                    item_confidence := confidence (length known);
                    item_learnedAt := learnedAt aiKnowledge |}],
       unknown)
  | None => (st, known, unknown ++ [url])
  end.

(** [POST /v1/query]; a body without a [urls] array is [None]. *)
Definition query (urls : option (list string)) (confidence : nat -> Json)
    (w : t) : Response * t :=
  match urls with
  | None => (fail 400 "urls array is required", w)
  | Some urls =>
      let st := {| queries := queries (stats w) + Z.of_nat (length urls);
                   recognized := recognized (stats w);
                   learned := learned (stats w) |} in
      let '(st', known, unknown) :=
        fold_left (query_step (knowledge w) confidence) urls (st, [], []) in
      (json (QueryBody known unknown),
       {| knowledge := knowledge w; stats := st' |})
  end.

(** [entry.url && entry.data]: the URL and data of an entry that has a
    non-empty URL and data. *)
Definition truthy (entry : Entry) : option (string * Json) :=
  match entry_url entry, entry_data entry with
  | Some u, Some d => if String.eqb u EmptyString then None else Some (u, d)
  | _, _ => None
  end.

(** One turn of the loop of [POST /v1/learn], on the state and the local
    count [learned]; [date i] is the time read for the [i]-th entry that is
    stored. *)
Definition learn_step (date : nat -> string) (acc : t * nat) (entry : Entry)
  : t * nat :=
  let '(w, n) := acc in
  match truthy entry with
  | Some (u, d) =>
      ({| knowledge :=
            <[u := {| knowledge_data := d; learnedAt := date n |}]>
              (knowledge w);
          stats := {| queries := queries (stats w);
                      recognized := recognized (stats w);
                      learned := learned (stats w) + 1 |} |},
       S n)
  | None => (w, n)
  end.

(** [POST /v1/learn]; a body without an [entries] array is [None]. *)
Definition learn (entries : option (list Entry)) (date : nat -> string)
    (w : t) : Response * t :=
  match entries with
  | None => (fail 400 "entries array is required", w)
  | Some entries =>
      let '(w', n) := fold_left (learn_step date) entries (w, O) in
      (json (LearnBody (Z.of_nat n)), w')
  end.

(** [GET /v1/stats]; [period] is [new Date().toISOString().slice(0, 7)]. *)
Definition get_stats (period : string) (w : t) : Response * t :=
  (json (StatsBody (queries (stats w)) (recognized (stats w))
           (if 0 <? queries (stats w)
            then quotient (recognized (stats w)) (queries (stats w))
            else integer 0)
           (learned (stats w)) period),
   w).

(** [GET /health] *)
Definition health (w : t) : Response * t :=
  (json (HealthBody (Z.of_nat (size (knowledge w))) (stats w)), w).

(** [POST /reset] *)
Definition reset (w : t) : Response * t := (json ResetBody, init).

(** A request to one of the routes, with what its handler reads from the
    outside. *)
Inductive Request : Type :=
| PostQuery (urls : option (list string)) (confidence : nat -> Json)
| PostLearn (entries : option (list Entry)) (date : nat -> string)
| GetStats (period : string)
| GetHealth
| PostReset.

Definition route (r : Request) (w : t) : Response * t :=
  match r with
  | PostQuery urls confidence => query urls confidence w
  | PostLearn entries date => learn entries date w
  | GetStats period => get_stats period w
  | GetHealth => health w
  | PostReset => reset w
  end.

(** The application: the middleware, then the route. *)
Definition handle (authorization : option string) (r : Request) (w : t)
  : Response * t :=
  match authenticate authorization with
  | Some res => (res, w)
  | None => route r w
  end.

(** The state after a sequence of requests. *)
Fixpoint run (rs : list (option string * Request)) (w : t) : t :=
  match rs with
  | [] => w
  | (h, r) :: rs' => run rs' (snd (handle h r w))
  end.

(** The last entry of a learn request that is stored under [u]. *)
Definition last_for (u : string) (entries : list Entry) : option Json :=
  last (omap (fun e => match truthy e with
                       | Some (u', d) =>
                           if String.eqb u' u then Some d else None
                       | None => None
                       end) entries).

(** What the knowledge base holds for an item of an answer. *)
Definition stored (k : gmap string Knowledge) (i : KnownItem) : Prop :=
  k !! item_url i =
    Some {| knowledge_data := item_data i; learnedAt := item_learnedAt i |}.

(** The counters agree with each other and with the knowledge base. *)
Definition consistent (w : t) : Prop :=
  0 <= recognized (stats w) <= queries (stats w) /\
  Z.of_nat (size (knowledge w)) <= learned (stats w).

(** *** Sample requests *)

Definition key : option string := Some "Bearer test_key".

Definition lesson : list Entry :=
  [{| entry_url := Some "https://example.com/a"; entry_data := Some "{v: 1}" |};
   {| entry_url := Some EmptyString; entry_data := Some "{}" |};
   {| entry_url := Some "https://example.com/a"; entry_data := Some "{v: 2}" |};
   {| entry_url := Some "https://example.com/b"; entry_data := None |}].

Definition taught : t :=
  snd (handle key (PostLearn (Some lesson) (fun _ => "2025-01-01T00:00:00.000Z"))
         init).

End MockServer.

(* ===================================================================== *)
(** ** Mock client for tests (mock/index.ts, [MockFetchBrain]) *)
(* ===================================================================== *)

Module MockFetchBrain.
Import Types.

(** The answer of the mock's [query]: an [AIResult] with [learnedAt]. *)
Record AIResult : Type := {
  known : bool;
  data : option Json;
  confidence : option Json;
  learnedAt : option string
}.

(** A value of the [knowledge] map. *)
Record Knowledge : Type := {
  knowledge_data : Json;
  knowledge_learnedAt : string
}.

(** [interface MockFetchBrainOptions]; an absent option is [None]. The
    failure rate is a double, kept as the rational it is. *)
Record MockFetchBrainOptions : Type := {
  initialKnowledge : option (list (string * Json));
  simulateFailures : option bool;
  failureRate : option Q;
  latency : option Z
}.

Record Stats : Type := {
  queries : Z;
  recognized : Z;
  learned : Z
}.

(** The mock object; of [options] the two fields that decide failures, after
    the constructor's defaults. *)
Record t : Type := {
  knowledge : gmap string Knowledge;
  options_simulateFailures : bool;
  options_failureRate : Q;
  _stats : Stats
}.

Definition set_knowledge (k : gmap string Knowledge) (w : t) : t :=
  {| knowledge := k;
     options_simulateFailures := options_simulateFailures w;
     options_failureRate := options_failureRate w;
     _stats := _stats w |}.
Definition set_stats (st : Stats) (w : t) : t :=
  {| knowledge := knowledge w;
     options_simulateFailures := options_simulateFailures w;
     options_failureRate := options_failureRate w;
     _stats := st |}.

(** [knowledge.set(url, {data, learnedAt: new Date().toISOString()})] for
    each pair in turn; [date i] is the time read at the [i]-th. *)
Fixpoint set_all (entries : list (string * Json)) (date : nat -> string)
    (i : nat) (k : gmap string Knowledge) : gmap string Knowledge :=
  match entries with
  | [] => k
  | (url, d) :: rest =>
      set_all rest date (S i)
        (<[url := {| knowledge_data := d; knowledge_learnedAt := date i |}]> k)
  end.

(** [new MockFetchBrain(options)] *)
Definition new (options : MockFetchBrainOptions) (date : nat -> string) : t :=
  {| knowledge :=
       match initialKnowledge options with
       | Some entries => set_all entries date O ∅
       | None => ∅
       end;
     options_simulateFailures := default false (simulateFailures options);
     options_failureRate := default 0%Q (failureRate options);
     _stats := {| queries := 0; recognized := 0; learned := 0 |} |}.

(** The double [0.1]. *)
Definition tenth : Q := (3602879701896397 # 36028797018963968)%Q.

(** [a < b] on doubles. *)
Definition lt (a b : Q) : bool := negb (Qle_bool b a).

(** [shouldFail()], with [random] the value [Math.random()] gives if it is
    called. *)
Definition shouldFail (random : Q) (w : t) : bool :=
  if negb (options_simulateFailures w) then false
  else lt random (if Qeq_bool (options_failureRate w) 0
                  then tenth else options_failureRate w).

(** [query(url)], once the latency has passed. *)
Definition query (url : string) (random : Q) (w : t)
  : Completion AIResult * t :=
  if shouldFail random w then (Throws "Simulated API failure", w)
  else
    let st := {| queries := queries (_stats w) + 1;
                 recognized := recognized (_stats w);
                 learned := learned (_stats w) |} in
    match knowledge w !! url with
    | Some k =>
        (Returns {| known := true; data := Some (knowledge_data k);
                    confidence := Some "0.97";
                    learnedAt := Some (knowledge_learnedAt k) |},
         set_stats {| queries := queries st;
                      recognized := recognized st + 1;
                      learned := learned st |} w)
    | None =>
        (Returns {| known := false; data := None; confidence := None;
                    learnedAt := None |},
         set_stats st w)
    end.

(** The loop of [queryBulk(urls)], run without other calls in between;
    [random i] is the draw of the [i]-th query. *)
Fixpoint queryBulk_loop (urls : list string) (random : nat -> Q) (i : nat)
    (results : gmap string AIResult) (w : t)
  : Completion (gmap string AIResult) * t :=
  match urls with
  | [] => (Returns results, w)
  | url :: rest =>
      match query url (random i) w with
      | (Returns a, w') =>
          queryBulk_loop rest random (S i) (<[url := a]> results) w'
      | (Throws e, w') => (Throws e, w')
      end
  end.

Definition queryBulk (urls : list string) (random : nat -> Q) (w : t)
  : Completion (gmap string AIResult) * t :=
  queryBulk_loop urls random O ∅ w.

(** [learn(url, data)], once the latency has passed; the answer is the
    constant [{status: 'accepted', learned: 1, ...}]. *)
Definition learn (url : string) (d : Json) (random : Q) (date : string)
    (w : t) : Completion LearnResponse * t :=
  if shouldFail random w then (Throws "Simulated API failure", w)
  else
    (Returns {| Types.status := accepted; Types.learned := 1;
                Types.verification :=
                  Some "{schemaValid: true, valuesValid: true, duplicate: false, warnings: []}" |},
     set_stats {| queries := queries (_stats w);
                  recognized := recognized (_stats w);
                  learned := learned (_stats w) + 1 |}
       (set_knowledge
          (<[url := {| knowledge_data := d; knowledge_learnedAt := date |}]>
             (knowledge w)) w)).

(** [seed(entries)] *)
Definition seed (entries : list (string * Json)) (date : nat -> string)
    (w : t) : t :=
  set_knowledge (set_all entries date O (knowledge w)) w.

(** [clear()] *)
Definition clear (w : t) : t :=
  set_stats {| queries := 0; recognized := 0; learned := 0 |}
    (set_knowledge ∅ w).

(** [getKnowledgeSize()] and [has(url)] *)
Definition getKnowledgeSize (w : t) : Z := Z.of_nat (size (knowledge w)).
Definition has (url : string) (w : t) : bool :=
  bool_decide (is_Some (knowledge w !! url)).

(** The calls that change the mock. *)
Inductive Call : Type :=
| Query (url : string) (random : Q)
| QueryBulk (urls : list string) (random : nat -> Q)
| Learn (url : string) (d : Json) (random : Q) (date : string)
| Seed (entries : list (string * Json)) (date : nat -> string)
| Clear.

Definition step (c : Call) (w : t) : t :=
  match c with
  | Query url random => snd (query url random w)
  | QueryBulk urls random => snd (queryBulk urls random w)
  | Learn url d random date => snd (learn url d random date w)
  | Seed entries date => seed entries date w
  | Clear => clear w
  end.

Fixpoint run (cs : list Call) (w : t) : t :=
  match cs with
  | [] => w
  | c :: cs' => run cs' (step c w)
  end.

(** The answer of a query that does not fail, from the knowledge base. *)
Definition answer (k : gmap string Knowledge) (url : string) : AIResult :=
  match k !! url with
  | Some x => {| known := true; data := Some (knowledge_data x);
                 confidence := Some "0.97";
                 learnedAt := Some (knowledge_learnedAt x) |}
  | None => {| known := false; data := None; confidence := None;
               learnedAt := None |}
  end.

(** *** Sample mocks *)

Definition plain : MockFetchBrainOptions :=
  {| initialKnowledge := None; simulateFailures := None;
     failureRate := None; latency := None |}.

(** Failures switched on, the rate left at its default. *)
Definition flaky : MockFetchBrainOptions :=
  {| initialKnowledge := None; simulateFailures := Some true;
     failureRate := None; latency := None |}.

(** The draws of a bulk query whose second query falls below 0.1. *)
Definition draws : nat -> Q :=
  fun j => if Nat.eqb j 1 then 0%Q else (1 # 2)%Q.

End MockFetchBrain.

(* ===================================================================== *)
(** * Properties *)
(* ===================================================================== *)

(** ** Circuit breaker *)

Module CircuitBreakerProps.
Import CircuitBreaker.

(** Case analysis on the next integer comparison of the goal. *)
Ltac case_leb :=
  match goal with
  | |- context [Z.leb ?a ?b] => destruct (Z.leb a b); simpl
  end.

Section Facts.
Variable config : CircuitBreakerConfig.

Lemma run_calls_app (cs1 cs2 : list Call) (b : t) :
  run config (cs1 ++ cs2) b = run config cs2 (run config cs1 b).
Proof.
  revert b. induction cs1 as [|c cs1 IH]; intros b; simpl; [reflexivity|].
  apply IH.
Qed.

Lemma reachable_init : reachable config init.
Proof. exists []. reflexivity. Qed.

Lemma reachable_step (c : Call) (b : t) :
  reachable config b -> reachable config (step config c b).
Proof.
  intros [cs ->]. exists (cs ++ [c]). rewrite run_calls_app. reflexivity.
Qed.

(** While the breaker is closed and the counter stays under the
    threshold, failures only count up. *)
Lemma recordFailure_below (now : Z) (b : t) :
  state b = closed ->
  failures b + 1 < failureThreshold config ->
  recordFailure config now b =
    set_lastFailureTime now (set_failures (failures b + 1) b).
Proof.
  intros Hc Hlt. unfold recordFailure. simpl. rewrite Hc.
  destruct (Z.leb_spec (failureThreshold config) (failures b + 1));
    [lia | reflexivity].
Qed.

Lemma failures_below_threshold (ts : list Z) (b : t) :
  state b = closed ->
  failures b + Z.of_nat (length ts) < failureThreshold config ->
  state (run config (map RecordFailure ts) b) = closed /\
  failures (run config (map RecordFailure ts) b)
    = failures b + Z.of_nat (length ts).
Proof.
  revert b. induction ts as [|t0 ts IH]; intros b Hc Hlt.
  - simpl. split; [assumption | lia].
  - cbn [map run step length] in *.
    rewrite recordFailure_below; [| assumption | lia].
    destruct (IH (set_lastFailureTime t0 (set_failures (failures b + 1) b)))
      as (H1 & H2); simpl; [assumption | lia |].
    simpl in H2. split; [assumption | lia].
Qed.

(** The failure that reaches the threshold opens the breaker. *)
Lemma recordFailure_reaches (now : Z) (b : t) :
  state b = closed ->
  failureThreshold config <= failures b + 1 ->
  recordFailure config now b =
    set_state open (set_lastFailureTime now (set_failures (failures b + 1) b)).
Proof.
  intros Hc Hle. unfold recordFailure. simpl. rewrite Hc.
  destruct (Z.leb_spec (failureThreshold config) (failures b + 1));
    [reflexivity | lia].
Qed.

Lemma recordFailure_stamp (now : Z) (b : t) :
  lastFailureTime (recordFailure config now b) = now.
Proof.
  unfold recordFailure; simpl.
  destruct (state b); simpl; try reflexivity;
    destruct (failureThreshold config <=? failures b + 1); reflexivity.
Qed.

Lemma recordFailure_open (now : Z) (b : t) :
  state b = open -> state (recordFailure config now b) = open.
Proof.
  intros Ho. unfold recordFailure; simpl. rewrite Ho.
  destruct (failureThreshold config <=? failures b + 1); simpl;
    [reflexivity | assumption].
Qed.

Lemma isOpen_open_early (now : Z) (b : t) :
  state b = open -> now - lastFailureTime b < resetTimeout config ->
  isOpen config now b = (true, b).
Proof.
  intros Ho Hlt. unfold isOpen. rewrite Ho.
  destruct (Z.leb_spec (resetTimeout config) (now - lastFailureTime b));
    [lia | reflexivity].
Qed.

Lemma isOpen_open_late (now : Z) (b : t) :
  state b = open -> resetTimeout config <= now - lastFailureTime b ->
  isOpen config now b = (false, set_successes 0 (set_state half_open b)).
Proof.
  intros Ho Hle. unfold isOpen. rewrite Ho.
  destruct (Z.leb_spec (resetTimeout config) (now - lastFailureTime b));
    [reflexivity | lia].
Qed.

(** Failures recorded on an open breaker keep it open. *)
Lemma failures_keep_open (ts : list Z) (b : t) :
  state b = open ->
  state (run config (map RecordFailure ts) b) = open.
Proof.
  revert b. induction ts as [|t0 ts IH]; intros b Ho; [assumption|].
  cbn [map run step]. apply IH, recordFailure_open, Ho.
Qed.

Lemma run_failures_snoc (ts : list Z) (t_last : Z) (b : t) :
  run config (map RecordFailure (ts ++ [t_last])) b =
  recordFailure config t_last (run config (map RecordFailure ts) b).
Proof. rewrite map_app, run_calls_app. reflexivity. Qed.

(** C3. From a closed breaker whose failure count is zero, failures
    recorded one after the other with no success in between leave it
    closed as long as fewer than [failureThreshold] have been recorded;
    the one that makes exactly [failureThreshold] opens it and stamps
    [lastFailureTime] with its time, and [isOpen()] called before
    [resetTimeout] has elapsed since then answers true. A
    [recordSuccess()] on a closed breaker sets the failure count to zero,
    so with a threshold of three or more fail, fail, success, fail, fail
    leaves the breaker closed. *)
Theorem closed_opens_at_threshold
    (b : t) (ts : list Z) (t_last now : Z) :
  state b = closed ->
  failures b = 0 ->
  Z.of_nat (length (ts ++ [t_last])) = failureThreshold config ->
  now - t_last < resetTimeout config ->
  let opened := run config (map RecordFailure (ts ++ [t_last])) b in
  (forall k : nat,
      (k < length (ts ++ [t_last]))%nat ->
      state (run config (map RecordFailure (take k (ts ++ [t_last]))) b)
        = closed) /\
  state opened = open /\
  lastFailureTime opened = t_last /\
  isOpen config now opened = (true, opened) /\
  (forall c : t,
      state c = closed ->
      state (recordSuccess config c) = closed /\
      failures (recordSuccess config c) = 0) /\
  (forall t1 t2 t3 t4 : Z,
      3 <= failureThreshold config ->
      state (run config
               [RecordFailure t1; RecordFailure t2; RecordSuccess;
                RecordFailure t3; RecordFailure t4] b) = closed).
Proof.
  intros Hc Hf Hlen Hnow opened.
  assert (Hopened : opened =
            set_state open
              (set_lastFailureTime t_last
                 (set_failures (failureThreshold config)
                    (run config (map RecordFailure ts) b)))).
  { unfold opened. rewrite run_failures_snoc.
    rewrite length_app in Hlen. simpl in Hlen.
    destruct (failures_below_threshold ts b) as (H1 & H2);
      [assumption | lia |].
    rewrite recordFailure_reaches; [| assumption | lia].
    do 3 f_equal. lia. }
  split; [| split; [| split; [| split; [| split]]]].
  - intros k Hk.
    apply failures_below_threshold; [assumption |].
    rewrite length_take. lia.
  - rewrite Hopened. reflexivity.
  - rewrite Hopened. reflexivity.
  - apply isOpen_open_early; rewrite Hopened; simpl; [reflexivity | lia].
  - intros c Hcc. unfold recordSuccess. rewrite Hcc. simpl.
    split; [assumption | reflexivity].
  - intros t1 t2 t3 t4 H3. cbn [run step].
    pose (b1 := recordFailure config t1 b).
    pose (b2 := recordFailure config t2 b1).
    pose (b3 := recordSuccess config b2).
    pose (b4 := recordFailure config t3 b3).
    assert (E1 : state b1 = closed /\ failures b1 = 1).
    { unfold b1. rewrite recordFailure_below; [| assumption | lia].
      simpl. split; [assumption | lia]. }
    assert (E2 : state b2 = closed /\ failures b2 = 2).
    { unfold b2. rewrite recordFailure_below; [| tauto | lia].
      simpl. split; [tauto | lia]. }
    assert (E3 : state b3 = closed /\ failures b3 = 0).
    { unfold b3, recordSuccess. destruct E2 as [E2 _]. rewrite E2. simpl.
      split; [assumption | reflexivity]. }
    assert (E4 : state b4 = closed /\ failures b4 = 1).
    { unfold b4. rewrite recordFailure_below; [| tauto | lia].
      simpl. split; [tauto | lia]. }
    fold b1 b2 b3 b4.
    rewrite recordFailure_below; [| tauto | lia]. simpl. tauto.
Qed.

(** C4. On an open breaker, an [isOpen()] called when at least
    [resetTimeout] has passed since [lastFailureTime] answers false and
    leaves the breaker half-open with a success count of zero. On a
    half-open breaker, a [recordSuccess()] that brings the success count
    to [successThreshold] closes it with every counter and the stamp at
    zero (one that does not only counts), and a [recordFailure()] opens
    it again at once and stamps [lastFailureTime]; the successes counted
    during the trial are gone when the breaker is next half-open. *)
Theorem recovery_cycle (bo bh : t) (now later : Z) :
  state bo = open ->
  resetTimeout config <= now - lastFailureTime bo ->
  state bh = half_open ->
  resetTimeout config <= later - now ->
  (fst (isOpen config now bo) = false /\
   state (snd (isOpen config now bo)) = half_open /\
   successes (snd (isOpen config now bo)) = 0) /\
  (successThreshold config <= successes bh + 1 ->
   recordSuccess config bh = init) /\
  (successes bh + 1 < successThreshold config ->
   recordSuccess config bh = set_successes (successes bh + 1) bh) /\
  (state (recordFailure config now bh) = open /\
   lastFailureTime (recordFailure config now bh) = now /\
   fst (isOpen config later (recordFailure config now bh)) = false /\
   state (snd (isOpen config later (recordFailure config now bh)))
     = half_open /\
   successes (snd (isOpen config later (recordFailure config now bh))) = 0).
Proof.
  intros Ho Hlate Hh Hlater.
  split; [| split; [| split]].
  - rewrite isOpen_open_late by assumption. simpl. auto.
  - intros Hs. unfold recordSuccess. rewrite Hh. simpl.
    destruct (Z.leb_spec (successThreshold config) (successes bh + 1));
      [reflexivity | lia].
  - intros Hs. unfold recordSuccess. rewrite Hh. simpl.
    destruct (Z.leb_spec (successThreshold config) (successes bh + 1));
      [lia | reflexivity].
  - assert (Hf : recordFailure config now bh =
              set_state open
                (set_lastFailureTime now
                   (set_failures (failures bh + 1) bh))).
    { unfold recordFailure. simpl. rewrite Hh. reflexivity. }
    rewrite Hf. rewrite isOpen_open_late by (simpl; auto).
    simpl. auto.
Qed.

(** C10. A [recordFailure()] on an open breaker leaves it open and puts
    its own time in [lastFailureTime]. After any number of them,
    [isOpen()] answers true until [resetTimeout] has passed since the
    last of them, whatever the stamp was before, and only then lets the
    breaker go half-open. *)
Theorem failure_while_open_postpones_recovery
    (b : t) (ts : list Z) (t_last now : Z) :
  state b = open ->
  let b' := run config (map RecordFailure (ts ++ [t_last])) b in
  state b' = open /\
  lastFailureTime b' = t_last /\
  (now - t_last < resetTimeout config ->
   isOpen config now b' = (true, b')) /\
  (resetTimeout config <= now - t_last ->
   fst (isOpen config now b') = false /\
   state (snd (isOpen config now b')) = half_open).
Proof.
  intros Ho b'.
  assert (Hs : state b' = open).
  { unfold b'. apply failures_keep_open, Ho. }
  assert (Hl : lastFailureTime b' = t_last).
  { unfold b'. rewrite run_failures_snoc. apply recordFailure_stamp. }
  split; [assumption | split; [assumption | split]].
  - intros Hearly. apply isOpen_open_early; [assumption | lia].
  - intros Hlate. rewrite isOpen_open_late by (try assumption; lia).
    simpl. auto.
Qed.

(** Which counters a call leaves for the code to read does not depend on
    the ones it will not read. *)
Lemma step_same_relevant (c : Call) (b1 b2 : t) :
  same_relevant b1 b2 ->
  same_relevant (step config c b1) (step config c b2).
Proof.
  destruct b1 as [s1 f1 u1 l1], b2 as [s2 f2 u2 l2].
  unfold same_relevant. simpl. intros (<- & <- & Hf & Hu).
  destruct s1;
    try specialize (Hf eq_refl); try specialize (Hu eq_refl); subst;
    destruct c as [now| |now|];
    unfold step, isOpen, recordSuccess, recordFailure, reset; simpl;
    repeat case_leb;
    repeat split; intros; auto; try discriminate.
Qed.

Lemma isOpen_same_relevant (now : Z) (b1 b2 : t) :
  same_relevant b1 b2 ->
  fst (isOpen config now b1) = fst (isOpen config now b2).
Proof.
  unfold same_relevant, isOpen. intros (<- & <- & _).
  destruct (state b1); simpl; auto.
  destruct (resetTimeout config <=? now - lastFailureTime b1); reflexivity.
Qed.

Lemma run_same_relevant (cs : list Call) (b1 b2 : t) :
  same_relevant b1 b2 ->
  same_relevant (run config cs b1) (run config cs b2).
Proof.
  revert b1 b2. induction cs as [| c cs IH]; intros b1 b2 H; [exact H |].
  cbn [run]. apply IH, step_same_relevant, H.
Qed.

(** C9, as the code has it. The failure count is meaningful only while
    the breaker is closed and the success count only while it is
    half-open, in that nothing else bears on the state the breaker goes to
    and on what [isOpen()] answers: two breakers that agree on the state,
    the stamp and the counter that is meaningful in that state still agree
    on them after any sequence of calls, are then in the same state and
    answer [isOpen()] alike; while closed the failure count decides whether
    a failure opens the breaker, and while half-open the success count
    decides whether a success closes it. Both counters are still reported
    by [getStats()] in every state, and [recordFailure()] increments the
    failure count in every state and prints it in the warning that it logs
    while the breaker is closed or open. A call that changes the state
    zeroes the counter that is meaningful in the new state and not the
    other: entering half-open sets the success count to zero and leaves the
    failure count, entering closed sets both to zero; entering open leaves
    the success count and counts the failure. *)
Theorem counters_reset_on_entry
    (c : Call) (cs : list Call) (b b1 b2 : t) (now : Z) :
  (same_relevant b1 b2 ->
   same_relevant (step config c b1) (step config c b2) /\
   fst (isOpen config now b1) = fst (isOpen config now b2) /\
   same_relevant (run config cs b1) (run config cs b2) /\
   state (run config cs b1) = state (run config cs b2) /\
   fst (isOpen config now (run config cs b1)) =
     fst (isOpen config now (run config cs b2))) /\
  (state b = closed ->
   (state (recordFailure config now b) = open <->
    failureThreshold config <= failures b + 1)) /\
  (state b = half_open ->
   (state (recordSuccess config b) = closed <->
    successThreshold config <= successes b + 1)) /\
  (stats_failures (getStats b) = failures b /\
   stats_successes (getStats b) = successes b /\
   failures (recordFailure config now b) = failures b + 1 /\
   (state b <> half_open ->
    failureThreshold config <= failures b + 1 ->
    recordFailure_warning config b = Some (opened_after (failures b + 1)))) /\
  (state (step config c b) <> state b ->
   (state (step config c b) = half_open ->
    successes (step config c b) = 0 /\
    failures (step config c b) = failures b) /\
   (state (step config c b) = closed ->
    failures (step config c b) = 0 /\ successes (step config c b) = 0) /\
   (state (step config c b) = open ->
    successes (step config c b) = successes b /\
    failures (step config c b) = failures b + 1)).
Proof.
  split; [| split; [| split; [| split]]].
  - intros H.
    pose proof (run_same_relevant cs b1 b2 H) as Hrun.
    split; [apply step_same_relevant, H |].
    split; [apply isOpen_same_relevant, H |].
    split; [exact Hrun |].
    split; [apply Hrun | apply isOpen_same_relevant, Hrun].
  - intros Hc. unfold recordFailure. simpl. rewrite Hc.
    destruct (Z.leb_spec (failureThreshold config) (failures b + 1));
      simpl; split; intros; try reflexivity; try lia; congruence.
  - intros Hh. unfold recordSuccess. rewrite Hh. simpl.
    destruct (Z.leb_spec (successThreshold config) (successes b + 1));
      simpl; split; intros; try reflexivity; try lia; congruence.
  - split; [reflexivity | split; [reflexivity | split]].
    + unfold recordFailure. simpl.
      destruct (state b); simpl; try reflexivity;
        destruct (failureThreshold config <=? failures b + 1); reflexivity.
    + intros Hne Hle. unfold recordFailure_warning.
      destruct (state b); [| | congruence];
        (destruct (Z.leb_spec (failureThreshold config) (failures b + 1));
         [reflexivity | lia]).
  - destruct b as [s f u l]. destruct c as [t0| |t0|]; simpl.
    + unfold isOpen; simpl. destruct s; simpl; try congruence.
      destruct (resetTimeout config <=? t0 - l); simpl; try congruence.
      intros _. repeat split; auto; discriminate.
    + unfold recordSuccess; simpl. destruct s; simpl; try congruence.
      destruct (successThreshold config <=? u + 1); simpl; try congruence.
      intros _. repeat split; auto; discriminate.
    + unfold recordFailure; simpl. destruct s; simpl; try congruence.
      * destruct (failureThreshold config <=? f + 1); simpl; try congruence.
        intros _. repeat split; auto; discriminate.
      * destruct (failureThreshold config <=? f + 1); simpl; congruence.
      * intros _. repeat split; auto; discriminate.
    + destruct s; simpl; try congruence;
        intros _; repeat split; auto; discriminate.
Qed.

End Facts.

(** *** Instances at the default configuration *)

Lemma closed_opens_at_threshold_witness :
  state init = closed /\
  failures init = 0 /\
  Z.of_nat (length ([1; 2] ++ [3])) = failureThreshold DEFAULT_CONFIG /\
  10 - 3 < resetTimeout DEFAULT_CONFIG /\
  state three_failures = open /\
  isOpen DEFAULT_CONFIG 10 three_failures = (true, three_failures).
Proof.
  assert (H1 : state init = closed) by reflexivity.
  assert (H2 : failures init = 0) by reflexivity.
  assert (H3 : Z.of_nat (length ([1; 2] ++ [3]))
               = failureThreshold DEFAULT_CONFIG) by reflexivity.
  assert (H4 : 10 - 3 < resetTimeout DEFAULT_CONFIG) by reflexivity.
  destruct (closed_opens_at_threshold DEFAULT_CONFIG init [1; 2] 3 10
              H1 H2 H3 H4) as (_ & Hopen & _ & Hanswer & _).
  exact (conj H1 (conj H2 (conj H3 (conj H4 (conj Hopen Hanswer))))).
Defined.

Lemma recovery_cycle_witness :
  state opened_at_3 = open /\
  resetTimeout DEFAULT_CONFIG <= 30003 - lastFailureTime opened_at_3 /\
  state trial_at_3 = half_open /\
  resetTimeout DEFAULT_CONFIG <= 70000 - 30003 /\
  snd (isOpen DEFAULT_CONFIG 30003 opened_at_3) = trial_at_3 /\
  recordSuccess DEFAULT_CONFIG trial_at_3 = init /\
  state (recordFailure DEFAULT_CONFIG 30003 trial_at_3) = open.
Proof.
  assert (H1 : state opened_at_3 = open) by reflexivity.
  assert (H2 : resetTimeout DEFAULT_CONFIG
               <= 30003 - lastFailureTime opened_at_3) by discriminate.
  assert (H3 : state trial_at_3 = half_open) by reflexivity.
  assert (H4 : resetTimeout DEFAULT_CONFIG <= 70000 - 30003) by discriminate.
  destruct (recovery_cycle DEFAULT_CONFIG opened_at_3 trial_at_3 30003 70000
              H1 H2 H3 H4) as ((_ & Hhalf & Hzero) & Hclose & _ & Hreopen & _).
  assert (H5 : successThreshold DEFAULT_CONFIG <= successes trial_at_3 + 1)
    by discriminate.
  exact (conj H1 (conj H2 (conj H3 (conj H4
           (conj eq_refl (conj (Hclose H5) Hreopen)))))).
Defined.

Lemma failure_while_open_postpones_recovery_witness :
  state opened_at_3 = open /\
  resetTimeout DEFAULT_CONFIG <= 30003 - lastFailureTime opened_at_3 /\
  30003 - 20000 < resetTimeout DEFAULT_CONFIG /\
  fst (isOpen DEFAULT_CONFIG 30003 opened_at_3) = false /\
  fst (isOpen DEFAULT_CONFIG 30003
         (run DEFAULT_CONFIG (map RecordFailure ([10000] ++ [20000]))
            opened_at_3)) = true.
Proof.
  assert (H1 : state opened_at_3 = open) by reflexivity.
  assert (H2 : 30003 - 20000 < resetTimeout DEFAULT_CONFIG) by reflexivity.
  assert (H3 : resetTimeout DEFAULT_CONFIG
               <= 30003 - lastFailureTime opened_at_3) by discriminate.
  destruct (failure_while_open_postpones_recovery DEFAULT_CONFIG opened_at_3
              [10000] 20000 30003 H1) as (_ & _ & Hearly & _).
  exact (conj H1 (conj H3 (conj H2 (conj eq_refl
           (f_equal fst (Hearly H2)))))).
Defined.

Lemma counters_reset_on_entry_witness :
  same_relevant trial_at_3 trial_at_3' /\
  getStats trial_at_3 <> getStats trial_at_3' /\
  state (step DEFAULT_CONFIG (IsOpen 30003) opened_at_3) <> state opened_at_3 /\
  same_relevant
    (run DEFAULT_CONFIG [RecordFailure 5; IsOpen 40000; RecordSuccess]
       trial_at_3)
    (run DEFAULT_CONFIG [RecordFailure 5; IsOpen 40000; RecordSuccess]
       trial_at_3') /\
  successes (step DEFAULT_CONFIG (IsOpen 30003) opened_at_3) = 0 /\
  failures (step DEFAULT_CONFIG (IsOpen 30003) opened_at_3) = 3 /\
  recordFailure_warning DEFAULT_CONFIG opened_at_3 = Some (opened_after 4).
Proof.
  assert (H1 : same_relevant trial_at_3 trial_at_3').
  { unfold same_relevant; simpl. repeat split; discriminate. }
  assert (H2 : state (step DEFAULT_CONFIG (IsOpen 30003) opened_at_3)
               <> state opened_at_3) by discriminate.
  assert (H3 : getStats trial_at_3 <> getStats trial_at_3') by discriminate.
  assert (H4 : state opened_at_3 <> half_open) by discriminate.
  assert (H5 : failureThreshold DEFAULT_CONFIG <= failures opened_at_3 + 1)
    by discriminate.
  destruct (counters_reset_on_entry DEFAULT_CONFIG (RecordFailure 5)
              [RecordFailure 5; IsOpen 40000; RecordSuccess]
              opened_at_3 trial_at_3 trial_at_3' 0)
    as (Hsame & _ & _ & (_ & _ & _ & Hwarn) & _).
  destruct (counters_reset_on_entry DEFAULT_CONFIG (IsOpen 30003) []
              opened_at_3 trial_at_3 trial_at_3' 0)
    as (_ & _ & _ & _ & Hentry).
  destruct (Hsame H1) as (_ & _ & Hrun & _).
  destruct (Hentry H2) as (Hhalf & _).
  destruct (Hhalf eq_refl) as (Hzero & Hkept).
  exact (conj H1 (conj H3 (conj H2 (conj Hrun (conj Hzero
           (conj Hkept (Hwarn H4 H5))))))).
Defined.

(** C9, as stated, fails: a call that changes the state does not zero the
    counters that are not read in the new state. Three failures open a
    fresh breaker with a failure count of three; the [isOpen()] that lets
    it go half-open thirty seconds later leaves that count at three. *)
Lemma entering_half_open_keeps_failure_count :
  ~ (forall (c : Call) (b : t),
        reachable DEFAULT_CONFIG b ->
        state (step DEFAULT_CONFIG c b) <> state b ->
        (state (step DEFAULT_CONFIG c b) <> closed ->
         failures (step DEFAULT_CONFIG c b) = 0) /\
        (state (step DEFAULT_CONFIG c b) <> half_open ->
         successes (step DEFAULT_CONFIG c b) = 0)).
Proof.
  intros H.
  assert (Hr : reachable DEFAULT_CONFIG three_failures).
  { exists (map RecordFailure ([1; 2] ++ [3])). reflexivity. }
  destruct (H (IsOpen 30003) three_failures Hr) as (Hf & _);
    [discriminate |].
  specialize (Hf ltac:(discriminate)). discriminate Hf.
Qed.

End CircuitBreakerProps.

(** ** Request batcher *)

Module RequestBatcherProps.
Import Types RequestBatcher.

Section Facts.
Variable config : BatchConfig.

(** *** What [flush] does up to its [await] *)

Lemma cancel_flushTimeout_fields (w : t) :
  queue (cancel_flushTimeout w) = queue w /\
  flushTimeout (cancel_flushTimeout w) = None /\
  calls (cancel_flushTimeout w) = calls w /\
  suspended (cancel_flushTimeout w) = suspended w /\
  settled (cancel_flushTimeout w) = settled w /\
  timers (cancel_flushTimeout w) =
    match flushTimeout w with
    | Some h => filter (fun p => fst p <> h) (timers w)
    | None => timers w
    end.
Proof.
  unfold cancel_flushTimeout.
  destruct (flushTimeout w) eqn:E; simpl; auto 10.
Qed.

Lemma flush_empty (w : t) :
  queue w = [] -> flush config w = cancel_flushTimeout w.
Proof.
  intros Hq. unfold flush.
  destruct (cancel_flushTimeout_fields w) as (Hq' & _).
  rewrite Hq', Hq. reflexivity.
Qed.

Lemma flush_nonempty (w : t) :
  queue w <> [] ->
  let n := Z.to_nat (maxSize config) in
  let w1 := cancel_flushTimeout w in
  flush config w =
    set_suspended (suspended w ++ [(length (calls w), take n (queue w))])
      (set_calls (calls w ++ [map url (take n (queue w))])
         (set_queue (drop n (queue w)) w1)).
Proof.
  intros Hq n w1. unfold flush. fold w1.
  destruct (cancel_flushTimeout_fields w) as (Hq' & _ & Hc & Hs & _).
  fold w1 in Hq', Hc, Hs. rewrite Hq'.
  destruct (queue w) as [|r q] eqn:E; [congruence|].
  simpl. rewrite Hc, Hs. reflexivity.
Qed.

Lemma flush_queue (w : t) :
  queue (flush config w) = drop (Z.to_nat (maxSize config)) (queue w).
Proof.
  destruct (queue w) as [|r q] eqn:E.
  - rewrite flush_empty by assumption.
    destruct (cancel_flushTimeout_fields w) as (-> & _).
    rewrite E, drop_nil. reflexivity.
  - rewrite flush_nonempty by congruence. simpl. rewrite E. reflexivity.
Qed.

Lemma flush_flushTimeout (w : t) : flushTimeout (flush config w) = None.
Proof.
  destruct (cancel_flushTimeout_fields w) as (_ & Hn & _).
  destruct (queue w) as [|r q] eqn:E.
  - rewrite flush_empty by assumption. assumption.
  - rewrite flush_nonempty by congruence. simpl. assumption.
Qed.

Lemma flush_settled (w : t) : settled (flush config w) = settled w.
Proof.
  destruct (cancel_flushTimeout_fields w) as (_ & _ & _ & _ & Hs & _).
  destruct (queue w) as [|r q] eqn:E.
  - rewrite flush_empty by assumption. assumption.
  - rewrite flush_nonempty by congruence. simpl. assumption.
Qed.

Lemma flush_calls (w : t) :
  calls (flush config w) =
    match queue w with
    | [] => calls w
    | _ :: _ =>
        calls w ++ [map url (take (Z.to_nat (maxSize config)) (queue w))]
    end.
Proof.
  destruct (cancel_flushTimeout_fields w) as (_ & _ & Hc & _).
  destruct (queue w) as [|r q] eqn:E.
  - rewrite flush_empty by assumption. assumption.
  - rewrite flush_nonempty by congruence. simpl. rewrite E. reflexivity.
Qed.

(** *** The continuation of [flush] *)

Lemma flush_resume_at (k : nat) (outcome : Completion (gmap string AIResult))
    (w : t) (i : nat) (batch : list PendingRequest) :
  list_find (fun p => fst p = k) (suspended w) = Some (i, (k, batch)) ->
  let fanout :=
    match outcome with
    | Returns results => resolve_all results batch
    | Throws error => reject_all error batch
    end in
  let w2 :=
    set_settled (settled w ++ fanout)
      (set_suspended (filter (fun p => fst p <> k) (suspended w)) w) in
  flush_resume config k outcome w =
    match queue w with
    | [] => w2
    | _ :: _ => schedule_flush config w2
    end.
Proof.
  intros Hfind fanout w2. unfold flush_resume. rewrite Hfind.
  unfold w2, fanout. destruct outcome; simpl; reflexivity.
Qed.

Lemma list_find_suspended (k : nat) (w : t) (i : nat)
    (entry : nat * list PendingRequest) :
  list_find (fun p => fst p = k) (suspended w) = Some (i, entry) ->
  entry = (k, snd entry).
Proof.
  intros H. apply list_find_Some in H as (_ & Hk & _).
  destruct entry as [k' b]. simpl in *. congruence.
Qed.

(** *** Arrivals *)

Lemma waiting_idle (w : t) :
  0 < maxSize config -> queue w = [] -> flushTimeout w = None -> waiting config w.
Proof.
  intros Hpos Hq Hn. unfold waiting. rewrite Hq, Hn. simpl.
  split; [lia | split]; [discriminate | congruence].
Qed.

Lemma schedule_flush_fields (w : t) :
  queue (schedule_flush config w) = queue w /\
  flushTimeout (schedule_flush config w) = Some (nextTimer w) /\
  timers (schedule_flush config w) = timers w ++ [(nextTimer w, maxWait config)] /\
  calls (schedule_flush config w) = calls w /\
  suspended (schedule_flush config w) = suspended w /\
  settled (schedule_flush config w) = settled w.
Proof. unfold schedule_flush, setTimeout. simpl. auto 10. Qed.

Lemma waiting_schedule (w : t) :
  Z.of_nat (length (queue w)) < maxSize config ->
  waiting config (schedule_flush config w).
Proof.
  intros Hlen.
  destruct (schedule_flush_fields w) as (Hq & Hf & Ht & _).
  unfold waiting. rewrite Hq, Hf, Ht.
  split; [assumption | split].
  - intros h [= <-]. apply elem_of_app. right. apply list_elem_of_singleton.
    reflexivity.
  - intros _. eexists. reflexivity.
Qed.

(** One query on a waiting batcher: either the request joins the queue, or
    it completes a chunk of exactly [maxSize] requests, which is handed to
    the executor in one call and leaves the queue empty. *)
Lemma query_waiting (u : string) (w : t) :
  waiting config w ->
  let w' := snd (query config u w) in
  let r := {| url := u; promise := nextPromise w |} in
  waiting config w' /\
  ((calls w' = calls w /\ queue w' = queue w ++ [r]) \/
   (calls w' = calls w ++ [map url (queue w ++ [r])] /\ queue w' = [] /\
    Z.of_nat (length (queue w ++ [r])) = maxSize config)).
Proof.
  intros (Hlen & Hlive & Hsome) w' r. unfold w', query. fold r.
  set (w1 := set_nextPromise (S (nextPromise w)) (set_queue (queue w ++ [r]) w)).
  assert (Hq1 : queue w1 = queue w ++ [r]) by reflexivity.
  assert (Hl1 : Z.of_nat (length (queue w1)) = Z.of_nat (length (queue w)) + 1).
  { rewrite Hq1, length_app. simpl. lia. }
  destruct (Z.leb_spec (maxSize config) (Z.of_nat (length (queue w1))))
    as [Hfull | Hroom]; cbv iota.
  - (* the queue has reached [maxSize] *)
    cbn [snd].
    assert (Hn : Z.to_nat (maxSize config) = length (queue w1)) by lia.
    assert (Hempty : queue (flush config w1) = []).
    { rewrite flush_queue, Hn. apply drop_all. }
    split.
    + unfold waiting. rewrite Hempty, flush_flushTimeout. simpl.
      split; [lia | split]; [discriminate | congruence].
    + right. split; [| split; [exact Hempty | rewrite <- Hq1; lia]].
      rewrite flush_calls, Hn, take_ge by lia.
      change (calls w1) with (calls w). rewrite Hq1.
      destruct (queue w ++ [r]) eqn:E; [| reflexivity].
      destruct (queue w); discriminate.
  - (* there is room left *)
    destruct (flushTimeout w1) as [h|] eqn:Eh; cbn [snd].
    + split; [| left; split; reflexivity].
      unfold waiting. rewrite Eh. split; [lia | split].
      * intros h' [= <-]. apply (Hlive h). exact Eh.
      * intros _. eexists. reflexivity.
    + split; [apply waiting_schedule; lia |].
      destruct (schedule_flush_fields w1) as (Hq & _ & _ & Hc & _).
      left. rewrite Hq, Hc. split; reflexivity.
Qed.

(** An executor call that settles leaves the queue and the calls made as
    they are, and a waiting batcher waiting. *)
Lemma flush_resume_waiting (k : nat)
    (outcome : Completion (gmap string AIResult)) (w : t) :
  waiting config w ->
  waiting config (flush_resume config k outcome w) /\
  calls (flush_resume config k outcome w) = calls w /\
  queue (flush_resume config k outcome w) = queue w.
Proof.
  intros Hw.
  destruct (list_find (fun p => fst p = k) (suspended w))
    as [[i [k' batch]]|] eqn:Efind.
  - assert (k' = k) as ->.
    { apply list_find_suspended in Efind. simpl in Efind. congruence. }
    rewrite (flush_resume_at k outcome w i batch Efind).
    destruct (queue w) as [|x q] eqn:Eq.
    + split; [| split; [reflexivity | simpl; assumption]].
      destruct Hw as (H1 & H2 & H3). unfold waiting. simpl.
      rewrite Eq. rewrite Eq in H1, H3. auto.
    + match goal with |- context [schedule_flush config ?w2] =>
        destruct (schedule_flush_fields w2) as (Hq & _ & _ & Hc & _);
        split; [apply waiting_schedule | split; [rewrite Hc | rewrite Hq]]
      end; simpl; try assumption; try reflexivity.
      destruct Hw as (H1 & _). rewrite Eq. rewrite Eq in H1. exact H1.
  - unfold flush_resume. rewrite Efind. auto.
Qed.

Lemma run_events_app (es1 es2 : list Event) (w : t) :
  run config (es1 ++ es2) w = run config es2 (run config es1 w).
Proof.
  revert w. induction es1 as [|e es1 IH]; intros w; simpl; [reflexivity|].
  apply IH.
Qed.

(** While queries arrive and executor calls settle, with no timer firing,
    the executor is called once for every [maxSize] of them, in arrival
    order, and the rest waits in the queue. *)
Lemma arrivals_chunked (es : list Event) (w : t) :
  waiting config w ->
  forallb arrival es = true ->
  exists chunks : list (list string),
    calls (run config es w) = calls w ++ chunks /\
    Forall (fun c => Z.of_nat (length c) = maxSize config) chunks /\
    map url (queue w) ++ queried es =
      concat chunks ++ map url (queue (run config es w)) /\
    waiting config (run config es w).
Proof.
  revert w. induction es as [|e es IH]; intros w Hw Harr.
  - exists []. simpl. rewrite !app_nil_r. auto.
  - simpl in Harr. apply andb_prop in Harr as [He Hes].
    destruct e as [u|h|k outcome|]; try discriminate; cbn [run step queried].
    + destruct (query_waiting u w Hw) as (Hw' & Hcase).
      destruct (IH _ Hw' Hes) as (chunks & Hc & Hall & Hurls & Hfin).
      destruct Hcase as [(Hc1 & Hq1) | (Hc1 & Hq1 & Hlen)].
      * exists chunks. rewrite Hc, Hc1. split; [reflexivity|].
        split; [assumption | split; [| assumption]].
        rewrite <- Hurls, Hq1, map_app. simpl. rewrite <- app_assoc.
        reflexivity.
      * exists (map url (queue w ++ [{| url := u; promise := nextPromise w |}])
                :: chunks).
        rewrite Hc, Hc1, <- app_assoc. split; [reflexivity|].
        split; [constructor; [rewrite length_map; assumption | assumption]|].
        split; [| assumption].
        rewrite Hq1 in Hurls. simpl in Hurls.
        cbn [concat]. rewrite map_app, <- !app_assoc. simpl.
        rewrite <- Hurls. reflexivity.
    + destruct (flush_resume_waiting k outcome w Hw) as (Hw' & Hc1 & Hq1).
      destruct (IH _ Hw' Hes) as (chunks & Hc & Hall & Hurls & Hfin).
      exists chunks. rewrite Hc, Hc1. split; [reflexivity|].
      split; [assumption | split; [| assumption]].
      rewrite <- Hurls, Hq1. reflexivity.
Qed.

(** When the timer of a waiting batcher fires, what waits in the queue is
    handed to the executor in one call. *)
Lemma timer_flushes_rest (w : t) (h : nat) :
  waiting config w ->
  queue w <> [] ->
  flushTimeout w = Some h ->
  calls (timer_fires config h w) = calls w ++ [map url (queue w)] /\
  queue (timer_fires config h w) = [] /\
  flushTimeout (timer_fires config h w) = None.
Proof.
  intros (Hlen & Hlive & _) Hq Hh. unfold timer_fires.
  assert (Hin : h ∈ map fst (timers w)).
  { apply list_elem_of_fmap. exists (h, maxWait config).
    split; [reflexivity | apply Hlive, Hh]. }
  rewrite bool_decide_eq_true_2 by exact Hin.
  rewrite flush_calls, flush_queue, flush_flushTimeout. simpl.
  assert (Hn : (length (queue w) <= Z.to_nat (maxSize config))%nat) by lia.
  rewrite take_ge, drop_ge by exact Hn.
  destruct (queue w); [congruence | auto].
Qed.

(** C5. With a positive [maxSize]: a flush hands the executor the first
    [maxSize] requests of the queue at most, in arrival order, and leaves
    the rest queued. Queries that arrive at an idle batcher with no timer
    firing in between, executor calls settling or not, are handed to the
    executor in separate calls of exactly [maxSize] URLs each, in arrival
    order; fewer than [maxSize] are left in the queue, and when any are, a
    timer of [maxWait] is armed whose firing hands them over in one more
    call. When a flush resumes after its executor call and the queue is not
    empty, it arms a new timer with delay [maxWait] that runs [flush]; with
    an empty queue it arms none. *)
Theorem flush_in_chunks
    (w idle : t) (es : list Event) (k i : nat) (batch : list PendingRequest)
    (outcome : Completion (gmap string AIResult)) :
  0 < maxSize config ->
  queue idle = [] ->
  flushTimeout idle = None ->
  forallb arrival es = true ->
  list_find (fun p => fst p = k) (suspended w) = Some (i, (k, batch)) ->
  (let taken := take (Z.to_nat (maxSize config)) (queue w) in
   Z.of_nat (length taken) <= maxSize config /\
   taken ++ queue (flush config w) = queue w /\
   calls (flush config w) =
     match queue w with
     | [] => calls w
     | _ :: _ => calls w ++ [map url taken]
     end) /\
  (let w' := run config es idle in
   exists chunks : list (list string),
     calls w' = calls idle ++ chunks /\
     Forall (fun c => Z.of_nat (length c) = maxSize config) chunks /\
     queried es = concat chunks ++ map url (queue w') /\
     Z.of_nat (length (queue w')) < maxSize config /\
     (queue w' <> [] ->
      exists h : nat,
        flushTimeout w' = Some h /\
        (h, maxWait config) ∈ timers w' /\
        calls (timer_fires config h w') = calls w' ++ [map url (queue w')] /\
        queue (timer_fires config h w') = [])) /\
  (let w' := flush_resume config k outcome w in
   (queue w <> [] ->
    flushTimeout w' = Some (nextTimer w) /\
    timers w' = timers w ++ [(nextTimer w, maxWait config)] /\
    timer_fires config (nextTimer w) w'
      = flush config (clearTimeout (nextTimer w) w')) /\
   (queue w = [] ->
    flushTimeout w' = flushTimeout w /\ timers w' = timers w)).
Proof.
  intros Hpos Hidle Hnone Harr Hfind.
  split; [| split].
  - intros taken. unfold taken.
    rewrite flush_queue, take_drop, flush_calls, length_take.
    split; [lia | split; reflexivity].
  - intros w'.
    destruct (arrivals_chunked es idle (waiting_idle idle Hpos Hidle Hnone) Harr)
      as (chunks & Hc & Hall & Hurls & Hwait).
    fold w' in Hc, Hurls, Hwait.
    rewrite Hidle in Hurls. simpl in Hurls.
    exists chunks. repeat (split; [assumption|]).
    split; [apply Hwait |].
    intros Hne. destruct Hwait as (Hlen & Hlive & Hsome).
    destruct (Hsome Hne) as [h Hh]. exists h.
    destruct (timer_flushes_rest w' h (conj Hlen (conj Hlive Hsome)) Hne Hh)
      as (H1 & H2 & _).
    auto.
  - intros w'. unfold w'.
    rewrite (flush_resume_at k outcome w i batch Hfind).
    split.
    + intros Hne. destruct (queue w) as [|x q] eqn:Eq; [congruence|].
      match goal with |- context [schedule_flush config ?w2] =>
        destruct (schedule_flush_fields w2) as (_ & Hf & Ht & _);
        change (nextTimer w2) with (nextTimer w) in *;
        change (timers w2) with (timers w) in *
      end.
      split; [assumption | split; [assumption |]].
      unfold timer_fires. rewrite bool_decide_eq_true_2; [reflexivity |].
      rewrite Ht, map_app. apply elem_of_app. right.
      apply list_elem_of_singleton. reflexivity.
    + intros ->. split; reflexivity.
Qed.

(** *** Every promise is held once *)

Lemma batch_promises_app (l1 l2 : list (nat * list PendingRequest)) :
  batch_promises (l1 ++ l2) = batch_promises l1 ++ batch_promises l2.
Proof. unfold batch_promises. rewrite map_app, concat_app. reflexivity. Qed.

Lemma batch_promises_cons (e : nat * list PendingRequest)
    (l : list (nat * list PendingRequest)) :
  batch_promises (e :: l) = map promise (snd e) ++ batch_promises l.
Proof. reflexivity. Qed.

(** With distinct call indices, the suspended flushes are the one found
    for index [k] and those the filter keeps. *)
Lemma batch_promises_split (l : list (nat * list PendingRequest))
    (k i : nat) (batch : list PendingRequest) :
  NoDup (map fst l) ->
  list_find (fun p => fst p = k) l = Some (i, (k, batch)) ->
  batch_promises l ≡ₚ
    map promise batch ++ batch_promises (filter (fun p => fst p <> k) l).
Proof.
  revert i. induction l as [| [k' b'] l IH]; intros i Hnd Hfind;
    [discriminate |].
  apply NoDup_cons in Hnd as [Hnotin Hnd].
  cbn [list_find] in Hfind. rewrite filter_cons. cbn [fst] in *.
  destruct (decide (k' = k)) as [-> | Hne].
  - injection Hfind as <- <-.
    rewrite decide_False by (intros H; apply H; reflexivity).
    assert (Hkeep : filter (fun p => fst p <> k) l = l).
    { clear IH Hnd. induction l as [| [k2 b2] l IHl]; [reflexivity |].
      rewrite filter_cons. cbn [fst].
      rewrite decide_True.
      - f_equal. apply IHl. intros Hin. apply Hnotin. cbn [map fst].
        apply list_elem_of_further. exact Hin.
      - intros ->. apply Hnotin. cbn [map fst]. apply list_elem_of_here. }
    rewrite Hkeep. reflexivity.
  - rewrite decide_True by exact Hne.
    destruct (list_find (fun p => fst p = k) l) as [[i' e] |] eqn:El;
      [| discriminate].
    cbn in Hfind. injection Hfind as _ ->.
    rewrite !batch_promises_cons. cbn [snd].
    rewrite (IH i' Hnd eq_refl).
    apply Permutation_app_swap_app.
Qed.

Lemma first_settlement_skip (p : nat)
    (l1 l2 : list (nat * Completion AIResult)) :
  p ∉ map fst l1 ->
  first_settlement p (l1 ++ l2) = first_settlement p l2.
Proof.
  induction l1 as [| [q c] l1 IH]; intros Hnotin; [reflexivity |].
  cbn [app first_settlement]. rewrite decide_False.
  - apply IH. intros Hin. apply Hnotin. cbn [map fst].
    apply list_elem_of_further. exact Hin.
  - intros ->. apply Hnotin. cbn [map fst]. apply list_elem_of_here.
Qed.

(** In a fan-out over requests with distinct promises, each promise gets
    the value computed for its own request. *)
Lemma first_settlement_fanout (f : PendingRequest -> Completion AIResult)
    (batch : list PendingRequest) (r : PendingRequest)
    (rest : list (nat * Completion AIResult)) :
  NoDup (map promise batch) ->
  r ∈ batch ->
  first_settlement (promise r)
    (map (fun r' => (promise r', f r')) batch ++ rest) = Some (f r).
Proof.
  induction batch as [| r0 batch IH]; intros Hnd Hin.
  - apply elem_of_nil in Hin. contradiction.
  - cbn [map] in Hnd. apply NoDup_cons in Hnd as [Hnotin Hnd].
    cbn [map app first_settlement].
    apply elem_of_cons in Hin as [-> | Hin].
    + rewrite decide_True by reflexivity. reflexivity.
    + rewrite decide_False; [apply IH; assumption |].
      intros Heq. apply Hnotin. rewrite Heq.
      apply list_elem_of_fmap. exists r. split; [reflexivity | exact Hin].
Qed.

Lemma consistent_init : consistent init.
Proof.
  split; simpl.
  - constructor.
  - intros p Hin. apply elem_of_nil in Hin. contradiction.
  - intros p Hin. apply elem_of_nil in Hin. contradiction.
  - intros p Hin. apply elem_of_nil in Hin. contradiction.
  - constructor.
  - intros p Hin. apply elem_of_nil in Hin. contradiction.
Qed.

(** What [consistent] speaks of: a step that keeps the pending promises up
    to their order, the promise counter and the settlements, and keeps the
    call indices distinct and bounded, keeps consistency. *)
Lemma consistent_perm (w w' : t) :
  pending w' ≡ₚ pending w ->
  nextPromise w' = nextPromise w ->
  settled w' = settled w ->
  NoDup (map fst (suspended w')) ->
  (forall k, k ∈ map fst (suspended w') -> (k < length (calls w'))%nat) ->
  consistent w -> consistent w'.
Proof.
  intros Hp Hn Hs Hk Hb [H1 H2 H3 H4 _ _].
  split; try assumption.
  - rewrite Hp. exact H1.
  - intros p Hin. rewrite Hn. apply H2. rewrite <- Hp. exact Hin.
  - intros p Hin. rewrite Hp. apply H3. rewrite <- Hs. exact Hin.
  - intros p Hin. rewrite Hn. apply H4. rewrite <- Hs. exact Hin.
Qed.

Lemma consistent_frame (w w' : t) :
  queue w' = queue w ->
  suspended w' = suspended w ->
  settled w' = settled w ->
  nextPromise w' = nextPromise w ->
  calls w' = calls w ->
  consistent w -> consistent w'.
Proof.
  intros Hq Hs Hse Hn Hc Hw.
  apply (consistent_perm w w'); try assumption.
  - unfold pending. rewrite Hq, Hs. reflexivity.
  - rewrite Hs. apply Hw.
  - rewrite Hs, Hc. apply Hw.
Qed.

Lemma consistent_cancel (w : t) :
  consistent w -> consistent (cancel_flushTimeout w).
Proof.
  apply consistent_frame; unfold cancel_flushTimeout;
    destruct (flushTimeout w); reflexivity.
Qed.

Lemma consistent_schedule (w : t) :
  consistent w -> consistent (schedule_flush config w).
Proof. apply consistent_frame; reflexivity. Qed.

Lemma consistent_clearTimeout (h : nat) (w : t) :
  consistent w -> consistent (clearTimeout h w).
Proof. apply consistent_frame; reflexivity. Qed.

Lemma consistent_flush (w : t) :
  consistent w -> consistent (flush config w).
Proof.
  intros Hw.
  destruct (queue w) as [| r q] eqn:Eq.
  - rewrite flush_empty by assumption. apply consistent_cancel, Hw.
  - rewrite flush_nonempty by congruence. cbv zeta.
    set (n := Z.to_nat (maxSize config)).
    pose proof (consistent_cancel w Hw) as Hw1.
    assert (Hq1 : queue (cancel_flushTimeout w) = queue w)
      by apply cancel_flushTimeout_fields.
    assert (Hs1 : suspended (cancel_flushTimeout w) = suspended w)
      by apply cancel_flushTimeout_fields.
    assert (Hc1 : calls (cancel_flushTimeout w) = calls w)
      by apply cancel_flushTimeout_fields.
    apply (consistent_perm (cancel_flushTimeout w)); try reflexivity;
      try assumption.
    + unfold pending. simpl. rewrite Hq1, Hs1, batch_promises_app.
      rewrite <- (take_drop n (queue w)) at 3. rewrite map_app.
      unfold batch_promises at 2. simpl. rewrite app_nil_r.
      rewrite (Permutation_app_comm (map promise (take n (queue w)))).
      rewrite <- !app_assoc. symmetry.
      apply Permutation_app_head, Permutation_app_comm.
    + simpl. rewrite map_app. simpl. apply NoDup_app.
      split; [apply Hw | split; [| apply NoDup_singleton]].
      intros k Hin Hk. apply list_elem_of_singleton in Hk. subst k.
      apply (keys_bound w Hw) in Hin. lia.
    + simpl. intros k Hin. rewrite length_app. simpl.
      rewrite map_app in Hin. apply elem_of_app in Hin as [Hin | Hin].
      * apply (keys_bound w Hw) in Hin. lia.
      * simpl in Hin. apply list_elem_of_singleton in Hin. subst k. lia.
Qed.

(** The request that [query] puts in the queue holds a new promise. *)
Lemma consistent_enqueue (u : string) (w : t) :
  consistent w ->
  consistent
    (set_nextPromise (S (nextPromise w))
       (set_queue (queue w ++ [{| url := u; promise := nextPromise w |}]) w)).
Proof.
  intros [H1 H2 H3 H4 H5 H6].
  assert (Hp : forall p,
             p ∈ map promise (queue w ++ [{| url := u; promise := nextPromise w |}])
                 ++ batch_promises (suspended w) <->
             p = nextPromise w \/ p ∈ pending w).
  { intros p. unfold pending. rewrite map_app. simpl.
    rewrite !elem_of_app, list_elem_of_singleton. tauto. }
  split; unfold pending; simpl.
  - rewrite map_app. simpl.
    rewrite <- app_assoc. rewrite (Permutation_app_comm [nextPromise w]).
    rewrite app_assoc. rewrite Permutation_app_comm. simpl.
    apply NoDup_cons. split; [| exact H1].
    intros Hin. apply H2 in Hin. lia.
  - intros p Hin. apply Hp in Hin as [-> | Hin]; [lia |].
    apply H2 in Hin. lia.
  - intros p Hin Hin'. apply Hp in Hin' as [-> | Hin'].
    + apply H4 in Hin. lia.
    + exact (H3 p Hin Hin').
  - intros p Hin. apply H4 in Hin. lia.
  - exact H5.
  - exact H6.
Qed.

Lemma consistent_query (u : string) (w : t) :
  consistent w -> consistent (snd (query config u w)).
Proof.
  intros Hw. unfold query.
  pose proof (consistent_enqueue u w Hw) as Hw1.
  set (w1 := set_nextPromise (S (nextPromise w))
               (set_queue (queue w ++ [{| url := u; promise := nextPromise w |}])
                  w)) in *.
  destruct (maxSize config <=? Z.of_nat (length (queue w1))); cbn [snd].
  - apply consistent_flush, Hw1.
  - destruct (flushTimeout w1); cbn [snd];
      [exact Hw1 | apply consistent_schedule, Hw1].
Qed.

Lemma keys_filter (k : nat) (l : list (nat * list PendingRequest)) :
  map fst (filter (fun p => fst p <> k) l)
  = filter (fun k' => k' <> k) (map fst l).
Proof.
  induction l as [| [k' b] l IH]; [reflexivity |].
  cbn [map fst]. rewrite !filter_cons. cbn [fst].
  destruct (decide (k' <> k)); cbn [map fst]; rewrite IH; reflexivity.
Qed.

(** Settling some of the pending promises and dropping them from what is
    pending keeps consistency. *)
Lemma consistent_settle (w w' : t) (done : list nat) :
  pending w ≡ₚ done ++ pending w' ->
  map fst (settled w') = map fst (settled w) ++ done ->
  nextPromise w' = nextPromise w ->
  NoDup (map fst (suspended w')) ->
  (forall k, k ∈ map fst (suspended w') -> (k < length (calls w'))%nat) ->
  consistent w -> consistent w'.
Proof.
  intros Hp Hs Hn Hk Hb [H1 H2 H3 H4 _ _].
  rewrite Hp in H1. apply NoDup_app in H1 as (_ & Hdisj & Hnd).
  assert (Hsub : forall p, p ∈ pending w' -> p ∈ pending w).
  { intros p Hin. rewrite Hp. apply elem_of_app. right. exact Hin. }
  assert (Hdone : forall p, p ∈ done -> p ∈ pending w).
  { intros p Hin. rewrite Hp. apply elem_of_app. left. exact Hin. }
  split; try assumption.
  - intros p Hin. rewrite Hn. apply H2, Hsub, Hin.
  - intros p Hin. rewrite Hs in Hin. apply elem_of_app in Hin as [Hin | Hin].
    + intros Hin'. exact (H3 p Hin (Hsub p Hin')).
    + apply Hdisj, Hin.
  - intros p Hin. rewrite Hn. rewrite Hs in Hin.
    apply elem_of_app in Hin as [Hin | Hin]; [apply H4, Hin |].
    apply H2, Hdone, Hin.
Qed.

Lemma consistent_flush_resume (k : nat)
    (outcome : Completion (gmap string AIResult)) (w : t) :
  consistent w -> consistent (flush_resume config k outcome w).
Proof.
  intros Hw.
  destruct (list_find (fun p => fst p = k) (suspended w))
    as [[i [k' batch]] |] eqn:Efind.
  - assert (k' = k) as ->.
    { apply list_find_suspended in Efind. simpl in Efind. congruence. }
    rewrite (flush_resume_at k outcome w i batch Efind). cbv zeta.
    match goal with |- consistent (match _ with [] => ?w2 | _ => _ end) =>
      assert (Hw2 : consistent w2)
    end.
    { apply (consistent_settle w _ (map promise batch)); simpl.
      - unfold pending. simpl.
        rewrite (batch_promises_split (suspended w) k i batch
                   (keys_NoDup w Hw) Efind).
        apply Permutation_app_swap_app.
      - rewrite map_app. f_equal.
        destruct outcome; unfold resolve_all, reject_all;
          rewrite map_map; reflexivity.
      - reflexivity.
      - rewrite keys_filter. apply NoDup_filter, Hw.
      - intros k0 Hin. rewrite keys_filter in Hin.
        apply list_elem_of_filter in Hin as [_ Hin].
        apply (keys_bound w Hw), Hin.
      - exact Hw. }
    destruct (queue w); [exact Hw2 | apply consistent_schedule, Hw2].
  - unfold flush_resume. rewrite Efind. exact Hw.
Qed.

Lemma consistent_clear (w : t) : consistent w -> consistent (clear w).
Proof.
  intros Hw. pose proof (consistent_cancel w Hw) as Hw1.
  unfold clear.
  apply (consistent_settle (cancel_flushTimeout w) _
           (map promise (queue (cancel_flushTimeout w)))); simpl.
  - reflexivity.
  - rewrite map_app, map_map. reflexivity.
  - reflexivity.
  - apply Hw1.
  - apply Hw1.
  - exact Hw1.
Qed.

Lemma consistent_step (e : Event) (w : t) :
  consistent w -> consistent (step config e w).
Proof.
  intros Hw. destruct e as [u | h | k outcome |]; cbn [step].
  - apply consistent_query, Hw.
  - unfold timer_fires. destruct (bool_decide _); [| exact Hw].
    apply consistent_flush, consistent_clearTimeout, Hw.
  - apply consistent_flush_resume, Hw.
  - apply consistent_clear, Hw.
Qed.

Lemma consistent_run (es : list Event) (w : t) :
  consistent w -> consistent (run config es w).
Proof.
  revert w. induction es as [| e es IH]; intros w Hw; [exact Hw |].
  apply IH, consistent_step, Hw.
Qed.

(** Every batcher that events produce from a new one is consistent. *)
Lemma reachable_consistent (w : t) : reachable config w -> consistent w.
Proof. intros [es ->]. apply consistent_run, consistent_init. Qed.

(** Promises that are still pending have not been settled, and those of
    one batch are distinct. *)
Lemma pending_unsettled (w : t) (p : nat) :
  consistent w -> p ∈ pending w -> p ∉ map fst (settled w).
Proof. intros Hw Hin Hs. exact (settled_done w Hw p Hs Hin). Qed.

Lemma queued_pending (w : t) (r : PendingRequest) :
  r ∈ queue w -> promise r ∈ pending w.
Proof.
  intros Hin. unfold pending. apply elem_of_app. left.
  apply list_elem_of_fmap. exists r. split; [reflexivity | exact Hin].
Qed.

Lemma suspended_pending (w : t) (k i : nat) (batch : list PendingRequest) :
  consistent w ->
  list_find (fun p => fst p = k) (suspended w) = Some (i, (k, batch)) ->
  NoDup (map promise batch) /\
  (forall r, r ∈ batch -> promise r ∈ pending w).
Proof.
  intros Hw Hfind.
  pose proof (batch_promises_split (suspended w) k i batch
                (keys_NoDup w Hw) Hfind) as Hsplit.
  pose proof (pending_NoDup w Hw) as Hnd. unfold pending in Hnd.
  rewrite Hsplit in Hnd.
  apply NoDup_app in Hnd as (_ & _ & Hnd).
  apply NoDup_app in Hnd as (Hnd & _).
  split; [exact Hnd |].
  intros r Hin. unfold pending. rewrite Hsplit.
  apply elem_of_app. right. apply elem_of_app. left.
  apply list_elem_of_fmap. exists r. split; [reflexivity | exact Hin].
Qed.

(** *** Fan-out *)

Lemma resolve_all_lookup (results : gmap string AIResult)
    (batch : list PendingRequest) (r : PendingRequest) :
  r ∈ batch ->
  (promise r,
   Returns (match results !! url r with
            | Some result => result
            | None => unknown_result
            end)) ∈ resolve_all results batch.
Proof.
  intros Hin. unfold resolve_all. apply list_elem_of_fmap.
  exists r. split; [reflexivity | assumption].
Qed.

Lemma resolve_all_no_reject (results : gmap string AIResult)
    (batch : list PendingRequest) (p : nat) (e : Error) :
  (p, Throws e) ∉ resolve_all results batch.
Proof.
  unfold resolve_all. intros Hin. apply list_elem_of_fmap in Hin.
  destruct Hin as (r & Heq & _). discriminate.
Qed.

(** C6. When the executor call of a suspended flush settles with a result
    map, every request of its batch is resolved, in the order of the batch:
    with the map's entry for its URL when there is one, with
    [{ known: false }] when there is none, and none is rejected. When the
    call fails, every request of the batch is rejected with that same
    error; the executor is not called again and the batch is not put back
    in the queue. In a batcher that events have produced from a new one,
    these calls are the first on their promises, so they decide how the
    callers' promises settle. *)
Theorem flush_fans_out
    (w : t) (k i : nat) (batch : list PendingRequest)
    (results : gmap string AIResult) (error : Error) :
  list_find (fun p => fst p = k) (suspended w) = Some (i, (k, batch)) ->
  (let w' := flush_resume config k (Returns results) w in
   settled w' = settled w ++ resolve_all results batch /\
   (forall (r : PendingRequest) (result : AIResult),
       r ∈ batch -> results !! url r = Some result ->
       (promise r, Returns result) ∈ settled w') /\
   (forall r : PendingRequest,
       r ∈ batch -> results !! url r = None ->
       (promise r, Returns unknown_result) ∈ settled w') /\
   (forall (p : nat) (e : Error),
       (p, Throws e) ∈ settled w' -> (p, Throws e) ∈ settled w) /\
   (reachable config w ->
    forall r : PendingRequest,
      r ∈ batch ->
      outcome_of (promise r) w' =
        Some (Returns (match results !! url r with
                       | Some result => result
                       | None => unknown_result
                       end)))) /\
  (let w' := flush_resume config k (Throws error) w in
   settled w' = settled w ++ map (fun r => (promise r, Throws error)) batch /\
   (forall r : PendingRequest,
       r ∈ batch -> (promise r, Throws error) ∈ settled w') /\
   (reachable config w ->
    forall r : PendingRequest,
      r ∈ batch -> outcome_of (promise r) w' = Some (Throws error)) /\
   calls w' = calls w /\
   queue w' = queue w /\
   (forall b : list PendingRequest, (k, b) ∉ suspended w')).
Proof.
  intros Hfind.
  pose proof (flush_resume_at k (Returns results) w i batch Hfind) as Hok.
  pose proof (flush_resume_at k (Throws error) w i batch Hfind) as Hfail.
  cbv zeta in Hok, Hfail.
  assert (Hsched : forall w2 : t,
             settled (match queue w with
                      | [] => w2
                      | _ :: _ => schedule_flush config w2
                      end) = settled w2 /\
             calls (match queue w with
                    | [] => w2
                    | _ :: _ => schedule_flush config w2
                    end) = calls w2 /\
             queue (match queue w with
                    | [] => w2
                    | _ :: _ => schedule_flush config w2
                    end) = queue w2 /\
             suspended (match queue w with
                        | [] => w2
                        | _ :: _ => schedule_flush config w2
                        end) = suspended w2).
  { intros w2. destruct (queue w); [auto |].
    destruct (schedule_flush_fields w2) as (H1 & _ & _ & H2 & H3 & H4). auto. }
  split.
  - intros w'. unfold w'. rewrite Hok.
    match goal with |- context [set_settled ?s ?w1] =>
      destruct (Hsched (set_settled s w1)) as (Hs & _) end.
    unfold outcome_of. rewrite Hs. simpl.
    split; [reflexivity | split; [| split; [| split]]].
    + intros r result Hin Hget. apply elem_of_app. right.
      pose proof (resolve_all_lookup results batch r Hin) as H.
      rewrite Hget in H. exact H.
    + intros r Hin Hget. apply elem_of_app. right.
      pose proof (resolve_all_lookup results batch r Hin) as H.
      rewrite Hget in H. exact H.
    + intros p e Hin. apply elem_of_app in Hin as [Hin | Hin];
        [assumption |].
      exfalso. exact (resolve_all_no_reject results batch p e Hin).
    + intros Hreach r Hin.
      apply reachable_consistent in Hreach.
      destruct (suspended_pending w k i batch Hreach Hfind) as (Hnd & Hpend).
      rewrite first_settlement_skip
        by (apply pending_unsettled; [exact Hreach | apply Hpend, Hin]).
      unfold resolve_all.
      rewrite <- (app_nil_r (map _ batch)).
      apply (first_settlement_fanout
               (fun r' => Returns (match results !! url r' with
                                   | Some result => result
                                   | None => unknown_result
                                   end))); assumption.
  - intros w'. unfold w'. rewrite Hfail.
    match goal with |- context [set_settled ?s ?w1] =>
      destruct (Hsched (set_settled s w1)) as (Hs & Hc & Hq & Hsu) end.
    unfold outcome_of. rewrite Hs, Hc, Hq, Hsu. simpl.
    split; [reflexivity | split; [| split; [| split; [| split]]]];
      try reflexivity.
    + intros r Hin. apply elem_of_app. right. unfold reject_all.
      apply list_elem_of_fmap. exists r. split; [reflexivity | assumption].
    + intros Hreach r Hin.
      apply reachable_consistent in Hreach.
      destruct (suspended_pending w k i batch Hreach Hfind) as (Hnd & Hpend).
      rewrite first_settlement_skip
        by (apply pending_unsettled; [exact Hreach | apply Hpend, Hin]).
      unfold reject_all.
      rewrite <- (app_nil_r (map _ batch)).
      apply (first_settlement_fanout (fun _ => Throws error)); assumption.
    + intros b Hin. apply list_elem_of_filter in Hin as [Hne _].
      apply Hne. reflexivity.
Qed.

(** *** Teardown *)

(** After [clear()] a timer that fires finds nothing to flush. *)
Lemma timer_after_clear (w : t) (h : nat) :
  let w' := timer_fires config h (clear w) in
  queue w' = [] /\ calls w' = calls w /\
  settled w' = settled (clear w) /\
  suspended w' = suspended w.
Proof.
  intros w'. unfold w', timer_fires.
  destruct (cancel_flushTimeout_fields w) as (Hq & _ & Hc & Hs & _).
  destruct (bool_decide _).
  - rewrite flush_empty by reflexivity.
    match goal with |- context [cancel_flushTimeout ?x] =>
      destruct (cancel_flushTimeout_fields x) as (H1 & _ & H2 & H3 & H4 & _)
    end.
    rewrite H1, H2, H3, H4. simpl. auto.
  - simpl. auto.
Qed.

(** Whatever the queue, the timer and the flushes under way: [clear()]
    clears the timer recorded in [flushTimeout] and forgets it, resolves
    every queued request with [{ known: false, fallback: true }], in queue
    order, rejects none, and empties the queue; in a batcher that events
    have produced from a new one these are the first calls on those
    promises, so every queued caller's promise resolves with that value. It
    does not touch the flushes that wait for their executor call: when such
    a call settles afterwards, the requests of that batch are settled from
    its outcome as they would have been. *)
Lemma clear_facts
    (w : t) (k i : nat) (batch : list PendingRequest)
    (outcome : Completion (gmap string AIResult)) :
  let w' := clear w in
  flushTimeout w' = None /\
  timers w' =
    match flushTimeout w with
    | Some h => filter (fun p => fst p <> h) (timers w)
    | None => timers w
    end /\
  (forall h : nat, flushTimeout w = Some h -> h ∉ map fst (timers w')) /\
  settled w' =
    settled w ++ map (fun r => (promise r, Returns fallback_result)) (queue w) /\
  (forall r : PendingRequest,
      r ∈ queue w -> (promise r, Returns fallback_result) ∈ settled w') /\
  (forall (p : nat) (e : Error),
      (p, Throws e) ∈ settled w' -> (p, Throws e) ∈ settled w) /\
  (reachable config w ->
   forall r : PendingRequest,
     r ∈ queue w ->
     outcome_of (promise r) w' = Some (Returns fallback_result)) /\
  queue w' = [] /\
  getQueueSize w' = 0 /\
  suspended w' = suspended w /\
  calls w' = calls w /\
  (list_find (fun p => fst p = k) (suspended w) = Some (i, (k, batch)) ->
   settled (flush_resume config k outcome w') =
     settled w' ++
     match outcome with
     | Returns results => resolve_all results batch
     | Throws error => reject_all error batch
     end).
Proof.
  intros w'. unfold w', clear.
  destruct (cancel_flushTimeout_fields w) as (Hq & Hn & Hc & Hs & Hse & Ht).
  simpl. rewrite Hq, Hn, Hc, Hs, Hse, Ht.
  split; [reflexivity | split; [reflexivity | split]].
  { intros h Hh. rewrite Hh. intros Hin.
    apply list_elem_of_fmap in Hin as ([h' d] & Heq & Hin).
    apply list_elem_of_filter in Hin as [Hne _]. simpl in *. congruence. }
  split; [reflexivity | split].
  { intros r Hin. apply elem_of_app. right. apply list_elem_of_fmap.
    exists r. split; [reflexivity | assumption]. }
  split.
  { intros p e Hin. apply elem_of_app in Hin as [Hin | Hin]; [assumption |].
    apply list_elem_of_fmap in Hin as (r & Heq & _). discriminate. }
  split.
  { intros Hreach r Hin. apply reachable_consistent in Hreach.
    unfold outcome_of. simpl.
    rewrite first_settlement_skip
      by (apply pending_unsettled; [exact Hreach | apply queued_pending, Hin]).
    rewrite <- (app_nil_r (map _ (queue w))).
    apply (first_settlement_fanout (fun _ => Returns fallback_result));
      [| exact Hin].
    pose proof (pending_NoDup w Hreach) as Hnd. unfold pending in Hnd.
    apply NoDup_app in Hnd as (Hnd & _). exact Hnd. }
  split; [reflexivity | split; [reflexivity | split; [reflexivity | split]]];
    [reflexivity |].
  intros Hfind.
  match goal with |- context [flush_resume config k outcome ?x] =>
    assert (Hfind' : list_find (fun p => fst p = k) (suspended x)
                     = Some (i, (k, batch)))
      by (simpl; rewrite Hs; exact Hfind);
    rewrite (flush_resume_at k outcome x i batch Hfind')
  end.
  simpl. reflexivity.
Qed.

End Facts.

(** *** Instances: batches of two *)

Lemma two_in_flight_suspended :
  list_find (fun p => fst p = 0%nat) (suspended two_in_flight)
  = Some (0%nat, (0%nat, first_batch)).
Proof. reflexivity. Qed.

Lemma flush_in_chunks_witness :
  0 < maxSize pairs /\
  queue init = [] /\
  flushTimeout init = None /\
  forallb arrival three_queries = true /\
  (exists chunks : list (list string),
      calls two_in_flight = calls init ++ chunks /\
      Forall (fun c => Z.of_nat (length c) = maxSize pairs) chunks /\
      queried three_queries = concat chunks ++ map url (queue two_in_flight)) /\
  timers (flush_resume pairs 0 (Throws "down") two_in_flight)
    = timers two_in_flight ++ [(nextTimer two_in_flight, maxWait pairs)].
Proof.
  assert (H1 : 0 < maxSize pairs) by reflexivity.
  assert (H2 : queue init = []) by reflexivity.
  assert (H3 : flushTimeout init = None) by reflexivity.
  assert (H4 : forallb arrival three_queries = true) by reflexivity.
  destruct (flush_in_chunks pairs two_in_flight init three_queries 0 0
              first_batch (Throws "down") H1 H2 H3 H4 two_in_flight_suspended)
    as (_ & (chunks & Hc & Hall & Hurls & _) & Harm & _).
  assert (Hne : queue two_in_flight <> []) by discriminate.
  destruct (Harm Hne) as (_ & Htimers & _).
  refine (conj H1 (conj H2 (conj H3 (conj H4 (conj _ Htimers))))).
  exists chunks. exact (conj Hc (conj Hall Hurls)).
Defined.

Lemma two_in_flight_reachable : reachable pairs two_in_flight.
Proof. exists three_queries. reflexivity. Qed.

Lemma flush_fans_out_witness :
  list_find (fun p => fst p = 0%nat) (suspended two_in_flight)
    = Some (0%nat, (0%nat, first_batch)) /\
  reachable pairs two_in_flight /\
  outcome_of 0 (flush_resume pairs 0 (Returns knows_a) two_in_flight)
    = Some (Returns answer_a) /\
  outcome_of 1 (flush_resume pairs 0 (Returns knows_a) two_in_flight)
    = Some (Returns unknown_result) /\
  outcome_of 1 (flush_resume pairs 0 (Throws "down") two_in_flight)
    = Some (Throws "down").
Proof.
  destruct (flush_fans_out pairs two_in_flight 0 0 first_batch knows_a "down"
              two_in_flight_suspended)
    as ((_ & _ & _ & _ & Hok) & (_ & _ & Hfail & _)).
  assert (Ha : {| url := "a"; promise := 0 |} ∈ first_batch)
    by apply list_elem_of_here.
  assert (Hb : {| url := "b"; promise := 1 |} ∈ first_batch)
    by apply list_elem_of_further, list_elem_of_here.
  pose proof (Hok two_in_flight_reachable _ Ha) as Hoka.
  pose proof (Hok two_in_flight_reachable _ Hb) as Hokb.
  pose proof (Hfail two_in_flight_reachable _ Hb) as Hfailb.
  cbn [url promise] in Hoka, Hokb, Hfailb.
  assert (La : knows_a !! "a" = Some answer_a)
    by apply lookup_singleton_eq.
  assert (Lb : knows_a !! "b" = None)
    by (apply lookup_singleton_ne; discriminate).
  rewrite La in Hoka. rewrite Lb in Hokb.
  split; [exact two_in_flight_suspended |].
  split; [exact two_in_flight_reachable |].
  split; [exact Hoka |]. split; [exact Hokb | exact Hfailb].
Defined.

Lemma first_batch_failed_reachable : reachable pairs first_batch_failed.
Proof.
  exists (three_queries ++ [ExecutorSettles 0 (Throws "down")]). reflexivity.
Qed.

(** C7. What [clear()] does, and where it leaves a flush timer pending.
    For every batcher, [clear()] clears the timer recorded in
    [flushTimeout] and forgets it, resolves every queued request with
    [{ known: false, fallback: true }] in queue order, rejects none and
    empties the queue, also while a flush waits for its executor call,
    whose batch is settled from the call's outcome afterwards; in a batcher
    that events have produced from a new one every queued caller's promise
    resolves with that value. But [flushTimeout] records one handle, and
    the end of [flush()] arms a timer without looking at it, where
    [query()] arms one only when none is recorded. With batches of two:
    "a" and "b" go to the executor, "c" arrives and [query()] arms timer 1,
    the executor call fails and [flush()] arms timer 2 over it. [clear()]
    then clears timer 2 and resolves "c", and timer 1 stays armed: a
    request "d" that arrives afterwards arms timer 3 for its own wait, and
    when timer 1 fires it clears timer 3 and sends "d" to the executor. *)
Theorem clear_leaves_unrecorded_timer :
  (forall (config : BatchConfig) (w : t) (k i : nat)
          (batch : list PendingRequest)
          (outcome : Completion (gmap string AIResult)),
      let w' := clear w in
      flushTimeout w' = None /\
      (forall h : nat, flushTimeout w = Some h -> h ∉ map fst (timers w')) /\
      settled w' =
        settled w ++
        map (fun r => (promise r, Returns fallback_result)) (queue w) /\
      (forall (p : nat) (e : Error),
          (p, Throws e) ∈ settled w' -> (p, Throws e) ∈ settled w) /\
      (reachable config w ->
       forall r : PendingRequest,
         r ∈ queue w ->
         outcome_of (promise r) w' = Some (Returns fallback_result)) /\
      queue w' = [] /\
      suspended w' = suspended w /\
      calls w' = calls w /\
      (list_find (fun p => fst p = k) (suspended w) = Some (i, (k, batch)) ->
       settled (flush_resume config k outcome w') =
         settled w' ++
         match outcome with
         | Returns results => resolve_all results batch
         | Throws error => reject_all error batch
         end)) /\
  reachable pairs first_batch_failed /\
  timers two_in_flight = [(1%nat, 50)] /\
  flushTimeout two_in_flight = Some 1%nat /\
  queue first_batch_failed = [{| url := "c"; promise := 2 |}] /\
  timers first_batch_failed = [(1%nat, 50); (2%nat, 50)] /\
  flushTimeout first_batch_failed = Some 2%nat /\
  flushTimeout (clear first_batch_failed) = None /\
  timers (clear first_batch_failed) = [(1%nat, 50)] /\
  outcome_of 2 (clear first_batch_failed) = Some (Returns fallback_result) /\
  cleared_then_queried = snd (query pairs "d" (clear first_batch_failed)) /\
  map url (queue cleared_then_queried) = ["d"] /\
  timers cleared_then_queried = [(1%nat, 50); (3%nat, 50)] /\
  flushTimeout cleared_then_queried = Some 3%nat /\
  calls cleared_then_queried = [["a"; "b"]] /\
  timers (timer_fires pairs 1 cleared_then_queried) = [] /\
  queue (timer_fires pairs 1 cleared_then_queried) = [] /\
  calls (timer_fires pairs 1 cleared_then_queried) = [["a"; "b"]; ["d"]].
Proof.
  split.
  - intros config w k i batch outcome.
    destruct (clear_facts config w k i batch outcome)
      as (H1 & _ & H3 & H4 & _ & H6 & H7 & H8 & _ & H10 & H11 & H12).
    cbv zeta. repeat (split; [assumption |]). assumption.
  - split; [exact first_batch_failed_reachable |].
    vm_compute. repeat split; reflexivity.
Qed.

End RequestBatcherProps.

(** ** API client *)

Module FetchBrainClientProps.
Import Types FetchBrainClient.

(** [learn] up to its [await], case by case. *)
Lemma learn_cases
    (JSON_stringify : string -> Json -> Completion string)
    (c : t) (now : Z) (u : string) (d : Json) :
  learn JSON_stringify now u d c =
    if negb (learning (config c)) then (Returns (Done rejected_response), c)
    else
      let '(o, b) :=
        CircuitBreaker.isOpen breakerConfig now (circuitBreaker c) in
      if (o : bool)
      then (Returns (Done rejected_response), set_circuitBreaker b c)
      else
        let failed :=
          (Returns (Done rejected_response),
           set_circuitBreaker
             (CircuitBreaker.recordFailure breakerConfig now b) c) in
        match match extractForLearning (config c) with
              | Some f => f d
              | None => Returns d
              end with
        | Throws _ => failed
        | Returns extracted =>
            match JSON_stringify u extracted with
            | Throws _ => failed
            | Returns text =>
                (Returns (Awaits tt),
                 set_requests
                   (requests c ++
                    [{| path := "/v1/learn"; entry_url := u;
                        entry_data := extracted; body := text |}])
                   (set_circuitBreaker b c))
            end
        end.
Proof.
  unfold learn, learn_catch, bind, try_, get_config, isOpen, recordFailure,
    makeRequest_learn, await, ret.
  destruct (learning (config c)); simpl; [| reflexivity].
  destruct (CircuitBreaker.isOpen breakerConfig now (circuitBreaker c))
    as [[|] b]; simpl; [reflexivity |].
  destruct (extractForLearning (config c)) as [f |]; simpl;
    [destruct (f d) as [extracted | error]; simpl |];
    try reflexivity;
    match goal with
    | |- context [JSON_stringify u ?x] => destruct (JSON_stringify u x)
    end; reflexivity.
Qed.

(** C8. [query] and [learn] never throw, before or after their [await].
    [query] with the circuit open returns
    [{ known: false, fallback: true }] and leaves the batcher as it is;
    otherwise it hands the URL to the batcher, returns what the batcher's
    promise resolves with, and returns
    [{ known: false, fallback: true }] when that promise is rejected.
    [learn] with learning disabled or the circuit open returns
    [{ status: 'rejected', learned: 0 }] and issues no request. Otherwise
    it issues one request, with the extracted data and its serialised
    body, unless the extractor throws or the payload cannot be serialised:
    then no request is issued, the breaker records a failure and the
    rejected response is returned. When the request succeeds the breaker
    records a success and the response is returned; when it fails the
    breaker records a failure and the rejected response is returned. *)
Theorem client_contains_failures
    (JSON_stringify : string -> Json -> Completion string)
    (c : t) (now later : Z) (u : string) (d : Json)
    (s : Completion AIResult) (resp : Completion LearnResponse) :
  let opened := fst (CircuitBreaker.isOpen breakerConfig now (circuitBreaker c)) in
  let breaker := snd (CircuitBreaker.isOpen breakerConfig now (circuitBreaker c)) in
  let extraction :=
    match extractForLearning (config c) with
    | Some f => f d
    | None => Returns d
    end in
  (exists (st : Step AIResult nat) (c' : t),
      query now u c = (Returns st, c') /\
      requests c' = requests c /\
      (opened = true -> st = Done fallback_result /\ batcher c' = batcher c) /\
      (opened = false ->
       st = Awaits (fst (RequestBatcher.query batchConfig u (batcher c))) /\
       batcher c' = snd (RequestBatcher.query batchConfig u (batcher c)))) /\
  (exists r : AIResult,
      query_resume s c = (Returns r, c) /\
      (forall result, s = Returns result -> r = result) /\
      (forall error, s = Throws error -> r = fallback_result)) /\
  (exists (st : Step LearnResponse unit) (c' : t),
      learn JSON_stringify now u d c = (Returns st, c') /\
      batcher c' = batcher c /\
      (learning (config c) = false -> st = Done rejected_response /\ c' = c) /\
      (learning (config c) = true -> opened = true ->
       st = Done rejected_response /\ requests c' = requests c /\
       circuitBreaker c' = breaker) /\
      (learning (config c) = true -> opened = false ->
       forall error : Error,
         extraction = Throws error ->
         st = Done rejected_response /\ requests c' = requests c /\
         circuitBreaker c' =
           CircuitBreaker.recordFailure breakerConfig now breaker) /\
      (learning (config c) = true -> opened = false ->
       forall (extracted : Json) (error : Error),
         extraction = Returns extracted ->
         JSON_stringify u extracted = Throws error ->
         st = Done rejected_response /\ requests c' = requests c /\
         circuitBreaker c' =
           CircuitBreaker.recordFailure breakerConfig now breaker) /\
      (learning (config c) = true -> opened = false ->
       forall (extracted : Json) (text : string),
         extraction = Returns extracted ->
         JSON_stringify u extracted = Returns text ->
         st = Awaits tt /\
         requests c' =
           requests c ++
           [{| path := "/v1/learn"; entry_url := u; entry_data := extracted;
               body := text |}] /\
         circuitBreaker c' = breaker)) /\
  (exists (r : LearnResponse) (c' : t),
      learn_resume later resp c = (Returns r, c') /\
      requests c' = requests c /\
      (forall response, resp = Returns response ->
         r = response /\
         circuitBreaker c' =
           CircuitBreaker.recordSuccess breakerConfig (circuitBreaker c)) /\
      (forall error, resp = Throws error ->
         r = rejected_response /\
         circuitBreaker c' =
           CircuitBreaker.recordFailure breakerConfig later (circuitBreaker c))).
Proof.
  intros opened breaker extraction.
  split; [| split; [| split]].
  - unfold query, bind, isOpen, batcher_query, ret.
    subst opened breaker.
    destruct (CircuitBreaker.isOpen breakerConfig now (circuitBreaker c))
      as [o b] eqn:Eo.
    destruct o; simpl.
    + eexists _, _. split; [reflexivity |].
      split; [reflexivity | split]; [auto | discriminate].
    + destruct (RequestBatcher.query batchConfig u (batcher c))
        as [p bw] eqn:Eq.
      eexists _, _. split; [reflexivity |].
      split; [reflexivity | split]; [discriminate | auto].
  - unfold query_resume, try_, await, ret.
    destruct s as [result | error]; eexists; (split; [reflexivity |]);
      split; intros ? [= <-]; reflexivity.
  - rewrite learn_cases. subst opened breaker extraction.
    destruct (learning (config c)) eqn:El; simpl.
    + destruct (CircuitBreaker.isOpen breakerConfig now (circuitBreaker c))
        as [o b] eqn:Eo.
      destruct o; simpl.
      * eexists _, _. split; [reflexivity |].
        repeat split; try discriminate; auto.
      * destruct (match extractForLearning (config c) with
                  | Some f => f d
                  | None => Returns d
                  end) as [extracted | error] eqn:Ex.
        -- destruct (JSON_stringify u extracted) as [text | error] eqn:Es;
             eexists _, _; (split; [reflexivity |]);
             (split; [reflexivity |]);
             (split; [discriminate |]);
             (split; [discriminate |]);
             (split; [intros _ _ ? [=] |]); split.
           ++ intros _ _ ? ? [= <-]. rewrite Es. discriminate.
           ++ intros _ _ ? ? [= <-]. rewrite Es. intros [= <-]. auto.
           ++ intros _ _ ? ? [= <-] _. auto.
           ++ intros _ _ ? ? [= <-]. rewrite Es. discriminate.
        -- eexists _, _. split; [reflexivity |].
           split; [reflexivity |].
           split; [discriminate |]. split; [discriminate |].
           split; [intros _ _ ? _; auto |].
           split; intros _ _ ? ? [=].
    + eexists _, _. split; [reflexivity |].
      split; [reflexivity |].
      split; [auto |]. repeat split; discriminate.
  - unfold learn_resume, learn_catch, bind, try_, await, recordSuccess,
      recordFailure, ret.
    destruct resp as [response | error]; simpl;
      eexists _, _; (split; [reflexivity |]); (split; [reflexivity |]);
      split; intros ? [= <-]; auto.
Qed.

Lemma client_contains_failures_witness :
  fst (CircuitBreaker.isOpen breakerConfig 10 (circuitBreaker tripped)) = true /\
  learning (config tripped) = true /\
  fst (query 10 "a" tripped) = Returns (Done fallback_result) /\
  batcher (snd (query 10 "a" tripped)) = batcher tripped /\
  fst (learn refuses_cycle 10 "a" "{}" tripped)
    = Returns (Done rejected_response) /\
  fst (query_resume (Throws "down") tripped) = Returns fallback_result /\
  fst (CircuitBreaker.isOpen breakerConfig 10
         (circuitBreaker (init (config tripped)))) = false /\
  refuses_cycle "a" "<cycle>"
    = Throws "TypeError: Converting circular structure to JSON" /\
  fst (learn refuses_cycle 10 "a" "<cycle>" (init (config tripped)))
    = Returns (Done rejected_response) /\
  requests (snd (learn refuses_cycle 10 "a" "<cycle>" (init (config tripped))))
    = [] /\
  CircuitBreaker.failures
    (circuitBreaker
       (snd (learn refuses_cycle 10 "a" "<cycle>" (init (config tripped)))))
    = 1.
Proof.
  assert (H1 : fst (CircuitBreaker.isOpen breakerConfig 10
                      (circuitBreaker tripped)) = true) by reflexivity.
  assert (H2 : learning (config tripped) = true) by reflexivity.
  assert (H3 : fst (CircuitBreaker.isOpen breakerConfig 10
                      (circuitBreaker (init (config tripped)))) = false)
    by reflexivity.
  assert (H4 : refuses_cycle "a" "<cycle>"
               = Throws "TypeError: Converting circular structure to JSON")
    by reflexivity.
  destruct (client_contains_failures refuses_cycle tripped 10 20 "a" "{}"
              (Throws "down") (Throws "down"))
    as ((st & c' & Hq & _ & Hopen & _) & (r & Hr & _ & Hrej)
        & (st' & c'' & Hl & _ & _ & Hlopen & _) & _).
  destruct (Hopen H1) as (-> & Hb).
  destruct (Hlopen H2 H1) as (-> & _).
  destruct (client_contains_failures refuses_cycle (init (config tripped))
              10 20 "a" "<cycle>" (Throws "down") (Throws "down"))
    as (_ & _ & (st2 & c2 & Hl2 & _ & _ & _ & _ & Hcycle & _) & _).
  destruct (Hcycle H2 H3 "<cycle>"
              "TypeError: Converting circular structure to JSON" eq_refl H4)
    as (-> & Hreq & Hbr).
  rewrite Hq, Hl, Hr, Hl2. cbn [fst snd].
  rewrite (Hrej "down" eq_refl), Hreq, Hbr.
  exact (conj H1 (conj H2 (conj eq_refl (conj Hb (conj eq_refl (conj eq_refl
           (conj H3 (conj H4 (conj eq_refl (conj eq_refl eq_refl)))))))))).
Defined.

End FetchBrainClientProps.

(** ** Handler wrapper *)

Module EnhanceProps.
Import Types Enhance.

Lemma no_learn_app (es1 es2 : list Effect) :
  no_learn es1 -> no_learn es2 -> no_learn (es1 ++ es2).
Proof. intros H1 H2. apply Forall_app. split; assumption. Qed.


Lemma no_learn_rest_of (es : list Effect) : no_learn (rest_of es).
Proof.
  apply Forall_forall. intros e He. apply list_elem_of_filter in He. apply He.
Qed.





Section Calls.
Variable host : Host.

(** A call of a function held by [context.pushData] reaches the host's
    function exactly once, whatever nests around it, and settles as the
    host's function does; the functions around it add learn calls only,
    and none when none of them teaches. *)
Lemma call_facts (tracked : option string) (f : PushDataFn)
    (done : list Effect) (d : Json) :
  rest_of (fst (call host tracked f done d)) = [OriginalPushData d] /\
  snd (call host tracked f done d) = pushData_rejects host (rest_of done) d /\
  (teaches f = false -> fst (call host tracked f done d) = [OriginalPushData d]).
Proof.
  revert done. induction f as [| u k used orig IH]; intros done.
  - simpl. repeat split.
  - cbn [call teaches].
    set (learnt := if negb used && negb k
                   then [ClientLearn (currentUrl tracked u) d] else []).
    assert (Hl : rest_of learnt = []).
    { unfold learnt. destruct (negb used && negb k); reflexivity. }
    destruct (IH (done ++ learnt)) as (H1 & H2 & H3).
    destruct (call host tracked orig (done ++ learnt) d) as [es err].
    simpl in *. rewrite filter_app, Hl, H1. simpl.
    rewrite filter_app, Hl, app_nil_r in H2.
    split; [reflexivity | split; [exact H2 |]].
    intros Ht. apply orb_false_iff in Ht as [Ht1 Ht2].
    unfold learnt. rewrite Ht1. simpl. apply H3, Ht2.
Qed.

Lemma call_no_learn (tracked : option string) (f : PushDataFn)
    (done : list Effect) (d : Json) :
  teaches f = false -> no_learn (fst (call host tracked f done d)).
Proof.
  intros Ht. destruct (call_facts tracked f done d) as (_ & _ & H).
  rewrite (H Ht). repeat constructor.
Qed.

(** The exported [pushData]: what it does to the dataset and how it
    settles do not depend on the request's scope, which only decides the
    learn calls made first. *)
Lemma pushData_facts (ctx : option RequestContext) (data : PushArg)
    (dataset_has_open : bool) (name : option string) (done : list Effect) :
  fst (pushData host ctx data dataset_has_open name done) =
    match ctx with
    | Some c =>
        if learning_on c && negb (aiKnown c)
        then map (ClientLearn (url c)) (items data)
        else []
    | None => []
    end ++ fst (pushData host None data dataset_has_open name done) /\
  snd (pushData host ctx data dataset_has_open name done) =
    snd (pushData host None data dataset_has_open name done) /\
  no_learn (fst (pushData host None data dataset_has_open name done)) /\
  filter (fun e => is_handler e = true)
    (fst (pushData host None data dataset_has_open name done)) = [] /\
  filter (fun e => is_sink e = true)
    (fst (pushData host None data dataset_has_open name done)) = [].
Proof.
  unfold pushData.
  destruct (match name with
            | Some n =>
                if negb (String.eqb n EmptyString) && dataset_has_open
                then Some n else None
            | None => None
            end) as [n |].
  - destruct (open_rejects host (rest_of done) n); simpl;
      repeat split; repeat constructor.
  - simpl. repeat split; repeat constructor.
Qed.



End Calls.

Section Facts.
Variable config : FetchBrainConfig.
Variable host : Host.
Variable originalHandler : Handler.
Variable context : RequestHandlerContext.
Variable aiResult : AIResult.

(** One call of the handler for a known URL on a context that carries no
    teaching function: no learn call. *)
Lemma perform_no_learn (a : Action) (usedAIData : bool) (done : list Effect) :
  known aiResult = true ->
  stale_teaches context = false ->
  no_learn (fst (snd (perform config host context aiResult a usedAIData done))).
Proof.
  intros Hk Hs. unfold stale_teaches in Hs.
  destruct a as [d | data o name |]; cbn [perform snd].
  - unfold call_context_pushData, installed, originalPushData, interceptor.
    destruct (context_pushData context) as [f |]; [| constructor].
    destruct (learning_not_false config); apply call_no_learn; [| exact Hs].
    cbn [teaches]. rewrite Hk, andb_false_r. exact Hs.
  - destruct (pushData_facts host
                (Some (requestContext config context aiResult)) data o name
                done) as (-> & _ & Hn & _).
    cbn [requestContext aiKnown learning_on]. rewrite Hk, andb_false_r.
    exact Hn.
  - unfold useAIData, originalPushData.
    destruct (data aiResult); [| constructor].
    destruct (context_pushData context) as [f |]; [| constructor].
    rewrite Hk. cbn [snd]. apply call_no_learn, Hs.
Qed.

Lemma exec_no_learn (s : Script) (usedAIData : bool) (done : list Effect) :
  known aiResult = true ->
  stale_teaches context = false ->
  no_learn (effects (exec config host context aiResult s usedAIData done)).
Proof.
  intros Hk Hs. revert usedAIData done.
  induction s as [| e | a next IH]; intros usedAIData done;
    [constructor | constructor |].
  cbn [exec].
  pose proof (perform_no_learn a usedAIData done Hk Hs) as Hp.
  destruct (perform config host context aiResult a usedAIData done)
    as [used [es settled]].
  cbn [effects]. simpl in Hp. apply no_learn_app; [exact Hp | apply IH].
Qed.

(** The effects of the handler's run hold no invocation of the handler. *)
Lemma exec_no_handler (s : Script) (usedAIData : bool) (done : list Effect) :
  filter (fun e => is_handler e = true)
    (effects (exec config host context aiResult s usedAIData done)) = [].
Proof.
  revert usedAIData done.
  induction s as [| e | a next IH]; intros usedAIData done;
    [reflexivity | reflexivity |].
  cbn [exec].
  assert (Hp : filter (fun e => is_handler e = true)
                 (fst (snd (perform config host context aiResult a
                              usedAIData done))) = []).
  { assert (Hc : forall tracked f dn d,
               filter (fun e => is_handler e = true)
                 (fst (call host tracked f dn d)) = []).
    { intros tracked f. induction f as [| u k used orig IHf]; intros dn d;
        [reflexivity |].
      cbn [call].
      specialize (IHf (dn ++ (if negb used && negb k
                              then [ClientLearn (currentUrl tracked u) d]
                              else [])) d).
      destruct (call host tracked orig _ d) as [es err]. simpl in *.
      rewrite filter_app, IHf. destruct (negb used && negb k); reflexivity. }
    destruct a as [d | data o name |]; cbn [perform snd].
    - unfold call_context_pushData.
      destruct (installed config context aiResult usedAIData);
        [apply Hc | reflexivity].
    - destruct (pushData_facts host
                  (Some (requestContext config context aiResult)) data o name
                  done) as (-> & _ & _ & Hh & _).
      rewrite filter_app, Hh, app_nil_r.
      destruct (learning_on _ && negb (aiKnown _)); [| reflexivity].
      generalize (items data). intros ds.
      induction ds as [| x ds IHd]; [reflexivity | exact IHd].
    - unfold useAIData. destruct (data aiResult); [| reflexivity].
      destruct (originalPushData context); [| reflexivity].
      destruct (known aiResult); [apply Hc | reflexivity]. }
  destruct (perform config host context aiResult a usedAIData done)
    as [used [es settled]].
  cbn [effects]. simpl in Hp. rewrite filter_app, Hp. apply IH.
Qed.

(** What the handler's run throws, its code threw. *)
Lemma exec_throws (s : Script) (usedAIData : bool) (done : list Effect)
    (e : Error) :
  error (exec config host context aiResult s usedAIData done) = Some e ->
  throws s e.
Proof.
  revert usedAIData done.
  induction s as [| e0 | a next IH]; intros usedAIData done; cbn [exec throws].
  - discriminate.
  - intros [= ->]. reflexivity.
  - destruct (perform config host context aiResult a usedAIData done)
      as [used [es settled]].
    cbn [error]. intros H. exists settled. exact (IH _ _ _ H).
Qed.

(** The run of a known request leaves no teaching function behind. *)
Lemma context_after_quiet :
  known aiResult = true ->
  stale_teaches context = false ->
  stale_teaches (context_after config host originalHandler context aiResult)
    = false.
Proof.
  intros Hk Hs. unfold context_after.
  destruct (known aiResult && data_truthy aiResult &&
            negb (shouldRunHandler (alwaysRun config) (request_label context)));
    [exact Hs |].
  unfold stale_teaches in *. cbn [context_pushData].
  unfold installed, originalPushData, interceptor.
  destruct (context_pushData context) as [f |]; [| reflexivity].
  destruct (learning_not_false config); [| exact Hs].
  cbn [teaches]. rewrite Hk, andb_false_r. exact Hs.
Qed.

Lemma known_request_quiet :
  known aiResult = true ->
  stale_teaches context = false ->
  no_learn (fst (wrappedHandler config host originalHandler context aiResult)).
Proof.
  intros Hk Hs. unfold wrappedHandler.
  destruct (known aiResult && data_truthy aiResult &&
            negb (shouldRunHandler (alwaysRun config) (request_label context))).
  - destruct (data aiResult); [| constructor].
    unfold originalPushData. unfold stale_teaches in Hs.
    destruct (context_pushData context); [| constructor].
    apply call_no_learn, Hs.
  - cbn [fst]. constructor; [reflexivity |].
    apply exec_no_learn; assumption.
Qed.

(** C2, as the code has it. With [alwaysRun] unset or [false] and a query
    result that is known and carries data, the wrapper does not invoke the
    original handler and hands the known data exactly once to what
    [context.pushData] holds, so that the host's function is called exactly
    once with it and no dataset is touched; the wrapper's call settles as
    that call of the host's function does, and what [context.pushData] and
    [requestContextMap] hold for the context is left as it was. On a
    context as the host makes it, with its own [pushData],
    that call is all that happens; without a [pushData] nothing happens. A
    known result without data does not take this path: the original
    handler is invoked. *)
Theorem known_data_skips_handler (d : Json) :
  alwaysRun config = ar_undefined \/ alwaysRun config = ar_boolean false ->
  known aiResult = true ->
  let out := wrappedHandler config host originalHandler context aiResult in
  (data aiResult = Some d ->
   (OriginalHandler ∉ fst out) /\
   context_after config host originalHandler context aiResult = context /\
   (has_pushData context = true ->
    rest_of (fst out) = [OriginalPushData d] /\
    filter (fun e => is_sink e = true) (fst out) = [OriginalPushData d] /\
    snd out = pushData_rejects host [] d) /\
   (context_pushData context = Some host_pushData ->
    out = ([OriginalPushData d], pushData_rejects host [] d)) /\
   (context_pushData context = None -> out = ([], None))) /\
  (data aiResult = None ->
   exists (es : list Effect) (err : option Error),
     out = (OriginalHandler :: es, err)).
Proof.
  intros Har Hk out.
  assert (Hrun : shouldRunHandler (alwaysRun config) (request_label context)
                 = false).
  { destruct Har as [-> | ->]; reflexivity. }
  split; intros Hd.
  - assert (Hout : out =
              match context_pushData context with
              | Some f => call host (tracked_url context) f [] d
              | None => ([], None)
              end).
    { unfold out, wrappedHandler, data_truthy, originalPushData.
      rewrite Hk, Hd, Hrun. reflexivity. }
    assert (Hrest : has_pushData context = true ->
              rest_of (fst out) = [OriginalPushData d] /\
              snd out = pushData_rejects host [] d).
    { unfold has_pushData. rewrite Hout.
      destruct (context_pushData context) as [f |]; [| discriminate].
      intros _.
      destruct (call_facts host (tracked_url context) f [] d)
        as (H1 & H2 & _).
      split; assumption. }
    split; [| split; [| split; [| split]]].
    + intros Hin. unfold has_pushData in Hrest. rewrite Hout in *.
      destruct (context_pushData context) as [f |];
        [| inversion Hin].
      destruct (Hrest eq_refl) as (Hr & _).
      assert (Hin' : OriginalHandler ∈
                rest_of (fst (call host (tracked_url context) f [] d))).
      { apply list_elem_of_filter. split; [reflexivity | exact Hin]. }
      rewrite Hr in Hin'. apply list_elem_of_singleton in Hin'. discriminate.
    + unfold context_after, data_truthy. rewrite Hk, Hd, Hrun. reflexivity.
    + intros Hp. destruct (Hrest Hp) as (Hr & He).
      split; [exact Hr | split; [| exact He]].
      assert (Hf : forall es : list Effect,
                 filter (fun e => is_sink e = true) es =
                 filter (fun e => is_sink e = true) (rest_of es)).
      { intros es. induction es as [| e es IH]; [reflexivity |].
        destruct e; rewrite ?filter_cons; simpl;
          repeat (destruct (decide _); try discriminate; try congruence);
          rewrite ?filter_cons; simpl;
          repeat (destruct (decide _); try discriminate; try congruence);
          try (f_equal; exact IH); exact IH. }
      rewrite Hf, Hr. reflexivity.
    + intros Hh. rewrite Hout, Hh. reflexivity.
    + intros Hn. rewrite Hout, Hn. reflexivity.
  - unfold out, wrappedHandler, data_truthy. rewrite Hk, Hd. simpl.
    eexists _, _. reflexivity.
Qed.

End Facts.

(** *** Instances *)

Lemma known_data_skips_handler_witness :
  (alwaysRun skipping = ar_undefined \/ alwaysRun skipping = ar_boolean false) /\
  known known_product = true /\
  data known_product = Some "{title: Known Product}" /\
  context_pushData product_page = Some host_pushData /\
  wrappedHandler skipping quiet busy_handler product_page known_product
    = ([OriginalPushData "{title: Known Product}"], None) /\
  wrappedHandler skipping sink_down busy_handler product_page known_product
    = ([OriginalPushData "{title: Known Product}"], Some "sink down").
Proof.
  assert (H1 : alwaysRun skipping = ar_undefined \/
               alwaysRun skipping = ar_boolean false) by (right; reflexivity).
  assert (H2 : known known_product = true) by reflexivity.
  assert (H3 : context_pushData product_page = Some host_pushData)
    by reflexivity.
  pose proof (known_data_skips_handler skipping quiet busy_handler
                product_page known_product "{title: Known Product}" H1 H2)
    as Hq.
  pose proof (known_data_skips_handler skipping sink_down busy_handler
                product_page known_product "{title: Known Product}" H1 H2)
    as Hs.
  cbv zeta in Hq, Hs.
  destruct Hq as (Hq & _). destruct (Hq eq_refl) as (_ & _ & _ & Hq' & _).
  destruct Hs as (Hs & _). destruct (Hs eq_refl) as (_ & _ & _ & Hs' & _).
  exact (conj H1 (conj H2 (conj eq_refl (conj H3
           (conj (Hq' H3) (Hs' H3)))))).
Defined.

(** C2, as stated, fails: with [alwaysRun = false] and a result that is
    known but carries no data, the original handler is invoked and nothing
    reaches the sink. *)
Lemma known_without_data_runs_handler :
  wrappedHandler skipping quiet idle_handler product_page known_no_data
    = ([OriginalHandler], None) /\
  ~ (forall (config : FetchBrainConfig) (host : Host)
            (originalHandler : Handler)
            (context : RequestHandlerContext) (aiResult : AIResult),
        alwaysRun config = ar_undefined \/ alwaysRun config = ar_boolean false ->
        known aiResult = true ->
        (OriginalHandler ∉
           fst (wrappedHandler config host originalHandler context aiResult)) /\
        (exists d : Json,
            filter (fun e => is_sink e = true)
              (fst (wrappedHandler config host originalHandler context
                      aiResult))
            = [OriginalPushData d])).
Proof.
  split; [reflexivity |].
  intros H.
  destruct (H skipping quiet idle_handler product_page known_no_data
              (or_intror eq_refl) eq_refl) as (Hnot & _).
  apply Hnot. simpl. apply list_elem_of_here.
Qed.

(** C1, as far as it holds, and where the code breaks it. A request whose
    result is known teaches nothing by itself: on a context that carries
    no teaching function of an earlier run, as a context made by the host
    does not, no effect of the wrapper is a [client.learn] call, whatever
    the handler does and however the host's functions settle, and the
    function the run leaves on [context.pushData] does not teach either.
    But the wrapper never takes its function off [context.pushData]: a
    context object that it has handled once while the URL was not known
    carries that run's function, and when the same object is handed in
    again and the URL is now known, a push through [context.pushData]
    reaches that function and is taught, and so is the push the wrapper
    makes itself when it answers from the AI data. *)
Theorem stale_interceptor_teaches_known_url :
  (forall (config : FetchBrainConfig) (host : Host)
          (originalHandler : Handler) (context : RequestHandlerContext)
          (aiResult : AIResult),
      known aiResult = true ->
      stale_teaches context = false ->
      no_learn (fst (wrappedHandler config host originalHandler context
                       aiResult)) /\
      stale_teaches (context_after config host originalHandler context
                       aiResult) = false) /\
  stale_teaches product_page = false /\
  known fallback_result = false /\
  handled_once =
    {| request_url := "https://example.com/known"; request_label := None;
       context_pushData :=
         Some (intercepting "https://example.com/known" false false
                 host_pushData);
       tracked_url := None |} /\
  stale_teaches handled_once = true /\
  known known_product = true /\
  wrappedHandler running quiet pushing_handler handled_once known_product =
    ([OriginalHandler;
      ClientLearn "https://example.com/known" "{title: Updated}";
      OriginalPushData "{title: Updated}"], None) /\
  wrappedHandler skipping quiet pushing_handler handled_once known_product =
    ([ClientLearn "https://example.com/known" "{title: Known Product}";
      OriginalPushData "{title: Known Product}"], None).
Proof.
  split.
  - intros config host originalHandler context aiResult Hk Hs.
    split; [apply known_request_quiet | apply context_after_quiet];
      assumption.
  - repeat split.
Qed.

End EnhanceProps.


(** ** Circuit breaker: what every sequence of calls keeps *)

Module CircuitBreakerInvariants.
Import CircuitBreaker.

Section Facts.
Variable config : CircuitBreakerConfig.

Lemma in_range_step (c : Call) (b : t) :
  1 <= failureThreshold config ->
  1 <= successThreshold config ->
  in_range config b -> in_range config (step config c b).
Proof.
  intros Hf Hs. destruct b as [s f u l]. unfold in_range. simpl.
  intros (H1 & H2 & H3 & H4 & H5).
  destruct c as [now | | now |];
    unfold step, isOpen, recordSuccess, recordFailure, reset; simpl;
    destruct s; simpl;
    try specialize (H3 eq_refl); try specialize (H4 eq_refl);
    try specialize (H5 ltac:(discriminate));
    repeat match goal with
           | |- context [Z.leb ?a ?b] => destruct (Z.leb_spec a b); simpl
           end;
    repeat split; intros; try discriminate; try congruence; try lia.
Qed.

(** X1. With thresholds of at least one, whatever calls have been made on a
    new breaker: both counters are non-negative; a closed breaker has fewer
    than [failureThreshold] failures counted and a success count of zero; a
    half-open one has fewer than [successThreshold] successes counted; one
    that is not closed has counted a failure. What [getStats()] reports
    obeys the same bounds. *)
Theorem reachable_counters_in_range (b : t) :
  1 <= failureThreshold config ->
  1 <= successThreshold config ->
  reachable config b ->
  0 <= stats_failures (getStats b) /\
  0 <= stats_successes (getStats b) /\
  (getState b = closed ->
   stats_failures (getStats b) < failureThreshold config /\
   stats_successes (getStats b) = 0) /\
  (getState b = half_open ->
   stats_successes (getStats b) < successThreshold config) /\
  (getState b <> closed -> 1 <= stats_failures (getStats b)).
Proof.
  intros Hf Hs [cs ->].
  change (in_range config (run config cs init)).
  assert (Hinit : in_range config init).
  { unfold in_range. simpl. repeat split; intros; try discriminate; try lia.
    congruence. }
  revert Hinit. generalize init.
  induction cs as [| c cs IH]; intros b Hb; [exact Hb |].
  simpl. apply IH, in_range_step; assumption.
Qed.

(** X2. [isOpen()] answers true exactly when the breaker is open after the
    call, asking again at the same time gives the same answer and changes
    nothing more, and the call never touches the failure count or the
    stamp. *)
Theorem isOpen_answer_is_state (now : Z) (b : t) :
  (fst (isOpen config now b) = true <->
   getState (snd (isOpen config now b)) = open) /\
  isOpen config now (snd (isOpen config now b)) = isOpen config now b /\
  failures (snd (isOpen config now b)) = failures b /\
  lastFailureTime (snd (isOpen config now b)) = lastFailureTime b.
Proof.
  destruct b as [s f u l]. unfold isOpen, getState. simpl.
  destruct s; simpl.
  - repeat split; intros; discriminate.
  - destruct (resetTimeout config <=? now - l) eqn:E; simpl.
    + repeat split; intros; discriminate.
    + rewrite E. repeat split; intros; reflexivity.
  - repeat split; intros; discriminate.
Qed.

(** X3. Which call can make which transition. A breaker becomes open only
    by [recordFailure()], half-open only by an [isOpen()] on an open
    breaker whose timeout has passed, and closed only by [reset()] or by a
    [recordSuccess()] on a half-open breaker. A [recordSuccess()] on an open
    breaker changes nothing, so a success that arrives late cannot close
    it. *)
Theorem transitions_by_call (c : Call) (b : t) :
  (getState (step config c b) = open -> getState b <> open ->
   exists now, c = RecordFailure now) /\
  (getState (step config c b) = half_open -> getState b <> half_open ->
   getState b = open /\
   exists now, c = IsOpen now /\
               resetTimeout config <= now - lastFailureTime b) /\
  (getState (step config c b) = closed -> getState b <> closed ->
   c = Reset \/ (c = RecordSuccess /\ getState b = half_open)) /\
  (getState b = open -> recordSuccess config b = b).
Proof.
  destruct b as [s f u l]. unfold getState.
  destruct c as [now | | now |];
    unfold step, isOpen, recordSuccess, recordFailure, reset; simpl;
    destruct s; simpl;
    repeat match goal with
           | |- context [Z.leb ?a ?b] => destruct (Z.leb_spec a b); simpl
           end;
    repeat split; intros; try discriminate; try congruence; eauto.
Qed.

End Facts.

Lemma reachable_counters_in_range_witness :
  1 <= failureThreshold DEFAULT_CONFIG /\
  1 <= successThreshold DEFAULT_CONFIG /\
  reachable DEFAULT_CONFIG three_failures /\
  1 <= stats_failures (getStats three_failures).
Proof.
  assert (H1 : 1 <= failureThreshold DEFAULT_CONFIG) by discriminate.
  assert (H2 : 1 <= successThreshold DEFAULT_CONFIG) by discriminate.
  assert (H3 : reachable DEFAULT_CONFIG three_failures).
  { exists (map RecordFailure ([1; 2] ++ [3])). reflexivity. }
  destruct (reachable_counters_in_range DEFAULT_CONFIG three_failures H1 H2 H3)
    as (_ & _ & _ & _ & Hopen).
  assert (H4 : getState three_failures <> closed) by discriminate.
  exact (conj H1 (conj H2 (conj H3 (Hopen H4)))).
Defined.

Lemma transitions_by_call_witness :
  getState (step DEFAULT_CONFIG (RecordFailure 5) trial_at_3) = open /\
  getState trial_at_3 <> open /\
  (exists now, RecordFailure 5 = RecordFailure now) /\
  recordSuccess DEFAULT_CONFIG opened_at_3 = opened_at_3.
Proof.
  assert (H1 : getState (step DEFAULT_CONFIG (RecordFailure 5) trial_at_3)
               = open) by reflexivity.
  assert (H2 : getState trial_at_3 <> open) by discriminate.
  destruct (transitions_by_call DEFAULT_CONFIG (RecordFailure 5) trial_at_3)
    as (Hopen & _).
  destruct (transitions_by_call DEFAULT_CONFIG RecordSuccess opened_at_3)
    as (_ & _ & _ & Hignored).
  exact (conj H1 (conj H2 (conj (Hopen H1 H2) (Hignored eq_refl)))).
Defined.

End CircuitBreakerInvariants.


(** ** Request batcher: what every sequence of events keeps *)

Module RequestBatcherInvariants.
Import Types RequestBatcher RequestBatcherProps.

Section Facts.
Variable config : BatchConfig.

(** *** Sizes *)

Lemma flush_resume_fields (k : nat)
    (outcome : Completion (gmap string AIResult)) (w : t) :
  queue (flush_resume config k outcome w) = queue w /\
  calls (flush_resume config k outcome w) = calls w /\
  nextPromise (flush_resume config k outcome w) = nextPromise w.
Proof.
  unfold flush_resume.
  destruct (list_find _ (suspended w)) as [[i [k' batch]] |];
    [| repeat split].
  destruct outcome; simpl; destruct (queue w) eqn:E; repeat split;
    simpl; auto.
Qed.

Lemma bounded_flush (w : t) :
  0 < maxSize config ->
  Z.of_nat (length (queue w)) <= maxSize config ->
  Forall (fun c => 1 <= Z.of_nat (length c) <= maxSize config) (calls w) ->
  bounded config (flush config w).
Proof.
  intros Hpos Hlen Hcalls. unfold bounded.
  rewrite flush_queue, flush_calls, length_drop.
  split; [lia |].
  destruct (queue w) as [| r q] eqn:Eq; [exact Hcalls |].
  apply Forall_app. split; [exact Hcalls |].
  constructor; [| constructor].
  rewrite length_map, length_take. simpl in *. lia.
Qed.

Lemma bounded_step (e : Event) (w : t) :
  0 < maxSize config -> bounded config w -> bounded config (step config e w).
Proof.
  intros Hpos [Hlen Hcalls]. destruct e as [u | h | k outcome |]; cbn [step].
  - unfold query.
    set (w1 := set_nextPromise _ _).
    assert (Hl1 : Z.of_nat (length (queue w1)) = Z.of_nat (length (queue w)) + 1).
    { unfold w1. simpl. rewrite length_app. simpl. lia. }
    destruct (Z.leb_spec (maxSize config) (Z.of_nat (length (queue w1))));
      cbn [snd].
    + apply bounded_flush; [assumption | lia | exact Hcalls].
    + destruct (flushTimeout w1); cbn [snd]; split; try assumption;
        exact Hcalls.
  - unfold timer_fires. destruct (bool_decide _); [| split; assumption].
    apply bounded_flush; simpl; [assumption | lia | exact Hcalls].
  - destruct (flush_resume_fields k outcome w) as (Hq & Hc & _).
    unfold bounded. rewrite Hq, Hc. split; assumption.
  - unfold bounded, clear.
    destruct (cancel_flushTimeout_fields w) as (_ & _ & Hc & _).
    simpl. rewrite Hc. split; [lia | exact Hcalls].
Qed.

(** X4. With a positive [maxSize], whatever has happened to a new batcher
    (queries, timers firing, executor calls settling, [clear()]), the queue
    holds fewer than [maxSize] requests, so [getQueueSize()] is below
    [maxSize], and every executor call made carried at least one and at
    most [maxSize] URLs. *)
Theorem queue_and_calls_bounded (w : t) :
  0 < maxSize config ->
  reachable config w ->
  0 <= getQueueSize w < maxSize config /\
  Forall (fun c => 1 <= Z.of_nat (length c) <= maxSize config) (calls w).
Proof.
  intros Hpos [es ->].
  assert (Hb : bounded config (run config es init)).
  { assert (Hinit : bounded config init) by (split; [simpl; lia | constructor]).
    revert Hinit. generalize init.
    induction es as [| e es IH]; intros w Hw; [exact Hw |].
    simpl. apply IH, bounded_step; assumption. }
  destruct Hb as [Hlen Hcalls]. unfold getQueueSize.
  split; [lia | exact Hcalls].
Qed.

(** *** Arrival order *)

Lemma order_flush (w : t) :
  concat (calls (flush config w)) ++ map url (queue (flush config w))
  = concat (calls w) ++ map url (queue w).
Proof.
  rewrite flush_queue, flush_calls.
  destruct (queue w) as [| r q] eqn:Eq; [rewrite drop_nil; reflexivity |].
  rewrite concat_app. simpl. rewrite app_nil_r, <- app_assoc, <- map_app.
  rewrite take_drop. reflexivity.
Qed.

Lemma order_step (e : Event) (w : t) :
  no_clear e = true ->
  concat (calls (step config e w)) ++ map url (queue (step config e w))
  = (concat (calls w) ++ map url (queue w)) ++ queried [e].
Proof.
  intros He. destruct e as [u | h | k outcome |]; try discriminate;
    cbn [step queried].
  - unfold query. set (w1 := set_nextPromise _ _).
    assert (H1 : concat (calls w1) ++ map url (queue w1)
                 = (concat (calls w) ++ map url (queue w)) ++ [u]).
    { unfold w1. simpl. rewrite map_app, app_assoc. reflexivity. }
    destruct (maxSize config <=? Z.of_nat (length (queue w1))); cbn [snd].
    + rewrite order_flush. exact H1.
    + destruct (flushTimeout w1); cbn [snd]; exact H1.
  - rewrite app_nil_r. unfold timer_fires.
    destruct (bool_decide _); [| reflexivity].
    rewrite order_flush. reflexivity.
  - rewrite app_nil_r.
    destruct (flush_resume_fields k outcome w) as (-> & -> & _). reflexivity.
Qed.

(** X5. As long as [clear()] is not called, the URLs handed to the executor,
    call after call, followed by the URLs still queued, are the URLs
    queried, in the order of the queries: no URL is dropped, repeated or
    reordered, whatever [maxSize] is and however timers and executor calls
    interleave with the queries. *)
Theorem calls_keep_arrival_order (es : list Event) (w : t) :
  forallb no_clear es = true ->
  concat (calls (run config es w)) ++ map url (queue (run config es w))
  = (concat (calls w) ++ map url (queue w)) ++ queried es.
Proof.
  revert w. induction es as [| e es IH]; intros w Hes.
  - simpl. rewrite app_nil_r. reflexivity.
  - simpl in Hes. apply andb_prop in Hes as [He Hes].
    cbn [run]. rewrite (IH _ Hes), (order_step e w He).
    rewrite <- !app_assoc. f_equal. f_equal.
    destruct e; reflexivity.
Qed.

(** *** A burst smaller than a batch *)

(** Queries that join a queue with room left, under an armed timer, only
    lengthen the queue. *)
Lemma queries_join (urls : list string) (w : t) (h : nat) :
  flushTimeout w = Some h ->
  Z.of_nat (length (queue w)) + Z.of_nat (length urls) < maxSize config ->
  calls (run config (map Query urls) w) = calls w /\
  map url (queue (run config (map Query urls) w)) = map url (queue w) ++ urls /\
  flushTimeout (run config (map Query urls) w) = Some h /\
  timers (run config (map Query urls) w) = timers w.
Proof.
  revert w. induction urls as [| u urls IH]; intros w Hh Hroom.
  - simpl. rewrite app_nil_r. auto.
  - cbn [map run step]. unfold query.
    set (w1 := set_nextPromise _ _).
    assert (Hl1 : Z.of_nat (length (queue w1)) = Z.of_nat (length (queue w)) + 1).
    { unfold w1. simpl. rewrite length_app. simpl. lia. }
    simpl length in Hroom.
    destruct (Z.leb_spec (maxSize config) (Z.of_nat (length (queue w1))));
      [lia |].
    change (flushTimeout w1) with (flushTimeout w). rewrite Hh. cbn [snd].
    destruct (IH w1) as (H1 & H2 & H3 & H4); [exact Hh | lia |].
    rewrite H1, H2, H3, H4. unfold w1. simpl.
    rewrite map_app, <- app_assoc. auto.
Qed.

(** X6. Fewer than [maxSize] queries arriving at an idle batcher cause no
    executor call by themselves; they arm one timer of [maxWait], with the
    first of them, and wait in the queue in arrival order. When that timer
    fires the executor is called once, with exactly those URLs in that
    order, and the queue is empty. *)
Theorem small_burst_one_call (w : t) (u : string) (urls : list string) :
  queue w = [] ->
  flushTimeout w = None ->
  Z.of_nat (length (u :: urls)) < maxSize config ->
  let w' := run config (map Query (u :: urls)) w in
  let fired := timer_fires config (nextTimer w) w' in
  calls w' = calls w /\
  map url (queue w') = u :: urls /\
  flushTimeout w' = Some (nextTimer w) /\
  timers w' = timers w ++ [(nextTimer w, maxWait config)] /\
  calls fired = calls w ++ [u :: urls] /\
  queue fired = [] /\
  flushTimeout fired = None.
Proof.
  intros Hq Hn Hlen w' fired.
  assert (Hfirst : step config (Query u) w =
            schedule_flush config
              (set_nextPromise (S (nextPromise w))
                 (set_queue [{| url := u; promise := nextPromise w |}] w))).
  { cbn [step]. unfold query. rewrite Hq. simpl length in Hlen.
    match goal with |- context [Z.leb ?a ?b] =>
      destruct (Z.leb_spec a b) as [Hge | Hlt] end.
    - simpl in Hge. lia.
    - simpl. rewrite Hn. reflexivity. }
  set (w1 := step config (Query u) w) in *.
  destruct (queries_join urls w1 (nextTimer w)) as (H1 & H2 & H3 & H4).
  { rewrite Hfirst. reflexivity. }
  { rewrite Hfirst. simpl length in *. simpl. lia. }
  assert (Hw' : w' = run config (map Query urls) w1) by reflexivity.
  assert (Hc : calls w' = calls w).
  { rewrite Hw', H1, Hfirst. reflexivity. }
  assert (Hu : map url (queue w') = u :: urls).
  { rewrite Hw', H2, Hfirst. reflexivity. }
  assert (Hf : flushTimeout w' = Some (nextTimer w)).
  { rewrite Hw', H3. reflexivity. }
  assert (Ht : timers w' = timers w ++ [(nextTimer w, maxWait config)]).
  { rewrite Hw', H4, Hfirst. reflexivity. }
  assert (Hwait : waiting config w').
  { unfold waiting. split; [| split].
    - rewrite <- (length_map url), Hu. exact Hlen.
    - intros h Hh. rewrite Hf in Hh. injection Hh as <-. rewrite Ht.
      apply elem_of_app. right. apply list_elem_of_singleton. reflexivity.
    - intros _. rewrite Hf. eexists. reflexivity. }
  assert (Hne : queue w' <> []).
  { intros E. rewrite E in Hu. discriminate. }
  destruct (timer_flushes_rest config w' (nextTimer w) Hwait Hne Hf)
    as (F1 & F2 & F3).
  fold fired in F1, F2, F3.
  rewrite F1, Hc, Hu. auto 10.
Qed.

(** *** Every promise is accounted for *)

Lemma accounted_perm (w w' : t) :
  pending w' ≡ₚ pending w ->
  nextPromise w' = nextPromise w ->
  settled w' = settled w ->
  accounted w -> accounted w'.
Proof.
  intros Hp Hn Hs [H1 H2]. split.
  - rewrite Hs. exact H1.
  - intros p Hlt. rewrite Hp, Hs. apply H2. rewrite <- Hn. exact Hlt.
Qed.

Lemma accounted_settle (w w' : t) (done : list nat) :
  consistent w ->
  pending w ≡ₚ done ++ pending w' ->
  map fst (settled w') = map fst (settled w) ++ done ->
  nextPromise w' = nextPromise w ->
  accounted w -> accounted w'.
Proof.
  intros Hw Hp Hs Hn [H1 H2].
  pose proof (pending_NoDup w Hw) as Hnd. rewrite Hp in Hnd.
  apply NoDup_app in Hnd as (Hdone & _ & _).
  split.
  - rewrite Hs. apply NoDup_app. split; [exact H1 | split; [| exact Hdone]].
    intros p Hin Hin'. apply (settled_done w Hw p Hin).
    rewrite Hp. apply elem_of_app. left. exact Hin'.
  - intros p Hlt. rewrite Hn in Hlt. rewrite Hs.
    destruct (H2 p Hlt) as [Hin | Hin].
    + rewrite Hp in Hin. apply elem_of_app in Hin as [Hin | Hin].
      * right. apply elem_of_app. right. exact Hin.
      * left. exact Hin.
    + right. apply elem_of_app. left. exact Hin.
Qed.

Lemma pending_flush (w : t) : pending (flush config w) ≡ₚ pending w.
Proof.
  assert (Hcancel : pending (cancel_flushTimeout w) = pending w).
  { unfold pending, cancel_flushTimeout. destruct (flushTimeout w); reflexivity. }
  destruct (queue w) as [| r q] eqn:Eq.
  - rewrite flush_empty by assumption. rewrite Hcancel. reflexivity.
  - rewrite flush_nonempty by congruence. cbv zeta.
    set (n := Z.to_nat (maxSize config)).
    unfold pending. simpl. rewrite batch_promises_app.
    rewrite <- (take_drop n (queue w)) at 3. rewrite map_app.
    unfold batch_promises at 2. simpl. rewrite app_nil_r.
    rewrite (Permutation_app_comm (map promise (take n (queue w)))).
    rewrite <- !app_assoc.
    apply Permutation_app_head, Permutation_app_comm.
Qed.

Lemma flush_nextPromise (w : t) : nextPromise (flush config w) = nextPromise w.
Proof.
  unfold flush, cancel_flushTimeout.
  destruct (flushTimeout w); simpl; destruct (queue w); reflexivity.
Qed.

Lemma accounted_flush (w : t) : accounted w -> accounted (flush config w).
Proof.
  apply accounted_perm;
    [apply pending_flush | apply flush_nextPromise | apply flush_settled].
Qed.

Lemma accounted_step (e : Event) (w : t) :
  consistent w -> accounted w -> accounted (step config e w).
Proof.
  intros Hw Ha. destruct e as [u | h | k outcome |]; cbn [step].
  - (* query *)
    unfold query.
    set (w1 := set_nextPromise _ _).
    assert (Ha1 : accounted w1).
    { destruct Ha as [H1 H2]. split; [exact H1 |].
      intros p Hlt. unfold w1 in *. simpl in Hlt. unfold pending. simpl.
      rewrite map_app. simpl.
      destruct (decide (p = nextPromise w)) as [-> | Hne].
      - left. rewrite !elem_of_app, list_elem_of_singleton. auto.
      - destruct (H2 p ltac:(lia)) as [Hin | Hin]; [left | right; exact Hin].
        unfold pending in Hin. rewrite !elem_of_app.
        apply elem_of_app in Hin as [Hin | Hin]; auto. }
    destruct (maxSize config <=? Z.of_nat (length (queue w1))); cbn [snd].
    + apply accounted_flush, Ha1.
    + destruct (flushTimeout w1); cbn [snd]; [exact Ha1 |].
      revert Ha1. apply accounted_perm; reflexivity.
  - (* a timer fires *)
    unfold timer_fires. destruct (bool_decide _); [| exact Ha].
    apply accounted_flush. revert Ha. apply accounted_perm; reflexivity.
  - (* an executor call settles *)
    destruct (list_find (fun p => fst p = k) (suspended w))
      as [[i [k' batch]] |] eqn:Efind.
    + assert (k' = k) as ->.
      { apply list_find_suspended in Efind. simpl in Efind. congruence. }
      rewrite (flush_resume_at config k outcome w i batch Efind). cbv zeta.
      match goal with |- accounted (match _ with [] => ?w2 | _ => _ end) =>
        assert (Ha2 : accounted w2)
      end.
      { apply (accounted_settle w _ (map promise batch)); simpl;
          try assumption; try reflexivity.
        - unfold pending. simpl.
          rewrite (batch_promises_split (suspended w) k i batch
                     (keys_NoDup w Hw) Efind).
          apply Permutation_app_swap_app.
        - rewrite map_app. f_equal.
          destruct outcome; unfold resolve_all, reject_all;
            rewrite map_map; reflexivity. }
      destruct (queue w); [exact Ha2 |].
      revert Ha2. apply accounted_perm; reflexivity.
    + unfold flush_resume. rewrite Efind. exact Ha.
  - (* clear *)
    assert (Hcancel : accounted (cancel_flushTimeout w)).
    { revert Ha. apply accounted_perm; unfold pending, cancel_flushTimeout;
        destruct (flushTimeout w); reflexivity. }
    unfold clear.
    apply (accounted_settle (cancel_flushTimeout w) _
             (map promise (queue (cancel_flushTimeout w)))); simpl;
      try reflexivity; try assumption.
    + apply consistent_cancel, Hw.
    + rewrite map_app, map_map. reflexivity.
Qed.

Lemma run_nextPromise (es : list Event) (w : t) :
  nextPromise (run config es w)
  = (nextPromise w + length (queried es))%nat.
Proof.
  revert w. induction es as [| e es IH]; intros w; [simpl; lia |].
  cbn [run]. rewrite IH. destruct e as [u | h | k outcome |]; cbn [step queried].
  - unfold query. set (w1 := set_nextPromise _ _).
    destruct (maxSize config <=? Z.of_nat (length (queue w1))); cbn [snd].
    + rewrite flush_nextPromise. unfold w1. simpl. lia.
    + destruct (flushTimeout w1); cbn [snd]; unfold w1; simpl; lia.
  - unfold timer_fires. destruct (bool_decide _); [| lia].
    rewrite flush_nextPromise. simpl. lia.
  - destruct (flush_resume_fields k outcome w) as (_ & _ & ->). lia.
  - unfold clear, cancel_flushTimeout. destruct (flushTimeout w); simpl; lia.
Qed.

(** X7. Whatever has happened to a new batcher, the promises it has handed
    out are numbered by the queries made; [resolve] or [reject] has been
    called at most once on each, and each is either settled or still held
    in the queue or by a flush that waits for its executor call, never both.
    So once the queue is empty and no executor call is outstanding, every
    query made has an outcome. *)
Theorem every_promise_accounted (es : list Event) :
  let w := run config es init in
  nextPromise w = length (queried es) /\
  NoDup (map fst (settled w)) /\
  (forall p, (p < length (queried es))%nat ->
     (p ∈ pending w /\ outcome_of p w = None) \/
     ((p ∉ pending w) /\ is_Some (outcome_of p w))) /\
  (queue w = [] -> suspended w = [] ->
   forall p, (p < length (queried es))%nat -> is_Some (outcome_of p w)).
Proof.
  intros w.
  assert (Hc : consistent w)
    by (apply (reachable_consistent config); exists es; reflexivity).
  assert (Ha : accounted w).
  { unfold w. clear w Hc.
    assert (Hinit : consistent init /\ accounted init).
    { split; [apply consistent_init |]. split; [constructor |].
      intros p Hlt. simpl in Hlt. lia. }
    revert Hinit. generalize init.
    induction es as [| e es IH]; intros w [Hw Ha]; [exact Ha |].
    cbn [run]. apply IH. split;
      [apply consistent_step, Hw | apply accounted_step; assumption]. }
  assert (Hn : nextPromise w = length (queried es)).
  { unfold w. rewrite run_nextPromise. reflexivity. }
  assert (Hsome : forall p, p ∈ map fst (settled w) -> is_Some (outcome_of p w)).
  { intros p. unfold outcome_of. generalize (settled w).
    induction l as [| [q c] l IHl]; intros Hin.
    - apply elem_of_nil in Hin. contradiction.
    - cbn [first_settlement]. destruct (decide (q = p)); [eexists; reflexivity |].
      apply IHl. cbn [map fst] in Hin. apply elem_of_cons in Hin as [-> | Hin];
        [congruence | exact Hin]. }
  assert (Hnone : forall p, p ∉ map fst (settled w) -> outcome_of p w = None).
  { intros p. unfold outcome_of. generalize (settled w).
    induction l as [| [q c] l IHl]; intros Hnotin; [reflexivity |].
    cbn [first_settlement]. rewrite decide_False.
    - apply IHl. intros Hin. apply Hnotin. cbn [map fst].
      apply list_elem_of_further, Hin.
    - intros ->. apply Hnotin. cbn [map fst]. apply list_elem_of_here. }
  destruct Ha as [Hnd Hall].
  split; [exact Hn | split; [exact Hnd | split]].
  - intros p Hlt. rewrite <- Hn in Hlt.
    destruct (Hall p Hlt) as [Hin | Hin].
    + left. split; [exact Hin |]. apply Hnone.
      apply pending_unsettled; assumption.
    + right. split; [| apply Hsome, Hin].
      apply (settled_done w Hc p Hin).
  - intros Hq Hs p Hlt. rewrite <- Hn in Hlt.
    destruct (Hall p Hlt) as [Hin | Hin]; [| apply Hsome, Hin].
    unfold pending in Hin. rewrite Hq, Hs in Hin. simpl in Hin.
    apply elem_of_nil in Hin. contradiction.
Qed.

(** *** Teardown twice *)

(** X8. [clear()] leaves the batcher as a new one is, with an empty queue
    and no timer recorded, so queries made afterwards are batched as from
    the start; calling it again changes nothing and settles nobody. *)
Theorem clear_twice (w : t) (u : string) :
  clear (clear w) = clear w /\
  queue (clear w) = [] /\
  flushTimeout (clear w) = None /\
  (1 < maxSize config ->
   map url (queue (snd (query config u (clear w)))) = [u] /\
   calls (snd (query config u (clear w))) = calls w /\
   flushTimeout (snd (query config u (clear w))) = Some (nextTimer w)).
Proof.
  destruct (cancel_flushTimeout_fields w) as (Hq & Hn & Hc & Hs & Hse & Ht).
  assert (Hq' : queue (clear w) = []) by reflexivity.
  assert (Hn' : flushTimeout (clear w) = None) by (unfold clear; simpl; exact Hn).
  split; [| split; [exact Hq' | split; [exact Hn' |]]].
  - assert (Hcancel : cancel_flushTimeout (clear w) = clear w).
    { unfold cancel_flushTimeout. rewrite Hn'. reflexivity. }
    unfold clear at 1. rewrite Hcancel, Hq'. cbn [map]. rewrite app_nil_r.
    reflexivity.
  - intros Hsize. unfold query. rewrite Hq'.
    match goal with |- context [Z.leb ?a ?b] =>
      destruct (Z.leb_spec a b) as [Hge | Hlt] end.
    + simpl in Hge. lia.
    + simpl. rewrite Hn. simpl. rewrite Hc.
      unfold cancel_flushTimeout. destruct (flushTimeout w); auto.
Qed.

End Facts.

(** *** Instances *)

Lemma queue_and_calls_bounded_witness :
  0 < maxSize pairs /\
  reachable pairs two_in_flight /\
  0 <= getQueueSize two_in_flight < maxSize pairs /\
  Forall (fun c => 1 <= Z.of_nat (length c) <= maxSize pairs)
    (calls two_in_flight).
Proof.
  assert (H1 : 0 < maxSize pairs) by reflexivity.
  assert (H2 : reachable pairs two_in_flight)
    by (exists three_queries; reflexivity).
  exact (conj H1 (conj H2 (queue_and_calls_bounded pairs two_in_flight H1 H2))).
Defined.

Lemma calls_keep_arrival_order_witness :
  forallb no_clear three_queries = true /\
  concat (calls (run pairs three_queries init)) ++
    map url (queue (run pairs three_queries init))
  = (concat (calls init) ++ map url (queue init)) ++ queried three_queries.
Proof.
  assert (H1 : forallb no_clear three_queries = true) by reflexivity.
  exact (conj H1 (calls_keep_arrival_order pairs three_queries init H1)).
Defined.

Lemma small_burst_one_call_witness :
  queue init = [] /\
  flushTimeout init = None /\
  Z.of_nat (length ["a"]) < maxSize pairs /\
  calls (timer_fires pairs (nextTimer init)
           (run pairs (map Query ["a"]) init)) = calls init ++ [["a"]].
Proof.
  assert (H1 : queue init = []) by reflexivity.
  assert (H2 : flushTimeout init = None) by reflexivity.
  assert (H3 : Z.of_nat (length ["a"]) < maxSize pairs) by reflexivity.
  pose proof (small_burst_one_call pairs init "a" [] H1 H2 H3) as H.
  cbv zeta in H. destruct H as (_ & _ & _ & _ & H & _).
  exact (conj H1 (conj H2 (conj H3 H))).
Defined.

Lemma every_promise_accounted_witness :
  nextPromise (run pairs three_queries init) = length (queried three_queries) /\
  NoDup (map fst (settled (run pairs three_queries init))).
Proof.
  pose proof (every_promise_accounted pairs three_queries) as H.
  cbv zeta in H. destruct H as (H1 & H2 & _).
  exact (conj H1 H2).
Defined.

Lemma clear_twice_witness :
  1 < maxSize pairs /\
  clear (clear two_in_flight) = clear two_in_flight /\
  map url (queue (snd (query pairs "d" (clear two_in_flight)))) = ["d"].
Proof.
  assert (H1 : 1 < maxSize pairs) by reflexivity.
  destruct (clear_twice pairs two_in_flight "d") as (Hc & _ & _ & H).
  destruct (H H1) as (Hq & _).
  exact (conj H1 (conj Hc Hq)).
Defined.

End RequestBatcherInvariants.


(** ** API client: bulk queries, statistics, telemetry, tripping *)

Module FetchBrainClientBulk.
Import Types FetchBrainClient.

(** A [Map] filled by [set] in a loop holds, for each key, the value of the
    last element that set it. *)
Lemma lookup_fold_insert {A V : Type} (f : A -> string) (g : A -> V)
    (l : list A) (m : gmap string V) (k : string) :
  fold_left (fun (m : gmap string V) a => <[f a := g a]> m) l m !! k =
  match last (filter (fun a => f a = k) l) with
  | Some a => Some (g a)
  | None => m !! k
  end.
Proof.
  revert m. induction l as [| a l IH]; intros m; [reflexivity |].
  cbn [fold_left]. rewrite IH, filter_cons.
  destruct (decide (f a = k)) as [Hk | Hk].
  - rewrite last_cons.
    destruct (last (filter (fun a0 => f a0 = k) l)); [reflexivity |].
    rewrite Hk. apply lookup_insert_eq.
  - destruct (last (filter (fun a0 => f a0 = k) l)); [reflexivity |].
    apply lookup_insert_ne. exact Hk.
Qed.

Lemma last_filter_None {A : Type} (P : A -> Prop) `{!forall a, Decision (P a)}
    (l : list A) :
  last (filter P l) = None <-> forall a, a ∈ l -> ~ P a.
Proof.
  rewrite last_None. split.
  - intros E a Hin HP.
    assert (Hf : a ∈ filter P l) by (apply list_elem_of_filter; auto).
    rewrite E in Hf. apply elem_of_nil in Hf. exact Hf.
  - intros Hall. destruct (filter P l) as [| a fl] eqn:E; [reflexivity |].
    assert (Hf : a ∈ filter P l) by (rewrite E; apply list_elem_of_here).
    apply list_elem_of_filter in Hf as [HP Hin]. destruct (Hall a Hin HP).
Qed.

Lemma last_filter_Some {A : Type} (P : A -> Prop) `{!forall a, Decision (P a)}
    (l : list A) (a : A) :
  last (filter P l) = Some a -> a ∈ l /\ P a.
Proof.
  intros E. assert (Hf : a ∈ filter P l).
  { apply last_Some in E as [l' E]. rewrite E. apply elem_of_app. right.
    apply list_elem_of_here. }
  apply list_elem_of_filter in Hf as [HP Hin]. auto.
Qed.

(** The fallback map has the fallback result for the URLs asked and
    nothing else. *)
Lemma fallback_map_lookup (urls : list string) (u : string) :
  fallback_map urls !! u =
  if decide (u ∈ urls) then Some fallback_result else None.
Proof.
  unfold fallback_map.
  rewrite (lookup_fold_insert (fun u => u) (fun _ => fallback_result)).
  destruct (last (filter (fun a => a = u) urls)) as [a |] eqn:E.
  - apply last_filter_Some in E as [Hin ->].
    rewrite decide_True by exact Hin. reflexivity.
  - rewrite decide_False; [apply lookup_empty |].
    intros Hin. exact (proj1 (last_filter_None _ _) E u Hin eq_refl).
Qed.

(** X9. The result map of a batch query. A URL the response lists as unknown
    maps to [{ known: false }], also when the response lists it as known
    too; any other URL maps to the data and confidence of the last known
    item the response has for it; a URL the response does not mention is
    not in the map. *)
Theorem collect_results_lookup (response : QueryResponse) (u : string) :
  (u ∈ response_unknown response ->
   collect_results response !! u = Some unknown_result) /\
  (u ∉ response_unknown response ->
   forall item : QueryResultItem,
     last (filter (fun i => item_url i = u) (response_known response))
       = Some item ->
     collect_results response !! u = Some (known_result item)) /\
  (u ∉ response_unknown response ->
   (forall item, item ∈ response_known response -> item_url item <> u) ->
   collect_results response !! u = None).
Proof.
  unfold collect_results.
  rewrite (lookup_fold_insert (fun u => u) (fun _ => unknown_result)).
  rewrite (lookup_fold_insert item_url known_result).
  destruct (last (filter (fun a => a = u) (response_unknown response)))
    as [a |] eqn:E.
  - apply last_filter_Some in E as [Hin ->].
    split; [reflexivity | split]; intros Hnot; contradiction.
  - pose proof (proj1 (last_filter_None _ _) E) as Hnone.
    split; [| split].
    + intros Hin. destruct (Hnone u Hin eq_refl).
    + intros _ item ->. reflexivity.
    + intros _ Hall.
      destruct (last (filter (fun i => item_url i = u)
                        (response_known response))) as [item |] eqn:Ek.
      * apply last_filter_Some in Ek as [Hin Hu]. destruct (Hall item Hin Hu).
      * apply lookup_empty.
Qed.

Section Facts.
Variable settings : Settings.

(** X10. [queryBulk] never throws. With the circuit open it returns at once,
    without a request, a map that has the fallback result for exactly the
    URLs asked. Otherwise it awaits one request for those URLs; when that
    succeeds it returns the collected results and the breaker records one
    success; when it fails the breaker records one failure and the result
    is again the fallback for exactly the URLs asked. *)
Theorem queryBulk_contains_failures
    (c : t) (now later : Z) (urls : list string) (u : string)
    (s : Completion QueryResponse) :
  let opened :=
    fst (CircuitBreaker.isOpen breakerConfig now (circuitBreaker c)) in
  (exists (st : Step (gmap string AIResult) QueryRequest) (c' : t),
      queryBulk settings now urls c = (Returns st, c') /\
      batcher c' = batcher c /\ requests c' = requests c /\
      (opened = true -> st = Done (fallback_map urls)) /\
      (opened = false ->
       exists request, st = Awaits request /\ request_urls request = urls)) /\
  (exists (m : gmap string AIResult) (c' : t),
      queryBulk_resume later urls s c = (Returns m, c') /\
      batcher c' = batcher c /\
      (forall response, s = Returns response ->
         m = collect_results response /\
         circuitBreaker c' =
           CircuitBreaker.recordSuccess breakerConfig (circuitBreaker c)) /\
      (forall error, s = Throws error ->
         m = fallback_map urls /\
         circuitBreaker c' =
           CircuitBreaker.recordFailure breakerConfig later (circuitBreaker c))) /\
  (u ∈ urls -> fallback_map urls !! u = Some fallback_result) /\
  (u ∉ urls -> fallback_map urls !! u = None).
Proof.
  intros opened. subst opened.
  split; [| split; [| split]].
  - unfold queryBulk, bind, isOpen, ret.
    destruct (CircuitBreaker.isOpen breakerConfig now (circuitBreaker c))
      as [o b] eqn:Eo.
    destruct o; simpl; eexists _, _; (split; [reflexivity |]);
      repeat split; intros; try discriminate; eauto.
  - unfold queryBulk_resume, executeBatchQuery_resume, try_, bind, await,
      recordSuccess, recordFailure, throw, ret.
    destruct s as [response | error]; simpl; eexists _, _;
      (split; [reflexivity |]); (split; [reflexivity |]);
      split; intros ? [= <-]; auto.
  - intros Hin. rewrite fallback_map_lookup, decide_True by exact Hin.
    reflexivity.
  - intros Hnot. rewrite fallback_map_lookup, decide_False by exact Hnot.
    reflexivity.
Qed.

(** X11. [stats] never throws: with the circuit open it returns [null] at
    once; a request that succeeds is recorded as a success and its response
    returned; one that fails is recorded as a failure and [null] returned.
    [sendTelemetry] never throws either and returns at once, posting
    nothing, when telemetry is disabled or there are no entries; it never
    asks the circuit breaker and never tells it anything, so telemetry is
    posted with the circuit open and a failed post is not counted. *)
Theorem stats_and_telemetry_contained
    (c : t) (now later : Z) (entries : list Json)
    (s : Completion StatsResponse) (s' : Completion Json) :
  let opened :=
    fst (CircuitBreaker.isOpen breakerConfig now (circuitBreaker c)) in
  (exists (st : Step (option StatsResponse) unit) (c' : t),
      stats now c = (Returns st, c') /\
      (opened = true -> st = Done None) /\
      (opened = false -> st = Awaits tt)) /\
  (exists (r : option StatsResponse) (c' : t),
      stats_resume later s c = (Returns r, c') /\
      (forall response, s = Returns response ->
         r = Some response /\
         circuitBreaker c' =
           CircuitBreaker.recordSuccess breakerConfig (circuitBreaker c)) /\
      (forall error, s = Throws error ->
         r = None /\
         circuitBreaker c' =
           CircuitBreaker.recordFailure breakerConfig later (circuitBreaker c))) /\
  (exists st : Step unit (list Json),
      sendTelemetry settings entries c = (Returns st, c) /\
      (telemetry_enabled settings = false \/ entries = [] -> st = Done tt) /\
      (telemetry_enabled settings = true -> entries <> [] ->
       st = Awaits entries)) /\
  sendTelemetry_resume s' c = (Returns tt, c).
Proof.
  intros opened. subst opened.
  split; [| split; [| split]].
  - unfold stats, bind, isOpen, ret.
    destruct (CircuitBreaker.isOpen breakerConfig now (circuitBreaker c))
      as [o b] eqn:Eo.
    destruct o; simpl; eexists _, _; (split; [reflexivity |]);
      split; intros; try discriminate; reflexivity.
  - unfold stats_resume, try_, bind, await, recordSuccess, recordFailure, ret.
    destruct s as [response | error]; simpl; eexists _, _;
      (split; [reflexivity |]); split; intros ? [= <-]; auto.
  - unfold sendTelemetry, ret.
    destruct (telemetry_enabled settings); simpl.
    + destruct entries as [| e entries]; simpl; eexists;
        (split; [reflexivity |]); split; intros; try reflexivity;
        try congruence.
      destruct H; discriminate.
    + eexists. split; [reflexivity |]. split; intros; [reflexivity |].
      discriminate.
  - unfold sendTelemetry_resume, try_, bind, await, ret.
    destruct s'; reflexivity.
Qed.

(** Whatever request fails, the client only tells the breaker. *)
Lemma failed_breaker (now : Z) (call : BackendCall) (error : Error) (c : t) :
  circuitBreaker (failed now call error c) =
    CircuitBreaker.recordFailure breakerConfig now (circuitBreaker c) /\
  requests (failed now call error c) = requests c /\
  config (failed now call error c) = config c.
Proof. destruct call; repeat split. Qed.

(** X12. Three requests to the backend that fail one after the other on a
    client whose breaker is closed with no failure counted, whichever
    methods made them ([learn], [stats], [queryBulk] or a batch of
    [query]), open the circuit. Until 30 seconds have passed since the
    last of them, [query], [learn], [stats] and [queryBulk] answer at once
    with their fallback and leave the batcher, the breaker and the requests
    alone. After 30 seconds, or after [resetCircuit()], [query] hands the
    URL to the batcher again. *)
Theorem three_failures_trip
    (JSON_stringify : string -> Json -> Completion string)
    (c : t) (k1 k2 k3 : BackendCall) (e1 e2 e3 : Error)
    (t1 t2 t3 now : Z) (u : string) (d : Json) (urls : list string) :
  CircuitBreaker.state (circuitBreaker c) = CircuitBreaker.closed ->
  CircuitBreaker.failures (circuitBreaker c) = 0 ->
  let c3 := failed t3 k3 e3 (failed t2 k2 e2 (failed t1 k1 e1 c)) in
  CircuitBreaker.stats_state (getCircuitState c3) = CircuitBreaker.open /\
  (now - t3 < 30000 ->
   fst (query now u c3) = Returns (Done fallback_result) /\
   fst (learn JSON_stringify now u d c3) = Returns (Done rejected_response) /\
   fst (stats now c3) = Returns (Done None) /\
   fst (queryBulk settings now urls c3) = Returns (Done (fallback_map urls)) /\
   batcher (snd (query now u c3)) = batcher c3 /\
   circuitBreaker (snd (query now u c3)) = circuitBreaker c3 /\
   requests (snd (learn JSON_stringify now u d c3)) = requests c3) /\
  (30000 <= now - t3 ->
   exists p, fst (query now u c3) = Returns (Awaits p)) /\
  (exists p, fst (query now u (resetCircuit c3)) = Returns (Awaits p)).
Proof.
  intros Hc Hf c3.
  set (b := circuitBreaker c) in *.
  assert (Hb3 : circuitBreaker c3 =
            CircuitBreaker.set_state CircuitBreaker.open
              (CircuitBreaker.set_lastFailureTime t3
                 (CircuitBreaker.set_failures 3
                    (CircuitBreaker.set_lastFailureTime t2
                       (CircuitBreaker.set_failures 2
                          (CircuitBreaker.set_lastFailureTime t1
                             (CircuitBreaker.set_failures 1 b))))))).
  { unfold c3.
    destruct (failed_breaker t3 k3 e3 (failed t2 k2 e2 (failed t1 k1 e1 c)))
      as (-> & _).
    destruct (failed_breaker t2 k2 e2 (failed t1 k1 e1 c)) as (-> & _).
    destruct (failed_breaker t1 k1 e1 c) as (-> & _). fold b.
    rewrite (CircuitBreakerProps.recordFailure_below breakerConfig t1 b);
      [| exact Hc | rewrite Hf; reflexivity].
    rewrite Hf.
    rewrite (CircuitBreakerProps.recordFailure_below breakerConfig t2);
      [| exact Hc | reflexivity].
    rewrite (CircuitBreakerProps.recordFailure_reaches breakerConfig t3);
      [| exact Hc | discriminate].
    reflexivity. }
  assert (Hearly : now - t3 < 30000 ->
            CircuitBreaker.isOpen breakerConfig now (circuitBreaker c3)
            = (true, circuitBreaker c3)).
  { intros Hnow. apply CircuitBreakerProps.isOpen_open_early;
      rewrite Hb3; [reflexivity | exact Hnow]. }
  split; [| split; [| split]].
  - unfold getCircuitState. rewrite Hb3. reflexivity.
  - intros Hnow. specialize (Hearly Hnow).
    unfold query, learn, stats, queryBulk, bind, isOpen, get_config, ret.
    rewrite Hearly. simpl.
    destruct (learning (config c3)); simpl; rewrite ?Hearly; simpl;
      repeat split.
  - intros Hlate.
    assert (Hl : CircuitBreaker.isOpen breakerConfig now (circuitBreaker c3)
                 = (false,
                    CircuitBreaker.set_successes 0
                      (CircuitBreaker.set_state CircuitBreaker.half_open
                         (circuitBreaker c3)))).
    { apply CircuitBreakerProps.isOpen_open_late;
        rewrite Hb3; [reflexivity | exact Hlate]. }
    unfold query, bind, isOpen, batcher_query, ret. rewrite Hl. simpl.
    destruct (RequestBatcher.query batchConfig u (batcher c3)) as [p bw].
    exists p. reflexivity.
  - unfold query, bind, isOpen, batcher_query, ret, resetCircuit. simpl.
    destruct (RequestBatcher.query batchConfig u (batcher c3)) as [p bw].
    exists p. reflexivity.
Qed.

(** X13. What [query(url)] returns in the end for a request that is in the
    batch of executor call [k], once the backend has answered that call:
    the entry of the collected results for its URL, [{ known: false }] when
    the response does not mention the URL, and
    [{ known: false, fallback: true }] when the call failed. The breaker
    records one success or one failure for the whole batch. *)
Theorem query_answer
    (c : t) (now : Z) (k i : nat) (batch : list RequestBatcher.PendingRequest)
    (r : RequestBatcher.PendingRequest) (s : Completion QueryResponse) :
  RequestBatcher.reachable batchConfig (batcher c) ->
  list_find (fun p => fst p = k) (RequestBatcher.suspended (batcher c))
    = Some (i, (k, batch)) ->
  r ∈ batch ->
  let c' := batch_settles now k s c in
  exists o : Completion AIResult,
    RequestBatcher.outcome_of (RequestBatcher.promise r) (batcher c') = Some o /\
    fst (query_resume o c') =
      Returns
        match s with
        | Returns response =>
            match collect_results response !! RequestBatcher.url r with
            | Some result => result
            | None => unknown_result
            end
        | Throws _ => fallback_result
        end /\
    circuitBreaker c' =
      match s with
      | Returns _ =>
          CircuitBreaker.recordSuccess breakerConfig (circuitBreaker c)
      | Throws _ =>
          CircuitBreaker.recordFailure breakerConfig now (circuitBreaker c)
      end.
Proof.
  intros Hreach Hfind Hin c'.
  apply RequestBatcherProps.reachable_consistent in Hreach.
  destruct (RequestBatcherProps.suspended_pending (batcher c) k i batch
              Hreach Hfind) as (Hnd & Hpend).
  assert (Hfresh : RequestBatcher.promise r
                   ∉ map fst (RequestBatcher.settled (batcher c))).
  { apply RequestBatcherProps.pending_unsettled; [exact Hreach |].
    apply Hpend, Hin. }
  assert (Hsettled : forall outcome,
            RequestBatcher.settled
              (RequestBatcher.flush_resume batchConfig k outcome (batcher c))
            = RequestBatcher.settled (batcher c) ++
              match outcome with
              | Returns results => RequestBatcher.resolve_all results batch
              | Throws error => RequestBatcher.reject_all error batch
              end).
  { intros outcome.
    rewrite (RequestBatcherProps.flush_resume_at batchConfig k outcome
               (batcher c) i batch Hfind). cbv zeta.
    destruct (RequestBatcher.queue (batcher c)); reflexivity. }
  unfold c', batch_settles, executeBatchQuery_resume, try_, bind, await,
    recordSuccess, recordFailure, throw, ret.
  destruct s as [response | error]; simpl;
    unfold RequestBatcher.outcome_of; rewrite Hsettled;
    rewrite RequestBatcherProps.first_settlement_skip by exact Hfresh.
  - exists (Returns
              match collect_results response !! RequestBatcher.url r with
              | Some result => result
              | None => unknown_result
              end).
    split; [| split; reflexivity].
    unfold RequestBatcher.resolve_all.
    rewrite <- (app_nil_r (map _ batch)).
    apply (RequestBatcherProps.first_settlement_fanout
             (fun r' => Returns
                match collect_results response !! RequestBatcher.url r' with
                | Some result => result
                | None => unknown_result
                end)); assumption.
  - exists (Throws error).
    split; [| split; reflexivity].
    unfold RequestBatcher.reject_all.
    rewrite <- (app_nil_r (map _ batch)).
    apply (RequestBatcherProps.first_settlement_fanout
             (fun _ => Throws error)); assumption.
Qed.

End Facts.

(** *** Instances *)

Lemma collect_results_lookup_witness :
  "b" ∈ response_unknown a_is_known /\
  collect_results a_is_known !! "b" = Some unknown_result.
Proof.
  assert (H1 : "b" ∈ response_unknown a_is_known) by apply list_elem_of_here.
  destruct (collect_results_lookup a_is_known "b") as (H & _).
  exact (conj H1 (H H1)).
Defined.

Lemma queryBulk_contains_failures_witness :
  "a" ∈ ["a"; "b"] /\
  fallback_map ["a"; "b"] !! "a" = Some fallback_result.
Proof.
  assert (H1 : "a" ∈ ["a"; "b"]) by apply list_elem_of_here.
  pose proof (queryBulk_contains_failures defaults tripped 0 0 ["a"; "b"] "a"
                (Throws "down")) as H.
  cbv zeta in H. destruct H as (_ & _ & H & _).
  exact (conj H1 (H H1)).
Defined.

Lemma stats_and_telemetry_contained_witness :
  telemetry_enabled defaults = true /\
  ["{}"] <> [] /\
  exists st : Step unit (list Json),
    sendTelemetry defaults ["{}"] tripped = (Returns st, tripped) /\
    st = Awaits ["{}"].
Proof.
  assert (H1 : telemetry_enabled defaults = true) by reflexivity.
  assert (H2 : ["{}"] <> ([] : list Json)) by discriminate.
  pose proof (stats_and_telemetry_contained defaults tripped 0 0 ["{}"]
                (Throws "down") (Throws "down")) as H.
  cbv zeta in H. destruct H as (_ & _ & (st & Hs & _ & H) & _).
  exact (conj H1 (conj H2 (ex_intro _ st (conj Hs (H H1 H2))))).
Defined.

Lemma three_failures_trip_witness :
  CircuitBreaker.state
    (circuitBreaker (init {| learning := true; extractForLearning := None |}))
    = CircuitBreaker.closed /\
  CircuitBreaker.failures
    (circuitBreaker (init {| learning := true; extractForLearning := None |}))
    = 0 /\
  CircuitBreaker.stats_state
    (getCircuitState
       (failed 2 (BulkCall ["a"]) "down"
          (failed 1 StatsCall "down"
             (failed 0 LearnCall "down"
                (init {| learning := true; extractForLearning := None |})))))
    = CircuitBreaker.open.
Proof.
  assert (H1 : CircuitBreaker.state
                 (circuitBreaker
                    (init {| learning := true; extractForLearning := None |}))
               = CircuitBreaker.closed) by reflexivity.
  assert (H2 : CircuitBreaker.failures
                 (circuitBreaker
                    (init {| learning := true; extractForLearning := None |}))
               = 0) by reflexivity.
  pose proof (three_failures_trip defaults refuses_cycle
                (init {| learning := true; extractForLearning := None |})
                LearnCall StatsCall (BulkCall ["a"]) "down" "down" "down"
                0 1 2 10 "a" "{}" ["a"] H1 H2) as H.
  cbv zeta in H. destruct H as (H & _).
  exact (conj H1 (conj H2 H)).
Defined.

Lemma query_answer_witness :
  RequestBatcher.reachable batchConfig (batcher asked_a) /\
  list_find (fun p => fst p = O) (RequestBatcher.suspended (batcher asked_a))
    = Some (O, (O, [{| RequestBatcher.url := "a";
                       RequestBatcher.promise := O |}])) /\
  exists o : Completion AIResult,
    RequestBatcher.outcome_of O
      (batcher (batch_settles 7 O (Returns a_is_known) asked_a)) = Some o /\
    fst (query_resume o (batch_settles 7 O (Returns a_is_known) asked_a)) =
      Returns
        match collect_results a_is_known !! "a" with
        | Some result => result
        | None => unknown_result
        end.
Proof.
  assert (H1 : RequestBatcher.reachable batchConfig (batcher asked_a)).
  { exists [RequestBatcher.Query "a"; RequestBatcher.TimerFires 0].
    reflexivity. }
  assert (H2 : list_find (fun p => fst p = O)
                 (RequestBatcher.suspended (batcher asked_a))
               = Some (O, (O, [{| RequestBatcher.url := "a";
                                  RequestBatcher.promise := O |}])))
    by (vm_compute; reflexivity).
  assert (H3 : {| RequestBatcher.url := "a"; RequestBatcher.promise := O |}
               ∈ [{| RequestBatcher.url := "a"; RequestBatcher.promise := O |}])
    by apply list_elem_of_here.
  pose proof (query_answer asked_a 7 O O _ _ (Returns a_is_known) H1 H2 H3)
    as H.
  cbv zeta in H. cbn [RequestBatcher.url RequestBatcher.promise] in H.
  destruct H as (o & Ho & Hq & _).
  exact (conj H1 (conj H2 (ex_intro _ o (conj Ho Hq)))).
Defined.

End FetchBrainClientBulk.


(** ** Logger *)

Module LoggerProps.
Import Types Logger.

(** X14. A logger method makes at most one console call, on the console
    method of its own level, with the text ["[FetchBrain] " ++ message] and
    the arguments as given. It makes the call exactly when the logger is
    enabled and the method's level is not below the minimum level, so a
    level that is logged stays logged for every higher level, a disabled
    logger is silent, and a logger made with both arguments left out logs
    [info] and above but not [debug]. *)
Theorem logger_threshold
    (minLevel : option LogLevel) (enabled : option bool)
    (level level' : LogLevel) (message : string) (args : list Json) :
  let l := createLogger minLevel enabled in
  (method l level message args =
     [{| console_method := level;
         console_text := "[FetchBrain] " ++ message;
         console_args := args |}] \/
   method l level message args = []) /\
  (method l level message args <> [] <->
   enabled <> Some false /\
   LOG_LEVELS (default info minLevel) <= LOG_LEVELS level) /\
  (method l level message args <> [] ->
   LOG_LEVELS level <= LOG_LEVELS level' ->
   method l level' message args <> []) /\
  (method (createLogger None None) debug message args = [] /\
   method (createLogger None None) info message args <> [] /\
   method (createLogger None None) error message args <> []).
Proof.
  intros l.
  assert (Hm : forall lv, method l lv message args =
                 emit (default info minLevel) (default true enabled) lv
                   message args)
    by (intros []; reflexivity).
  assert (Hiff : forall lv,
             method l lv message args <> [] <->
             enabled <> Some false /\
             LOG_LEVELS (default info minLevel) <= LOG_LEVELS lv).
  { intros lv. rewrite Hm. unfold emit, shouldLog.
    destruct enabled as [[|] |]; simpl;
      try destruct (Z.leb_spec (LOG_LEVELS (default info minLevel))
                      (LOG_LEVELS lv));
      split; try (intros [H1 H2]); try intros H; try discriminate;
      try congruence; try lia; try (split; [discriminate | assumption]). }
  split; [| split; [| split]].
  - rewrite Hm. unfold emit.
    destruct (shouldLog _ _ level); [left; reflexivity | right; reflexivity].
  - apply Hiff.
  - intros Hlog Hle. apply Hiff. apply Hiff in Hlog as [H1 H2].
    split; [exact H1 | lia].
  - repeat split; discriminate.
Qed.

Lemma logger_threshold_witness :
  method (createLogger (Some warn) None) warn "slow" [] <> [] /\
  LOG_LEVELS warn <= LOG_LEVELS error /\
  method (createLogger (Some warn) None) error "slow" [] <> [].
Proof.
  assert (H1 : method (createLogger (Some warn) None) warn "slow" [] <> [])
    by discriminate.
  assert (H2 : LOG_LEVELS warn <= LOG_LEVELS error) by discriminate.
  pose proof (logger_threshold (Some warn) None warn error "slow" []) as H.
  cbv zeta in H. destruct H as (_ & _ & H & _).
  exact (conj H1 (conj H2 (H H1 H2))).
Defined.

End LoggerProps.

(** ** Telemetry buffer *)

Module TelemetryBufferProps.
Import Types TelemetryBuffer.

Lemma flush_fields (w : t) :
  buffer (snd (flush w)) = [] /\
  maxSize (snd (flush w)) = maxSize w /\
  flushCallback (snd (flush w)) = flushCallback w /\
  ticking (snd (flush w)) = ticking w /\
  delivered (snd (flush w)) =
    match buffer w with
    | [] => delivered w
    | _ :: _ =>
        if flushCallback w then delivered w ++ [buffer w] else delivered w
    end.
Proof.
  unfold flush. destruct (buffer w) as [| e b] eqn:E.
  - simpl. rewrite E. repeat split; reflexivity.
  - simpl. destruct (flushCallback w) eqn:F; simpl; rewrite ?F;
      repeat split; reflexivity.
Qed.

Lemma step_config (e : Event) (w : t) :
  maxSize (step e w) = maxSize w /\
  flushCallback (step e w) = flushCallback w.
Proof.
  destruct e as [[x |] | | |]; unfold step, add, tick, stop;
    try (split; reflexivity).
  - destruct (_ <=? _); [| split; reflexivity].
    destruct (flush_fields (set_buffer (buffer w ++ [x]) w)) as (_ & -> & -> & _).
    split; reflexivity.
  - destruct (flush_fields w) as (_ & -> & -> & _). split; reflexivity.
  - destruct (ticking w); [| split; reflexivity].
    destruct (flush_fields w) as (_ & -> & -> & _). split; reflexivity.
  - destruct (flush_fields (set_ticking false w)) as (_ & -> & -> & _).
    split; reflexivity.
Qed.

Lemma contents_flush (w : t) :
  flushCallback w = true -> contents (snd (flush w)) = contents w.
Proof.
  intros Hcb. unfold contents.
  destruct (flush_fields w) as (-> & _ & _ & _ & ->).
  destruct (buffer w) as [| e b]; [reflexivity |].
  rewrite Hcb, concat_app. simpl. rewrite !app_nil_r. reflexivity.
Qed.

Lemma contents_step (e : Event) (w : t) :
  flushCallback w = true ->
  contents (step e w) = contents w ++ added [e].
Proof.
  intros Hcb. destruct e as [[x |] | | |]; unfold step, add, tick, stop; cbn [added];
    rewrite ?app_nil_r; try reflexivity.
  - assert (H1 : contents (set_buffer (buffer w ++ [x]) w) = contents w ++ [x]).
    { unfold contents. simpl. rewrite app_assoc. reflexivity. }
    destruct (_ <=? _); [| exact H1].
    rewrite contents_flush by exact Hcb. exact H1.
  - apply contents_flush, Hcb.
  - destruct (ticking w); [| reflexivity]. apply contents_flush, Hcb.
  - rewrite contents_flush by exact Hcb. reflexivity.
Qed.

Lemma run_config (es : list Event) (w : t) :
  maxSize (run es w) = maxSize w /\
  flushCallback (run es w) = flushCallback w.
Proof.
  revert w. induction es as [| e es IH]; intros w; [split; reflexivity |].
  cbn [run]. destruct (IH (step e w)) as (-> & ->). apply step_config.
Qed.

(** X15. With a flush callback, whatever is done to a new buffer (entries
    added, [null] added, flushes, timer ticks, [stop()]), the entries given
    to the callback, call after call, followed by the entries still
    buffered, are the entries added, in order: none is lost, repeated or
    reordered. Without a callback nothing is ever delivered. *)
Theorem entries_conserved (options : Options) (es : list Event) :
  let w := run es (new options) in
  (onFlush options = true ->
   concat (delivered w) ++ buffer w = added es) /\
  (onFlush options = false -> delivered w = []).
Proof.
  intros w. split.
  - intros Hcb.
    assert (H : forall es w0, flushCallback w0 = true ->
                contents (run es w0) = contents w0 ++ added es).
    { clear. induction es as [| e es IH]; intros w0 Hcb.
      - simpl. rewrite app_nil_r. reflexivity.
      - cbn [run]. rewrite IH by (destruct (step_config e w0) as (_ & ->);
                                  exact Hcb).
        rewrite contents_step by exact Hcb. rewrite <- app_assoc.
        f_equal. destruct e as [[x |] | | |]; reflexivity. }
    exact (H es (new options) Hcb).
  - intros Hcb.
    assert (H : forall es w0, flushCallback w0 = false -> delivered w0 = [] ->
                delivered (run es w0) = []).
    { clear. induction es as [| e es IH]; intros w0 Hcb Hd; [exact Hd |].
      cbn [run]. apply IH; [destruct (step_config e w0) as (_ & ->); exact Hcb |].
      assert (Hf : forall w1, flushCallback w1 = false -> delivered w1 = [] ->
                     delivered (snd (flush w1)) = []).
      { intros w1 Hcb1 Hd1. destruct (flush_fields w1) as (_ & _ & _ & _ & ->).
        rewrite Hcb1. destruct (buffer w1); exact Hd1. }
      destruct e as [[x |] | | |]; unfold step, add, tick, stop; try exact Hd.
      - destruct (_ <=? _); [apply Hf |]; assumption.
      - apply Hf; assumption.
      - destruct (ticking w0); [apply Hf |]; assumption.
      - apply Hf; assumption. }
    exact (H es (new options) Hcb eq_refl).
Qed.

Lemma within_flush (w : t) :
  0 < maxSize w ->
  Z.of_nat (length (buffer w)) <= maxSize w ->
  Forall (fun b => 1 <= Z.of_nat (length b) <= maxSize w) (delivered w) ->
  within (snd (flush w)).
Proof.
  intros Hpos Hlen Hd. unfold within.
  destruct (flush_fields w) as (-> & -> & _ & _ & ->).
  split; [simpl; lia |].
  destruct (buffer w) as [| e b] eqn:E; [exact Hd |].
  destruct (flushCallback w); [| exact Hd].
  apply Forall_app. split; [exact Hd |].
  constructor; [| constructor]. simpl in *. lia.
Qed.

Lemma within_step (e : Event) (w : t) :
  0 < maxSize w -> within w -> within (step e w).
Proof.
  intros Hpos [Hlen Hd].
  destruct e as [[x |] | | |]; unfold step, add, tick, stop;
    try (split; assumption).
  - set (w1 := set_buffer (buffer w ++ [x]) w).
    assert (Hl1 : Z.of_nat (length (buffer w1)) = Z.of_nat (length (buffer w)) + 1).
    { unfold w1. simpl. rewrite length_app. simpl. lia. }
    change (maxSize w1) with (maxSize w).
    destruct (Z.leb_spec (maxSize w) (Z.of_nat (length (buffer w1)))).
    + apply (within_flush w1); simpl; [exact Hpos | | exact Hd].
      change (buffer w ++ [x]) with (buffer w1). lia.
    + split; [exact H | exact Hd].
  - apply within_flush; [exact Hpos | lia | exact Hd].
  - destruct (ticking w); [| split; assumption].
    apply within_flush; [exact Hpos | lia | exact Hd].
  - apply (within_flush (set_ticking false w)); simpl;
      [exact Hpos | lia | exact Hd].
Qed.

(** X16. With a size limit of at least one (the default is 50), whatever is
    done to a new buffer, [size] stays below the limit, because the [add]
    that reaches it flushes at once, and every call of the flush callback
    got at least one entry and at most the limit. *)
Theorem buffer_below_limit (options : Options) (es : list Event) :
  1 <= default 50 (options_maxSize options) ->
  let w := run es (new options) in
  0 <= size w < default 50 (options_maxSize options) /\
  Forall (fun b => 1 <= Z.of_nat (length b)
                     <= default 50 (options_maxSize options))
    (delivered w).
Proof.
  intros Hmax w.
  assert (H : forall es w0, 0 < maxSize w0 -> within w0 -> within (run es w0)).
  { clear. induction es as [| e es IH]; intros w0 Hpos Hw; [exact Hw |].
    cbn [run]. apply IH; [destruct (step_config e w0) as (-> & _); exact Hpos |].
    apply within_step; assumption. }
  assert (Hw : within w).
  { apply H; [simpl; lia |]. split; [simpl; lia | constructor]. }
  destruct Hw as [Hlen Hd]. unfold w in *.
  destruct (run_config es (new options)) as (Hm & _).
  rewrite Hm in Hlen, Hd. simpl in Hlen, Hd.
  unfold size. split; [lia | exact Hd].
Qed.

(** X17. [stop()] clears the interval and leaves the buffer empty, handing
    what was buffered to the callback in one call; timer ticks do nothing
    afterwards. A flush of an empty buffer returns no entries and does not
    call the callback, and a callback that fails does not make [flush]
    throw: it still returns the entries, which are not put back. *)
Theorem stop_flushes_rest (w : t) (s : Completion unit) :
  buffer (stop w) = [] /\
  ticking (stop w) = false /\
  tick (stop w) = stop w /\
  (flushCallback w = true -> buffer w <> [] ->
   delivered (stop w) = delivered w ++ [buffer w]) /\
  (buffer w = [] -> flush w = ([], w)) /\
  flush_resume (fst (flush w)) s = Returns (buffer w) /\
  buffer (snd (flush w)) = [].
Proof.
  unfold stop, tick.
  destruct (flush_fields (set_ticking false w)) as (Hb & _ & _ & Ht & Hd).
  destruct (flush_fields w) as (Hb' & _).
  simpl in Ht, Hd.
  split; [exact Hb | split; [exact Ht | split; [rewrite Ht; reflexivity |]]].
  split; [| split; [| split; [| exact Hb']]].
  - intros Hcb Hne. rewrite Hd, Hcb. destruct (buffer w); [congruence | reflexivity].
  - intros He. unfold flush. rewrite He. reflexivity.
  - unfold flush, flush_resume. destruct (buffer w) eqn:E;
      [destruct s; reflexivity |].
    simpl. destruct (flushCallback w); destruct s; reflexivity.
Qed.

(** *** Instances *)

Lemma entries_conserved_witness :
  onFlush reporting = true /\
  concat (delivered (run some_events (new reporting))) ++
    buffer (run some_events (new reporting)) = added some_events.
Proof.
  assert (H1 : onFlush reporting = true) by reflexivity.
  pose proof (entries_conserved reporting some_events) as H.
  cbv zeta in H. destruct H as (H & _).
  exact (conj H1 (H H1)).
Defined.

Lemma buffer_below_limit_witness :
  1 <= default 50 (options_maxSize reporting) /\
  0 <= size (run some_events (new reporting))
    < default 50 (options_maxSize reporting).
Proof.
  assert (H1 : 1 <= default 50 (options_maxSize reporting)) by discriminate.
  pose proof (buffer_below_limit reporting some_events H1) as H.
  cbv zeta in H. destruct H as (H & _).
  exact (conj H1 H).
Defined.

Lemma stop_flushes_rest_witness :
  flushCallback (run [Add (Some "a")] (new reporting)) = true /\
  buffer (run [Add (Some "a")] (new reporting)) <> [] /\
  delivered (stop (run [Add (Some "a")] (new reporting))) =
    delivered (run [Add (Some "a")] (new reporting)) ++
    [buffer (run [Add (Some "a")] (new reporting))].
Proof.
  assert (H1 : flushCallback (run [Add (Some "a")] (new reporting)) = true)
    by reflexivity.
  assert (H2 : buffer (run [Add (Some "a")] (new reporting)) <> [])
    by discriminate.
  destruct (stop_flushes_rest (run [Add (Some "a")] (new reporting))
              (Returns tt)) as (_ & _ & _ & H & _).
  exact (conj H1 (conj H2 (H H1 H2))).
Defined.

End TelemetryBufferProps.


(** ** Handler wrapper: further properties *)

Module EnhanceWrapper.
Import Types Enhance EnhanceProps.

(** X18. [alwaysRun] given as one label behaves as the array of that label;
    an array makes the handler run exactly for the requests whose label,
    or ["default"] for a request without one, is in the array; and a
    request without a label, one with the empty label and one labelled
    ["default"] are treated alike, whatever [alwaysRun] is. *)
Theorem alwaysRun_matches_label
    (a : AlwaysRun) (s : string) (l : list string) (label : option string) :
  shouldRunHandler (ar_string s) label = shouldRunHandler (ar_array [s]) label /\
  (shouldRunHandler (ar_array l) label = true <->
   label_or_default label ∈ l) /\
  shouldRunHandler a None = shouldRunHandler a (Some "default") /\
  shouldRunHandler a (Some EmptyString) = shouldRunHandler a (Some "default").
Proof.
  split; [reflexivity | split; [| split]].
  - unfold shouldRunHandler, includes. rewrite existsb_exists. split.
    + intros (x & Hin & Heq). apply String.eqb_eq in Heq. subst x.
      apply list_elem_of_In. exact Hin.
    + intros Hin. exists (label_or_default label).
      split; [apply list_elem_of_In; exact Hin | apply String.eqb_refl].
  - destruct a as [| [|] | |]; reflexivity.
  - destruct a as [| [|] | |]; reflexivity.
Qed.

Section Facts.
Variable host : Host.
Variable originalHandler : Handler.
Variable context : RequestHandlerContext.
Variable aiResult : AIResult.

(** X19. The wrapper invokes the original handler at most once for a
    request, before anything else it does, and it invokes it unless the
    result is known, carries data and [alwaysRun] does not select the
    request; in particular the handler always runs for an unknown URL and
    for a known one whose answer carries no data. When it answers from the
    AI data instead, it does not invoke the handler, calls the host's
    [pushData] at most once, leaves what [context.pushData] and
    [requestContextMap] hold for the context as it was, and throws exactly
    when that call rejects, with the error of the rejection. *)
Theorem handler_runs_unless_answered (config : FetchBrainConfig) :
  let out := wrappedHandler config host originalHandler context aiResult in
  (skips config context aiResult = false ->
   exists es : list Effect,
     fst out = OriginalHandler :: es /\
     filter (fun e => is_handler e = true) es = []) /\
  (skips config context aiResult = true ->
   (OriginalHandler ∉ fst out) /\
   (length (rest_of (fst out)) <= 1)%nat /\
   context_after config host originalHandler context aiResult = context /\
   (forall e : Error,
       snd out = Some e <->
       has_pushData context = true /\
       exists d : Json,
         data aiResult = Some d /\ pushData_rejects host [] d = Some e)) /\
  (known aiResult = false \/ data aiResult = None ->
   skips config context aiResult = false) /\
  (skips config context aiResult = true <->
   known aiResult = true /\ data aiResult <> None /\
   shouldRunHandler (alwaysRun config) (request_label context) = false).
Proof.
  intros out. unfold out, wrappedHandler, context_after.
  change (known aiResult && data_truthy aiResult &&
          negb (shouldRunHandler (alwaysRun config) (request_label context)))
    with (skips config context aiResult).
  split; [| split; [| split]].
  - intros ->. eexists. split; [reflexivity |]. apply exec_no_handler.
  - intros Hs. rewrite Hs. unfold originalPushData, has_pushData.
    assert (Hd : data aiResult <> None).
    { unfold skips, data_truthy in Hs. destruct (data aiResult);
        [discriminate |]. rewrite andb_false_r in Hs. discriminate. }
    destruct (data aiResult) as [d |]; [clear Hd | congruence].
    destruct (context_pushData context) as [f |].
    + destruct (call_facts host (tracked_url context) f [] d)
        as (H1 & H2 & _).
      split; [| split; [rewrite H1; simpl; lia | split; [reflexivity |]]].
      * intros Hin.
        assert (Hin' : OriginalHandler ∈
                  rest_of (fst (call host (tracked_url context) f [] d))).
        { apply list_elem_of_filter. split; [reflexivity | exact Hin]. }
        rewrite H1 in Hin'. apply list_elem_of_singleton in Hin'.
        discriminate.
      * intros e. rewrite H2. simpl. split.
        -- intros He. split; [reflexivity |]. exists d. auto.
        -- intros (_ & d' & [= <-] & He). exact He.
    + split; [intros Hin; inversion Hin |].
      split; [simpl; lia | split; [reflexivity |]].
      intros e. simpl. split; [discriminate | intros [? _]; discriminate].
  - unfold skips, data_truthy. intros [-> | ->]; [reflexivity |].
    apply andb_false_iff. left. apply andb_false_r.
  - unfold skips, data_truthy. rewrite !andb_true_iff, negb_true_iff.
    destruct (data aiResult); split;
      intros [[H1 H2] H3] || intros (H1 & H2 & H3);
      try discriminate; try congruence; repeat split; auto; discriminate.
Qed.









(** A handler without a [try] whose calls all go through goes on as what
    follows them. *)
Lemma exec_straight (config : FetchBrainConfig) (pre : list Action)
    (rest : Script) (usedAIData : bool) (done : list Effect) :
  let o1 := exec config host context aiResult (straight pre Return)
              usedAIData done in
  let o2 := exec config host context aiResult rest (usedAIData_after o1)
              (done ++ effects o1) in
  error o1 = None ->
  exec config host context aiResult (straight pre rest) usedAIData done =
    {| effects := effects o1 ++ effects o2; error := error o2;
       usedAIData_after := usedAIData_after o2;
       made := made o1 ++ made o2 |}.
Proof.
  revert usedAIData done.
  induction pre as [| a pre IH]; intros usedAIData done; cbn zeta.
  - intros _. cbn [straight exec effects usedAIData_after made].
    rewrite app_nil_r. cbn [app].
    destruct (exec config host context aiResult rest usedAIData done).
    reflexivity.
  - cbn [straight exec].
    destruct (perform config host context aiResult a usedAIData done)
      as [used [es [e |]]].
    + cbn [exec error]. discriminate.
    + cbn [effects error usedAIData_after made]. intros Hnone.
      specialize (IH used (done ++ es)). cbn zeta in IH.
      rewrite (IH Hnone). rewrite <- !app_assoc. reflexivity.
Qed.

(** A call of the handler rejects only because a function of the host
    rejected, or because the context has no [pushData] to call. *)
Lemma exec_rejections (config : FetchBrainConfig) (s : Script)
    (usedAIData : bool) (done : list Effect) (a : Action) (e : Error) :
  (a, Some e) ∈ made (exec config host context aiResult s usedAIData done) ->
  host_rejects host e \/
  (context_pushData context = None /\
   (exists d, a = ContextPushData d) /\
   e = "TypeError: context.pushData is not a function").
Proof.
  revert usedAIData done.
  induction s as [| e0 | a0 next IH]; intros usedAIData done;
    cbn [exec made]; [intros H; inversion H | intros H; inversion H |].
  assert (Hp : forall e1,
             snd (snd (perform config host context aiResult a0 usedAIData
                         done)) = Some e1 ->
             host_rejects host e1 \/
             (context_pushData context = None /\
              (exists d, a0 = ContextPushData d) /\
              e1 = "TypeError: context.pushData is not a function")).
  { intros e1. destruct a0 as [d | data o name |]; cbn [perform snd].
    - unfold call_context_pushData, installed, originalPushData.
      destruct (context_pushData context) as [f |].
      + destruct (learning_not_false config);
          match goal with
          | |- snd (call host ?t ?g ?dn ?x) = _ -> _ =>
              destruct (call_facts host t g dn x) as (_ & -> & _)
          end; intros H; left; left; eauto.
      + simpl. intros [= <-]. right. split; [reflexivity |].
        split; [exists d; reflexivity | reflexivity].
    - unfold pushData.
      destruct (match name with
                | Some n =>
                    if negb (String.eqb n EmptyString) && o
                    then Some n else None
                | None => None
                end) as [n |].
      + destruct (open_rejects host (rest_of done) n) as [e2 |] eqn:Eo; simpl.
        * intros [= <-]. left. right. left. eauto.
        * intros H. left. right. right. eauto.
      + simpl. intros H. left. right. right. eauto.
    - unfold useAIData. destruct (data aiResult) as [d |]; [| discriminate].
      destruct (originalPushData context) as [f |]; [| discriminate].
      destruct (known aiResult); [| discriminate].
      cbn [snd]. destruct (call_facts host (during context) f done d)
        as (_ & -> & _). intros H. left. left. eauto. }
  destruct (perform config host context aiResult a0 usedAIData done)
    as [used [es settled]].
  cbn [made]. simpl in Hp. intros Hin.
  apply elem_of_cons in Hin as [[= Ha He] | Hin].
  - subst a settled. apply Hp. reflexivity.
  - exact (IH _ _ _ Hin).
Qed.

(** X22. An error thrown by the handler is rethrown by the wrapper
    unchanged: when the handler runs, makes calls that go through and then
    throws [e], the wrapper throws [e], and what was done before the throw
    stays done (pushes and learn calls are not taken back). The wrapper
    adds no error of its own: when the handler has run, what the wrapper
    throws the handler's code threw, be it an error of its own or the
    error of a call that it let out; a call of the handler rejects only
    because a function of the host rejected or because the context has no
    [pushData] to call; and when the wrapper answers from the AI data, what
    it throws is the error with which the host's [pushData] rejected. *)
Theorem handler_error_rethrown (config : FetchBrainConfig)
    (pre : list Action) (a : Action) (e e' : Error) :
  let out := wrappedHandler config host originalHandler context aiResult in
  let before :=
    exec config host context aiResult (straight pre Return) false
      [OriginalHandler] in
  (skips config context aiResult = false ->
   originalHandler aiResult = straight pre (Raise e) ->
   error before = None ->
   out = (OriginalHandler :: effects before, Some e)) /\
  (snd out = Some e' ->
   (skips config context aiResult = false /\
    throws (originalHandler aiResult) e') \/
   (skips config context aiResult = true /\
    has_pushData context = true /\
    exists d : Json,
      data aiResult = Some d /\ pushData_rejects host [] d = Some e')) /\
  ((a, Some e') ∈ made (handler_run config host originalHandler context
                          aiResult) ->
   host_rejects host e' \/
   (context_pushData context = None /\
    (exists d, a = ContextPushData d) /\
    e' = "TypeError: context.pushData is not a function")).
Proof.
  intros out before. unfold out, wrappedHandler, handler_run.
  change (known aiResult && data_truthy aiResult &&
          negb (shouldRunHandler (alwaysRun config) (request_label context)))
    with (skips config context aiResult).
  split; [| split].
  - intros -> Hacts Hnone. rewrite Hacts.
    pose proof (exec_straight config pre (Raise e) false [OriginalHandler])
      as H. cbn zeta in H. fold before in H. rewrite (H Hnone).
    cbn [effects error exec]. rewrite app_nil_r. reflexivity.
  - destruct (skips config context aiResult) eqn:Hs.
    + intros Herr. right. split; [reflexivity |].
      unfold originalPushData, has_pushData in *.
      destruct (data aiResult) as [d |]; [| discriminate].
      destruct (context_pushData context) as [f |]; [| discriminate].
      destruct (call_facts host (tracked_url context) f [] d)
        as (_ & H2 & _).
      rewrite H2 in Herr. split; [reflexivity |]. exists d. auto.
    + cbn [snd]. intros Herr. left. split; [reflexivity |].
      exact (exec_throws config host context aiResult _ _ _ _ Herr).
  - apply exec_rejections.
Qed.

End Facts.

(** *** Instances *)

Lemma handler_runs_unless_answered_witness :
  skips skipping product_page known_product = true /\
  (OriginalHandler ∉
     fst (wrappedHandler skipping sink_down busy_handler product_page
            known_product)) /\
  snd (wrappedHandler skipping sink_down busy_handler product_page
         known_product) = Some "sink down" /\
  skips running product_page known_product = false /\
  exists es : list Effect,
    fst (wrappedHandler running sink_down busy_handler product_page
           known_product)
      = OriginalHandler :: es.
Proof.
  assert (H1 : skips skipping product_page known_product = true)
    by reflexivity.
  assert (H2 : skips running product_page known_product = false)
    by reflexivity.
  pose proof (handler_runs_unless_answered sink_down busy_handler
                product_page known_product skipping) as Hs.
  pose proof (handler_runs_unless_answered sink_down busy_handler
                product_page known_product running) as Hr.
  cbv zeta in Hs, Hr.
  destruct Hs as (_ & Hs & _). destruct (Hs H1) as (Hnot & _ & _ & Herr).
  destruct Hr as (Hr & _). destruct (Hr H2) as (es & Hes & _).
  assert (H3 : snd (wrappedHandler skipping sink_down busy_handler
                      product_page known_product) = Some "sink down").
  { apply Herr. split; [reflexivity |].
    exists "{title: Known Product}". split; reflexivity. }
  exact (conj H1 (conj Hnot (conj H3 (conj H2 (ex_intro _ es Hes))))).
Defined.



Lemma handler_error_rethrown_witness :
  skips running product_page unknown_result = false /\
  failing_handler unknown_result =
    straight [ContextPushData "{n: 1}"] (Raise "boom") /\
  error (exec running quiet product_page unknown_result
           (straight [ContextPushData "{n: 1}"] Return) false
           [OriginalHandler]) = None /\
  wrappedHandler running quiet failing_handler product_page unknown_result =
    (OriginalHandler ::
       effects (exec running quiet product_page unknown_result
                  (straight [ContextPushData "{n: 1}"] Return) false
                  [OriginalHandler]),
     Some "boom").
Proof.
  assert (H1 : skips running product_page unknown_result = false)
    by reflexivity.
  assert (H2 : failing_handler unknown_result =
               straight [ContextPushData "{n: 1}"] (Raise "boom"))
    by reflexivity.
  assert (H3 : error (exec running quiet product_page unknown_result
                        (straight [ContextPushData "{n: 1}"] Return) false
                        [OriginalHandler]) = None)
    by reflexivity.
  pose proof (handler_error_rethrown quiet failing_handler product_page
                unknown_result running [ContextPushData "{n: 1}"]
                UseAIData "boom" "boom") as H.
  cbv zeta in H. destruct H as (H & _).
  exact (conj H1 (conj H2 (conj H3 (H H1 H2 H3)))).
Defined.

End EnhanceWrapper.


(** ** Mock API server *)

Module MockServerProps.
Import Types MockServer.

Lemma slice_cons (n : nat) (c : Ascii.ascii) (s : string) :
  slice (S n) (String c s) = slice n s.
Proof. reflexivity. Qed.

Lemma slice_0 (s : string) : slice 0 s = s.
Proof.
  unfold slice. rewrite Nat.sub_0_r.
  induction s as [| c s IH]; [reflexivity |]. simpl. rewrite IH. reflexivity.
Qed.

Lemma prefix_split (p s : string) :
  String.prefix p s = true ->
  s = String.append p (slice (String.length p) s).
Proof.
  revert s. induction p as [| a p IH]; intros s H.
  - simpl. rewrite slice_0. reflexivity.
  - destruct s as [| b s]; [discriminate |]. simpl in H.
    destruct (Ascii.ascii_dec a b) as [-> |]; [| discriminate].
    simpl String.length. rewrite slice_cons.
    change (String b s =
            String b (String.append p (slice (String.length p) s))).
    f_equal. apply IH, H.
Qed.

Lemma prefix_append (p k : string) : String.prefix p (String.append p k) = true.
Proof.
  induction p as [| a p IH]; [destruct k; reflexivity |].
  change (String.prefix (String a p) (String a (String.append p k)) = true).
  simpl. destruct (Ascii.ascii_dec a a); [exact IH | congruence].
Qed.

Lemma slice_append (p k : string) :
  slice (String.length p) (String.append p k) = k.
Proof.
  induction p as [| a p IH]; [apply slice_0 |].
  change (slice (S (String.length p)) (String a (String.append p k)) = k).
  rewrite slice_cons. exact IH.
Qed.

(** X23. The middleware lets a request through exactly when its
    [authorization] header is ["Bearer "] followed by a key that starts
    with ["test_"] or ["fb_"]. Any other request, whatever its route and
    body, is answered with status 401 and leaves the knowledge base and
    the counters as they were. *)
Theorem only_bearer_keys_pass (h : option string) (r : Request) (w : t) :
  (authenticate h = None <->
   exists k : string,
     h = Some (String.append "Bearer " k) /\
     (startsWith "test_" k = true \/ startsWith "fb_" k = true)) /\
  (authenticate h <> None ->
   status (fst (handle h r w)) = 401 /\ snd (handle h r w) = w).
Proof.
  split.
  - split.
    + unfold authenticate. destruct h as [h |]; [| discriminate].
      destruct (startsWith "Bearer " h) eqn:Hb; [| discriminate]. simpl.
      destruct (startsWith "test_" (slice 7 h)) eqn:H1;
        [| destruct (startsWith "fb_" (slice 7 h)) eqn:H2; [| discriminate]];
        intros _; exists (slice 7 h);
        (split; [f_equal; apply (prefix_split "Bearer " h Hb) | auto]).
    + intros (k & -> & Hk). unfold authenticate, startsWith.
      rewrite (prefix_append "Bearer " k). simpl negb. cbv iota.
      change 7%nat with (String.length "Bearer ").
      rewrite slice_append.
      unfold startsWith in Hk. destruct Hk as [-> | ->];
        [reflexivity | rewrite andb_false_r; reflexivity].
  - intros Hno. unfold handle. destruct (authenticate h) as [res |] eqn:Ha;
      [| congruence].
    split; [| reflexivity]. unfold authenticate in Ha.
    destruct h as [h |]; [| injection Ha as <-; reflexivity].
    destruct (negb (startsWith "Bearer " h));
      [injection Ha as <-; reflexivity |].
    destruct (negb (startsWith "test_" (slice 7 h)) &&
              negb (startsWith "fb_" (slice 7 h)));
      [injection Ha as <-; reflexivity | discriminate].
Qed.

Lemma query_loop (k : gmap string Knowledge) (confidence : nat -> Json)
    (urls : list string) (st : Stats) (kn : list KnownItem)
    (un : list string) :
  Forall (stored k) kn ->
  exists (st' : Stats) (kn' : list KnownItem),
    fold_left (query_step k confidence) urls (st, kn, un) =
      (st', kn ++ kn', un ++ filter (fun u => k !! u = None) urls) /\
    map item_url kn' = filter (fun u => is_Some (k !! u)) urls /\
    Forall (stored k) kn' /\
    queries st' = queries st /\
    learned st' = learned st /\
    recognized st' = recognized st + Z.of_nat (length kn').
Proof.
  revert st kn un. induction urls as [| u urls IH]; intros st kn un Hkn.
  - exists st, []. simpl. rewrite !app_nil_r.
    repeat split; [constructor | lia].
  - cbn [fold_left]. unfold query_step at 2.
    destruct (k !! u) as [a |] eqn:E.
    + match goal with
      | |- context [fold_left _ urls (?s, kn ++ [?i], un)] =>
          destruct (IH s (kn ++ [i]) un) as (st' & kn' & H1 & H2 & H3 & H4 & H5 & H6);
          [apply Forall_app; split; [exact Hkn |];
           constructor; [| constructor]; unfold stored; simpl;
           rewrite E; destruct a; reflexivity |];
          exists st', (i :: kn')
      end.
      rewrite H1, <- app_assoc. simpl.
      rewrite !filter_cons, E.
      destruct (decide (Some a = None)); [discriminate |].
      destruct (decide (is_Some (Some a))) as [_ | Hn];
        [| exfalso; apply Hn; eexists; reflexivity].
      simpl in *. rewrite H2.
      repeat split; try assumption; try lia.
      constructor; [| exact H3]. unfold stored. simpl. rewrite E.
      destruct a; reflexivity.
    + destruct (IH st kn (un ++ [u]) Hkn)
        as (st' & kn' & H1 & H2 & H3 & H4 & H5 & H6).
      exists st', kn'. rewrite H1, <- app_assoc. simpl.
      rewrite !filter_cons, E.
      destruct (decide (None = None)); [| congruence].
      destruct (decide (is_Some (@None Knowledge))) as [[x Hx] | _];
        [discriminate |].
      repeat split; assumption.
Qed.

(** X24. An authorised query splits its URLs without losing or repeating
    any: [known] lists, in request order and with repetitions, the URLs the
    knowledge base has, each with the data and time stored for it, and
    [unknown] lists the others in request order. The query leaves the
    knowledge base as it was, adds the number of URLs to [queries] and the
    number of recognised ones to [recognized]. *)
Theorem query_partitions (h : option string) (urls : list string)
    (confidence : nat -> Json) (w : t) :
  authenticate h = None ->
  exists (known : list KnownItem) (w' : t),
    handle h (PostQuery (Some urls) confidence) w =
      (json (QueryBody known
               (filter (fun u => knowledge w !! u = None) urls)), w') /\
    map item_url known = filter (fun u => is_Some (knowledge w !! u)) urls /\
    Forall (stored (knowledge w)) known /\
    knowledge w' = knowledge w /\
    queries (stats w') = queries (stats w) + Z.of_nat (length urls) /\
    recognized (stats w') =
      recognized (stats w) + Z.of_nat (length known) /\
    learned (stats w') = learned (stats w).
Proof.
  intros Ha. unfold handle. rewrite Ha. cbn [route query].
  match goal with
  | |- context [fold_left _ urls (?s, [], [])] =>
      destruct (query_loop (knowledge w) confidence urls s [] [])
        as (st' & kn' & H1 & H2 & H3 & H4 & H5 & H6); [constructor |]
  end.
  rewrite H1. simpl in *. exists kn'. eexists. split; [reflexivity |].
  simpl. repeat split; assumption.
Qed.

Lemma last_for_cons (u : string) (e : Entry) (es : list Entry) :
  last_for u (e :: es) =
    match last_for u es with
    | Some d => Some d
    | None =>
        match truthy e with
        | Some (u', d) => if String.eqb u' u then Some d else None
        | None => None
        end
    end.
Proof.
  unfold last_for. cbn [omap list_omap].
  destruct (truthy e) as [[u' d] |]; [| destruct (last _); reflexivity].
  destruct (String.eqb u' u); [| destruct (last _); reflexivity].
  rewrite last_cons. reflexivity.
Qed.

Lemma learn_loop (date : nat -> string) (entries : list Entry) (w : t)
    (n : nat) :
  exists w' : t,
    fold_left (learn_step date) entries (w, n) =
      (w', (n + length (omap truthy entries))%nat) /\
    (forall u : string,
        knowledge_data <$> (knowledge w' !! u) =
          match last_for u entries with
          | Some d => Some d
          | None => knowledge_data <$> (knowledge w !! u)
          end) /\
    queries (stats w') = queries (stats w) /\
    recognized (stats w') = recognized (stats w) /\
    learned (stats w') =
      learned (stats w) + Z.of_nat (length (omap truthy entries)) /\
    (Z.of_nat (size (knowledge w')) <=
     Z.of_nat (size (knowledge w)) +
     Z.of_nat (length (omap truthy entries))).
Proof.
  revert w n. induction entries as [| e es IH]; intros w n.
  - exists w. simpl. rewrite Nat.add_0_r. repeat split; lia.
  - cbn [fold_left]. unfold learn_step at 2.
    cbn [omap list_omap].
    destruct (truthy e) as [[u' d] |] eqn:E.
    + match goal with
      | |- context [fold_left _ es (?w1, S n)] =>
          destruct (IH w1 (S n)) as (w' & H1 & H2 & H3 & H4 & H5 & H6)
      end.
      exists w'. rewrite H1. simpl in *.
      split; [f_equal; lia |].
      split; [| repeat split; try lia].
      * intros u. rewrite H2, last_for_cons, E.
        destruct (last_for u es); [reflexivity |].
        destruct (String.eqb_spec u' u) as [-> | Hne].
        -- rewrite lookup_insert_eq. reflexivity.
        -- rewrite lookup_insert_ne by exact Hne. reflexivity.
      * rewrite map_size_insert in H6.
        destruct (knowledge w !! u'); simpl in H6; lia.
    + destruct (IH w n) as (w' & H1 & H2 & H3 & H4 & H5 & H6).
      exists w'. rewrite H1.
      split; [reflexivity |].
      split; [| repeat split; assumption].
      intros u. rewrite H2, last_for_cons, E.
      destruct (last_for u es); reflexivity.
Qed.

(** X25. An authorised learn request stores the entries that have a
    non-empty URL and data, and answers with their number, repetitions of
    a URL included. A query for a URL that the request taught then answers
    [known] with the data of the last such entry for it, whatever was
    stored before; URLs the request did not teach keep what they had. *)
Theorem learn_then_query (h : option string) (entries : list Entry)
    (date : nat -> string) (confidence : nat -> Json) (u : string) (d : Json)
    (w : t) :
  authenticate h = None ->
  last_for u entries = Some d ->
  let w1 := snd (handle h (PostLearn (Some entries) date) w) in
  fst (handle h (PostLearn (Some entries) date) w) =
    json (LearnBody (Z.of_nat (length (omap truthy entries)))) /\
  (exists at_ : string,
      fst (handle h (PostQuery (Some [u]) confidence) w1) =
        json (QueryBody [{| item_url := u; item_data := d;
                            item_confidence := confidence O;
                            item_learnedAt := at_ |}] [])) /\
  (forall u' : string,
      last_for u' entries = None ->
      knowledge_data <$> (knowledge w1 !! u') =
        knowledge_data <$> (knowledge w !! u')).
Proof.
  intros Ha Hlast w1. unfold w1, handle. rewrite Ha. cbn [route learn].
  destruct (learn_loop date entries w O) as (w' & H1 & H2 & _).
  rewrite H1. cbn [fst snd]. split; [reflexivity | split].
  - pose proof (H2 u) as Hu. rewrite Hlast in Hu.
    destruct (knowledge w' !! u) as [a |] eqn:E; [| discriminate].
    exists (learnedAt a). unfold query. cbn [fold_left query_step].
    rewrite E. simpl in Hu. injection Hu as <-. reflexivity.
  - intros u' Hnone. rewrite H2, Hnone. reflexivity.
Qed.

Lemma consistent_handle (h : option string) (r : Request) (w : t) :
  consistent w -> consistent (snd (handle h r w)).
Proof.
  intros [Hr Hs]. unfold handle.
  destruct (authenticate h); [split; assumption |].
  destruct r as [[urls |] confidence | [entries |] date | period | |];
    cbn [route query learn get_stats health reset snd];
    try (split; assumption).
  - match goal with
    | |- context [fold_left _ urls (?s, [], [])] =>
        destruct (query_loop (knowledge w) confidence urls s [] [])
          as (st' & kn' & H1 & H2 & H3 & H4 & H5 & H6); [constructor |]
    end.
    rewrite H1. unfold consistent. simpl in *.
    assert (Hlen : (length kn' <= length urls)%nat).
    { rewrite <- (length_map item_url kn'), H2. apply length_filter. }
    split; lia.
  - destruct (learn_loop date entries w O) as (w' & H1 & H2 & H3 & H4 & H5 & H6).
    rewrite H1. unfold consistent. simpl. split; lia.
  - unfold consistent, init. simpl. rewrite map_size_empty. split; lia.
Qed.

(** X26. Whatever requests the server has answered since it started
    (authorised or not, resets included), [recognized] is between 0 and
    [queries] and the knowledge base has at most [learned] URLs; so the
    recognition rate of [GET /v1/stats] is the literal 0 when nothing was
    queried, and otherwise a quotient of a number between 0 and [queries]
    by [queries], which is positive. *)
Theorem counters_consistent (rs : list (option string * Request))
    (period : string) :
  let w := run rs init in
  consistent w /\
  exists rate : Number,
    fst (get_stats period w) =
      json (StatsBody (queries (stats w)) (recognized (stats w)) rate
              (learned (stats w)) period) /\
    (rate = integer 0 /\ queries (stats w) = 0 /\ recognized (stats w) = 0 \/
     rate = quotient (recognized (stats w)) (queries (stats w)) /\
     0 <= recognized (stats w) <= queries (stats w) /\
     0 < queries (stats w)).
Proof.
  intros w.
  assert (H : forall rs w0, consistent w0 -> consistent (run rs w0)).
  { clear. induction rs as [| [h r] rs IH]; intros w0 Hw; [exact Hw |].
    cbn [run]. apply IH, consistent_handle, Hw. }
  assert (Hw : consistent w).
  { apply H. unfold consistent, init. simpl. rewrite map_size_empty.
    split; lia. }
  split; [exact Hw |]. destruct Hw as [Hr _].
  unfold get_stats. cbn [fst].
  destruct (Z.ltb_spec 0 (queries (stats w))) as [Hpos | Hz].
  - eexists. split; [reflexivity |]. right. repeat split; lia.
  - eexists. split; [reflexivity |]. left. repeat split; lia.
Qed.

(** *** Instances *)

Lemma only_bearer_keys_pass_witness :
  authenticate (Some "Bearer secret") <> None /\
  status (fst (handle (Some "Bearer secret") PostReset taught)) = 401 /\
  snd (handle (Some "Bearer secret") PostReset taught) = taught.
Proof.
  assert (H1 : authenticate (Some "Bearer secret") <> None) by discriminate.
  destruct (only_bearer_keys_pass (Some "Bearer secret") PostReset taught)
    as (_ & H).
  exact (conj H1 (H H1)).
Defined.

Lemma query_partitions_witness :
  authenticate key = None /\
  exists (known : list KnownItem) (w' : t),
    handle key (PostQuery (Some ["https://example.com/a"; "x"])
                  (fun _ => "0.97")) taught =
      (json (QueryBody known
               (filter (fun u => knowledge taught !! u = None)
                  ["https://example.com/a"; "x"])), w') /\
    map item_url known =
      filter (fun u => is_Some (knowledge taught !! u))
        ["https://example.com/a"; "x"].
Proof.
  assert (H1 : authenticate key = None) by reflexivity.
  destruct (query_partitions key ["https://example.com/a"; "x"]
              (fun _ => "0.97") taught H1) as (known & w' & Hh & Hk & _).
  exact (conj H1 (ex_intro _ known (ex_intro _ w' (conj Hh Hk)))).
Defined.

Lemma learn_then_query_witness :
  authenticate key = None /\
  last_for "https://example.com/a" lesson = Some "{v: 2}" /\
  fst (handle key (PostLearn (Some lesson) (fun _ => "2025")) init) =
    json (LearnBody (Z.of_nat (length (omap truthy lesson)))) /\
  exists at_ : string,
    fst (handle key (PostQuery (Some ["https://example.com/a"])
                       (fun _ => "0.97"))
           (snd (handle key (PostLearn (Some lesson) (fun _ => "2025")) init)))
    = json (QueryBody [{| item_url := "https://example.com/a";
                          item_data := "{v: 2}";
                          item_confidence := "0.97";
                          item_learnedAt := at_ |}] []).
Proof.
  assert (H1 : authenticate key = None) by reflexivity.
  assert (H2 : last_for "https://example.com/a" lesson = Some "{v: 2}")
    by reflexivity.
  pose proof (learn_then_query key lesson (fun _ => "2025") (fun _ => "0.97")
                "https://example.com/a" "{v: 2}" init H1 H2) as H.
  cbv zeta in H. destruct H as (Hl & (at_ & Hq) & _).
  exact (conj H1 (conj H2 (conj Hl (ex_intro _ at_ Hq)))).
Defined.

End MockServerProps.


(** ** Mock client *)

Module MockFetchBrainProps.
Import Types MockFetchBrain.

Lemma lt_spec (a b : Q) : lt a b = true <-> (a < b)%Q.
Proof.
  unfold lt. rewrite negb_true_iff. split.
  - intros H. apply Qnot_le_lt. intros Hle.
    apply Qle_bool_iff in Hle. congruence.
  - intros H. destruct (Qle_bool b a) eqn:E; [| reflexivity].
    apply Qle_bool_iff in E. exfalso. exact (Qlt_not_le _ _ H E).
Qed.

(** X27. The mock fails only when [simulateFailures] is on, and then exactly
    when the draw of [Math.random()] is below the failure rate, where a
    rate of 0, which is also the default, counts as 0.1: a mock made with
    [simulateFailures: true] alone fails for draws below 0.1. A call that
    fails throws and changes neither the knowledge base nor the counters;
    a call that does not fail returns. *)
Theorem mock_failure_rate (random : Q) (url : string) (d : Json)
    (date : string) (dates : nat -> string) (w : t) :
  (options_simulateFailures w = false -> shouldFail random w = false) /\
  (options_simulateFailures w = true ->
   (options_failureRate w == 0)%Q ->
   (shouldFail random w = true <-> (random < tenth)%Q)) /\
  (options_simulateFailures w = true ->
   ~ (options_failureRate w == 0)%Q ->
   (shouldFail random w = true <-> (random < options_failureRate w)%Q)) /\
  (shouldFail random (new flaky dates) = true <-> (random < tenth)%Q) /\
  (shouldFail random w = true ->
   query url random w = (Throws "Simulated API failure", w) /\
   learn url d random date w = (Throws "Simulated API failure", w)) /\
  (shouldFail random w = false ->
   (exists a w', query url random w = (Returns a, w')) /\
   (exists r w', learn url d random date w = (Returns r, w'))).
Proof.
  split; [| split; [| split; [| split; [| split]]]].
  - intros H. unfold shouldFail. rewrite H. reflexivity.
  - intros H Hz. unfold shouldFail. rewrite H. simpl.
    apply Qeq_bool_iff in Hz. rewrite Hz. apply lt_spec.
  - intros H Hz. unfold shouldFail. rewrite H. simpl.
    destruct (Qeq_bool (options_failureRate w) 0) eqn:E;
      [apply Qeq_bool_iff in E; contradiction | apply lt_spec].
  - unfold shouldFail. simpl. apply lt_spec.
  - intros H. unfold query, learn. rewrite H. split; reflexivity.
  - intros H. unfold query, learn. rewrite H. split.
    + destruct (knowledge w !! url); eexists; eexists; reflexivity.
    + eexists; eexists; reflexivity.
Qed.

Lemma shouldFail_options (random : Q) (w w' : t) :
  options_simulateFailures w' = options_simulateFailures w ->
  options_failureRate w' = options_failureRate w ->
  shouldFail random w' = shouldFail random w.
Proof. intros H1 H2. unfold shouldFail. rewrite H1, H2. reflexivity. Qed.

(** X28. After a [learn(url, data)] that did not fail, a query for that URL
    that does not fail answers [known] with that data, confidence ["0.97"]
    and the time of the learn, whatever was known before; [has(url)] is
    true; queries for other URLs are answered as before; and the knowledge
    base has grown by at most one URL. *)
Theorem mock_learn_then_query (url url' : string) (d : Json)
    (random random' : Q) (date : string) (w : t) :
  shouldFail random w = false ->
  shouldFail random' w = false ->
  let w1 := snd (learn url d random date w) in
  fst (learn url d random date w) =
    Returns {| Types.status := accepted; Types.learned := 1;
               Types.verification :=
                 Some "{schemaValid: true, valuesValid: true, duplicate: false, warnings: []}" |} /\
  fst (query url random' w1) =
    Returns {| known := true; data := Some d; confidence := Some "0.97";
               learnedAt := Some date |} /\
  has url w1 = true /\
  (url' <> url -> fst (query url' random' w1) = fst (query url' random' w)) /\
  getKnowledgeSize w <= getKnowledgeSize w1 <= getKnowledgeSize w + 1 /\
  learned (_stats w1) = learned (_stats w) + 1.
Proof.
  intros H1 H2 w1. unfold w1, learn. rewrite H1. cbn [fst snd].
  match goal with
  | |- context [query url random' ?x] =>
      assert (H3 : shouldFail random' x = false)
        by (rewrite <- H2; apply shouldFail_options; reflexivity)
  end.
  split; [reflexivity |]. unfold query. rewrite H2, H3. simpl.
  split; [rewrite lookup_insert_eq; reflexivity |].
  split; [| split; [| split; [| reflexivity]]].
  - unfold has. simpl. rewrite lookup_insert_eq. apply bool_decide_eq_true.
    eexists; reflexivity.
  - intros Hne. rewrite lookup_insert_ne by congruence.
    destruct (knowledge w !! url'); reflexivity.
  - unfold getKnowledgeSize. simpl. rewrite map_size_insert.
    destruct (knowledge w !! url); simpl; lia.
Qed.

Lemma query_returns (url : string) (random : Q) (w : t) :
  shouldFail random w = false ->
  exists w' : t,
    query url random w = (Returns (answer (knowledge w) url), w') /\
    knowledge w' = knowledge w /\
    options_simulateFailures w' = options_simulateFailures w /\
    options_failureRate w' = options_failureRate w /\
    queries (_stats w') = queries (_stats w) + 1 /\
    recognized (_stats w') =
      recognized (_stats w) +
      Z.of_nat (length (filter (fun u => is_Some (knowledge w !! u)) [url])) /\
    learned (_stats w') = learned (_stats w).
Proof.
  intros H. unfold query, answer. rewrite H.
  rewrite filter_cons, filter_nil.
  destruct (knowledge w !! url) as [k |] eqn:E.
  - destruct (decide (is_Some (Some k))) as [_ | Hn];
      [| exfalso; apply Hn; eexists; reflexivity].
    eexists. split; [reflexivity |]. simpl. repeat split; lia.
  - destruct (decide (is_Some (@None Knowledge))) as [[x Hx] | _];
      [discriminate |].
    eexists. split; [reflexivity |]. simpl. repeat split; lia.
Qed.

Lemma query_stats (url : string) (random : Q) (w : t) :
  knowledge (snd (query url random w)) = knowledge w /\
  options_simulateFailures (snd (query url random w))
    = options_simulateFailures w /\
  options_failureRate (snd (query url random w)) = options_failureRate w /\
  learned (_stats (snd (query url random w))) = learned (_stats w) /\
  (0 <= recognized (_stats w) <= queries (_stats w) ->
   0 <= recognized (_stats (snd (query url random w)))
     <= queries (_stats (snd (query url random w)))).
Proof.
  destruct (shouldFail random w) eqn:E.
  - unfold query. rewrite E. simpl. repeat split; lia.
  - destruct (query_returns url random w E)
      as (w' & -> & H1 & H2 & H3 & H4 & H5 & H6).
    simpl. repeat split; try assumption.
    + pose proof (length_filter (fun u => is_Some (knowledge w !! u)) [url]).
      simpl in *. lia.
    + pose proof (length_filter (fun u => is_Some (knowledge w !! u)) [url]).
      simpl in *. lia.
Qed.

Lemma queryBulk_loop_returns (urls : list string) (random : nat -> Q)
    (i : nat) (results : gmap string AIResult) (w : t) :
  (forall j, (j < length urls)%nat -> shouldFail (random (i + j)%nat) w = false) ->
  exists w' : t,
    queryBulk_loop urls random i results w =
      (Returns (fold_left (fun m u => <[u := answer (knowledge w) u]> m)
                  urls results), w') /\
    knowledge w' = knowledge w /\
    queries (_stats w') = queries (_stats w) + Z.of_nat (length urls) /\
    recognized (_stats w') =
      recognized (_stats w) +
      Z.of_nat (length (filter (fun u => is_Some (knowledge w !! u)) urls)) /\
    learned (_stats w') = learned (_stats w).
Proof.
  revert i results w.
  induction urls as [| u urls IH]; intros i results w Hok.
  - exists w. simpl. repeat split; lia.
  - cbn [queryBulk_loop].
    assert (H0 : shouldFail (random i) w = false).
    { rewrite <- (Nat.add_0_r i). apply Hok. simpl. lia. }
    destruct (query_returns u (random i) w H0)
      as (w1 & -> & K1 & K2 & K3 & K4 & K5 & K6).
    destruct (IH (S i) (<[u := answer (knowledge w) u]> results) w1)
      as (w' & E & L1 & L2 & L3 & L4).
    { intros j Hj.
      rewrite (shouldFail_options _ w w1 K2 K3).
      replace (S i + j)%nat with (i + S j)%nat by lia.
      apply Hok. simpl. lia. }
    exists w'. rewrite E, K1. cbn [fold_left].
    split; [reflexivity |]. split; [congruence |].
    rewrite L2, L3, L4, K1, K4, K5, K6.
    assert (Hf : length (filter (fun u0 => is_Some (knowledge w !! u0))
                           (u :: urls)) =
                 (length (filter (fun u0 => is_Some (knowledge w !! u0)) [u]) +
                  length (filter (fun u0 => is_Some (knowledge w !! u0)) urls))%nat).
    { change (u :: urls) with ([u] ++ urls).
      rewrite filter_app, length_app. reflexivity. }
    rewrite Hf. cbn [length]. repeat split; lia.
Qed.

Lemma queryBulk_loop_throws (urls : list string) (random : nat -> Q)
    (i n : nat) (results : gmap string AIResult) (w : t) :
  (n < length urls)%nat ->
  shouldFail (random (i + n)%nat) w = true ->
  (forall j, (j < n)%nat -> shouldFail (random (i + j)%nat) w = false) ->
  exists w' : t,
    queryBulk_loop urls random i results w =
      (Throws "Simulated API failure", w') /\
    knowledge w' = knowledge w /\
    queries (_stats w') = queries (_stats w) + Z.of_nat n.
Proof.
  revert i n results w.
  induction urls as [| u urls IH]; intros i n results w Hn Hfail Hok;
    [simpl in Hn; lia |].
  cbn [queryBulk_loop]. destruct n as [| n].
  - rewrite Nat.add_0_r in Hfail. unfold query. rewrite Hfail.
    exists w. repeat split; lia.
  - assert (H0 : shouldFail (random i) w = false).
    { rewrite <- (Nat.add_0_r i). apply Hok. lia. }
    destruct (query_returns u (random i) w H0)
      as (w1 & -> & K1 & K2 & K3 & K4 & K5 & K6).
    destruct (IH (S i) n (<[u := answer (knowledge w) u]> results) w1)
      as (w' & E & L1 & L2).
    + simpl in Hn. lia.
    + rewrite (shouldFail_options _ w w1 K2 K3).
      replace (S i + n)%nat with (i + S n)%nat by lia. exact Hfail.
    + intros j Hj. rewrite (shouldFail_options _ w w1 K2 K3).
      replace (S i + j)%nat with (i + S j)%nat by lia. apply Hok. lia.
    + exists w'. rewrite E. split; [reflexivity |].
      split; [congruence | lia].
Qed.

(** X29. A bulk query none of whose queries fails returns a map that has,
    for exactly the URLs asked, the answer a single query gives; it leaves
    the knowledge base as it was, adds the number of URLs asked
    (repetitions included) to [queries] and the number of those known to
    [recognized]. If the query of one URL fails, the bulk query throws and
    returns no map, while [queries] keeps the queries made before the
    failure. *)
Theorem mock_bulk_query (urls : list string) (random : nat -> Q) (n : nat)
    (u : string) (w : t) :
  ((forall j, (j < length urls)%nat -> shouldFail (random j) w = false) ->
   exists (m : gmap string AIResult) (w' : t),
     queryBulk urls random w = (Returns m, w') /\
     (u ∈ urls -> m !! u = Some (answer (knowledge w) u)) /\
     (u ∉ urls -> m !! u = None) /\
     knowledge w' = knowledge w /\
     queries (_stats w') = queries (_stats w) + Z.of_nat (length urls) /\
     recognized (_stats w') =
       recognized (_stats w) +
       Z.of_nat (length (filter (fun u => is_Some (knowledge w !! u)) urls))) /\
  ((n < length urls)%nat ->
   shouldFail (random n) w = true ->
   (forall j, (j < n)%nat -> shouldFail (random j) w = false) ->
   exists w' : t,
     queryBulk urls random w = (Throws "Simulated API failure", w') /\
     knowledge w' = knowledge w /\
     queries (_stats w') = queries (_stats w) + Z.of_nat n).
Proof.
  split.
  - intros Hok.
    destruct (queryBulk_loop_returns urls random O ∅ w Hok)
      as (w' & E & H1 & H2 & H3 & _).
    unfold queryBulk. rewrite E. eexists. exists w'.
    split; [reflexivity |].
    pose proof (FetchBrainClientBulk.lookup_fold_insert
                  (fun x : string => x) (answer (knowledge w)) urls ∅ u) as L.
    cbv beta in L.
    split; [| split; [| repeat split; assumption]].
    + intros Hin. rewrite L.
      destruct (last (filter (fun a => a = u) urls)) as [a |] eqn:El.
      * apply FetchBrainClientBulk.last_filter_Some in El as [_ ->].
        reflexivity.
      * exfalso.
        exact (proj1 (FetchBrainClientBulk.last_filter_None _ _) El u Hin
                 eq_refl).
    + intros Hnin. rewrite L.
      destruct (last (filter (fun a => a = u) urls)) as [a |] eqn:El.
      * apply FetchBrainClientBulk.last_filter_Some in El as [Hin ->].
        contradiction.
      * apply lookup_empty.
  - intros Hn Hfail Hok.
    apply (queryBulk_loop_throws urls random O n ∅ w Hn Hfail Hok).
Qed.

Lemma set_all_size_le (entries : list (string * Json)) (date : nat -> string)
    (i : nat) (k : gmap string Knowledge) :
  (size k <= size (set_all entries date i k))%nat.
Proof.
  revert i k. induction entries as [| [u d] entries IH]; intros i k;
    [reflexivity |].
  cbn [set_all]. etransitivity; [| apply IH].
  rewrite map_size_insert. destruct (k !! u); simpl; lia.
Qed.

Lemma step_counters (c : Call) (w : t) :
  0 <= recognized (_stats w) <= queries (_stats w) ->
  0 <= learned (_stats w) ->
  (0 <= recognized (_stats (step c w)) <= queries (_stats (step c w)) /\
   0 <= learned (_stats (step c w))) /\
  options_simulateFailures (step c w) = options_simulateFailures w /\
  options_failureRate (step c w) = options_failureRate w.
Proof.
  intros Hr Hl.
  destruct c as [url random | urls random | url d random date
                | entries date |]; cbn [step].
  - destruct (query_stats url random w) as (_ & H2 & H3 & H4 & H5).
    rewrite H4. repeat split; try assumption; apply H5; assumption.
  - unfold queryBulk. generalize (∅ : gmap string AIResult) O.
    revert w Hr Hl. induction urls as [| u urls IH]; intros w Hr Hl m i.
    + simpl. repeat split; try assumption; lia.
    + cbn [queryBulk_loop].
      destruct (query_stats u (random i) w) as (_ & H2 & H3 & H4 & H5).
      destruct (query u (random i) w) as [[a | e] w1] eqn:E; simpl in *.
      * destruct (IH w1 (H5 Hr) ltac:(lia) (<[u := a]> m) (S i))
          as (I1 & I2 & I3).
        split; [exact I1 |]. split; congruence.
      * repeat split; try assumption; try lia; apply H5; assumption.
  - unfold learn. destruct (shouldFail random w); simpl;
      repeat split; try assumption; lia.
  - simpl. repeat split; try assumption; lia.
  - simpl. repeat split; lia.
Qed.

(** X30. Whatever calls a mock has had since it was made (queries and learns
    that failed or not, bulk queries, [seed], [clear]), [recognized] is
    between 0 and [queries], [learned] is not negative, and whether and
    how often it fails is as set at construction. *)
Theorem mock_counters_consistent (options : MockFetchBrainOptions)
    (date : nat -> string) (cs : list Call) :
  let w := run cs (new options date) in
  0 <= recognized (_stats w) <= queries (_stats w) /\
  0 <= learned (_stats w) /\
  options_simulateFailures w = default false (simulateFailures options) /\
  options_failureRate w = default 0%Q (failureRate options).
Proof.
  intros w.
  assert (H : forall cs w0,
             0 <= recognized (_stats w0) <= queries (_stats w0) ->
             0 <= learned (_stats w0) ->
             (0 <= recognized (_stats (run cs w0)) <= queries (_stats (run cs w0)) /\
              0 <= learned (_stats (run cs w0))) /\
             options_simulateFailures (run cs w0) = options_simulateFailures w0 /\
             options_failureRate (run cs w0) = options_failureRate w0).
  { clear. induction cs as [| c cs IH]; intros w0 Hr Hl;
      [simpl; repeat split; try assumption; lia |].
    cbn [run]. destruct (step_counters c w0 Hr Hl) as ((S1 & S2) & S3 & S4).
    destruct (IH (step c w0) S1 S2) as (I1 & I2 & I3).
    split; [exact I1 |]. split; congruence. }
  destruct (H cs (new options date)) as ((H1 & H2) & H3 & H4);
    [cbn [new _stats recognized queries learned]; lia
    | cbn [new _stats recognized queries learned]; lia |].
  subst w. split; [exact H1 | split; [exact H2 | split]].
  - rewrite H3. reflexivity.
  - rewrite H4. reflexivity.
Qed.

(** *** Instances *)

Lemma mock_failure_rate_witness :
  options_simulateFailures (new flaky (fun _ => "2025")) = true /\
  (options_failureRate (new flaky (fun _ => "2025")) == 0)%Q /\
  (shouldFail (1 # 20) (new flaky (fun _ => "2025")) = true <->
   (1 # 20 < tenth)%Q).
Proof.
  assert (H1 : options_simulateFailures (new flaky (fun _ => "2025")) = true)
    by reflexivity.
  assert (H2 : (options_failureRate (new flaky (fun _ => "2025")) == 0)%Q)
    by reflexivity.
  destruct (mock_failure_rate (1 # 20) "a" "{}" "2025" (fun _ => "2025")
              (new flaky (fun _ => "2025"))) as (_ & H & _).
  exact (conj H1 (conj H2 (H H1 H2))).
Defined.

Lemma mock_learn_then_query_witness :
  shouldFail 0 (new plain (fun _ => "2025")) = false /\
  fst (query "a" 0
         (snd (learn "a" "{v: 1}" 0 "2026" (new plain (fun _ => "2025"))))) =
    Returns {| known := true; data := Some "{v: 1}";
               confidence := Some "0.97"; learnedAt := Some "2026" |}.
Proof.
  assert (H1 : shouldFail 0 (new plain (fun _ => "2025")) = false)
    by reflexivity.
  pose proof (mock_learn_then_query "a" "b" "{v: 1}" 0 0 "2026"
                (new plain (fun _ => "2025")) H1 H1) as H.
  cbv zeta in H. destruct H as (_ & H & _).
  exact (conj H1 H).
Defined.

Lemma mock_bulk_query_witness :
  (1 < length ["a"; "b"; "c"])%nat /\
  shouldFail (draws 1%nat)
    (new flaky (fun _ => "2025")) = true /\
  exists w' : t,
    queryBulk ["a"; "b"; "c"] draws
      (new flaky (fun _ => "2025"))
    = (Throws "Simulated API failure", w') /\
    queries (_stats w') =
      queries (_stats (new flaky (fun _ => "2025"))) + Z.of_nat 1.
Proof.
  assert (H1 : (1 < length ["a"; "b"; "c"])%nat) by (simpl; lia).
  assert (H2 : shouldFail (draws 1%nat)
                 (new flaky (fun _ => "2025")) = true) by reflexivity.
  assert (H3 : forall j, (j < 1)%nat ->
               shouldFail (draws j)
                 (new flaky (fun _ => "2025")) = false).
  { intros j Hj. destruct j; [reflexivity | lia]. }
  destruct (mock_bulk_query ["a"; "b"; "c"]
              draws 1 "a"
              (new flaky (fun _ => "2025"))) as (_ & H).
  destruct (H H1 H2 H3) as (w' & Hq & _ & Hn).
  exact (conj H1 (conj H2 (ex_intro _ w' (conj Hq Hn)))).
Defined.

End MockFetchBrainProps.
